(** * my-carousel: the text splitter, the content analyzer, the slide
    generator and the ZIP exporter

    A shallow embedding of [src/utils/textSplitter.ts],
    [src/utils/contentAnalyzer.ts], the [generateSlides] and
    [validateSlideOptions] of the slide generator, and the file names, the
    word counts and the [validateZipOptions] of [src/utils/zipExporter.ts].

    JavaScript strings are sequences of UTF-16 code units, so a string is a
    [list N] and [.length] is [length].  Regular expressions are kept as
    syntax trees and run by a backtracking matcher that lists the ways a
    pattern can match in the priority order of ECMAScript; [replace],
    [split], [match] and [test] are built on it as the language defines
    them. *)

From Stdlib Require Import Strings.String Strings.Ascii.
From Stdlib Require Import List NArith ZArith QArith Bool Lia Arith.
From Stdlib Require Numbers.DecimalString Numbers.DecimalNat.
Import ListNotations.
Close Scope Q_scope.

(** ** Strings *)

Module JS.

Definition char := N.
Definition jsstring := list char.

(** A literal of the source, written as a Rocq string of ASCII characters. *)
Definition str (s : string) : jsstring :=
  map N_of_ascii (list_ascii_of_string s).

Definition chr (s : string) : char :=
  match s with
  | String a _ => N_of_ascii a
  | EmptyString => 0%N
  end.

(** [.length] of a string or of an array *)
Definition len {A : Type} (s : list A) : Z := Z.of_nat (length s).

Definition LF : char := 10%N.
Definition CR : char := 13%N.
Definition DQ : char := 34%N.        (* the double quote *)
Definition LDQ : char := 8220%N.     (* U+201C, left double quote *)
Definition RDQ : char := 8221%N.     (* U+201D, right double quote *)
Definition LSQ : char := 8216%N.     (* U+2018, left single quote *)
Definition RSQ : char := 8217%N.     (* U+2019, right single quote *)

Definition jsstring_eqb (a b : jsstring) : bool :=
  if list_eq_dec N.eq_dec a b then true else false.

(** Truthiness of a string: the empty string is falsy. *)
Definition truthy (s : jsstring) : bool :=
  match s with [] => false | _ :: _ => true end.

(** Truthiness of [string | undefined]. *)
Definition truthy_opt (o : option jsstring) : bool :=
  match o with Some s => truthy s | None => false end.

(** WhiteSpace and LineTerminator code units: what [String.prototype.trim]
    strips and what [\s] matches. *)
Definition isSpace (c : char) : bool :=
  ((9 <=? c) && (c <=? 13) || (c =? 32) || (c =? 160) || (c =? 5760)
   || (8192 <=? c) && (c <=? 8202) || (c =? 8232) || (c =? 8233)
   || (c =? 8239) || (c =? 8287) || (c =? 12288) || (c =? 65279))%N.

Fixpoint trimStart (s : jsstring) : jsstring :=
  match s with
  | c :: s' => if isSpace c then trimStart s' else s
  | [] => []
  end.

Definition trimEnd (s : jsstring) : jsstring := rev (trimStart (rev s)).

Fixpoint takeWhile (p : char -> bool) (s : jsstring) : jsstring :=
  match s with
  | c :: s' => if p c then c :: takeWhile p s' else []
  | [] => []
  end.

Fixpoint dropWhile (p : char -> bool) (s : jsstring) : jsstring :=
  match s with
  | c :: s' => if p c then dropWhile p s' else s
  | [] => []
  end.

Definition trim (s : jsstring) : jsstring := trimEnd (trimStart s).

(** [s.split(sep)] for a separator of one code unit: the pieces between the
    occurrences of [sep]; the empty string gives one empty piece. *)
Fixpoint split_chr (sep : char) (s : jsstring) : list jsstring :=
  match s with
  | [] => [[]]
  | c :: s' =>
      if (c =? sep)%N then [] :: split_chr sep s'
      else match split_chr sep s' with
           | p :: ps => (c :: p) :: ps
           | [] => [[c]]
           end
  end.

Fixpoint startsWith (p s : jsstring) : bool :=
  match p, s with
  | [], _ => true
  | a :: p', b :: s' => (a =? b)%N && startsWith p' s'
  | _ :: _, [] => false
  end.

(** [s.includes(k)] *)
Fixpoint includes (k s : jsstring) : bool :=
  startsWith k s || match s with [] => false | _ :: s' => includes k s' end.

(** [s.replace(k, empty)] for a string [k] and the empty replacement: the
    first occurrence of [k] is removed. *)
Fixpoint remove_first (k s : jsstring) : jsstring :=
  if startsWith k s then skipn (length k) s
  else match s with
       | [] => []
       | c :: s' => c :: remove_first k s'
       end.

(** [toLowerCase] on the code units whose lower case is or contains an ASCII
    letter: A to Z, U+0130 (to i followed by U+0307) and the Kelvin sign
    U+212A (to k).  The other case pairs of Unicode map code units outside
    ASCII to code units outside ASCII and are left in place: the source only
    compares lower-cased text with ASCII keywords and lower-cases tokens
    made of ASCII letters. *)
Definition lowerChar (c : char) : jsstring :=
  (if (65 <=? c) && (c <=? 90) then [c + 32]
   else if c =? 304 then [105; 775]
   else if c =? 8490 then [107]
   else [c])%N.

Definition toLowerCase (s : jsstring) : jsstring := flat_map lowerChar s.

(** A value of type [number]: a finite double, read as the rational it
    denotes, an infinity or NaN. *)
Inductive number : Type :=
| Num (q : Q)
| Infinity
| NegInfinity
| NaN.

(** [number | undefined]: what a numeric option holds.  The key of a
    [Partial<...>] can be present with the value [undefined], and the
    object spread copies it over the default. *)
Inductive value : Type :=
| Undefined
| Number (x : number).

(** An integer as a number. *)
Definition int (z : Z) : value := Number (Num (inject_Z z)).

(** ToNumber, which the comparisons and [Math.min] apply to an operand:
    [undefined] becomes NaN. *)
Definition ToNumber (v : value) : number :=
  match v with
  | Undefined => NaN
  | Number x => x
  end.

Definition isNaN (x : number) : bool :=
  match x with NaN => true | _ => false end.

(** [n > v] and [n >= v] for an integer [n], a length or a count: a
    comparison with NaN is false. *)
Definition num_gt (n : Z) (v : value) : bool :=
  match ToNumber v with
  | Num q => negb (Qle_bool (inject_Z n) q)
  | Infinity => false
  | NegInfinity => true
  | NaN => false
  end.

Definition num_ge (n : Z) (v : value) : bool :=
  match ToNumber v with
  | Num q => Qle_bool q (inject_Z n)
  | Infinity => false
  | NegInfinity => true
  | NaN => false
  end.

(** [Math.min(v, k)] for an integer [k]: NaN when [v] is NaN. *)
Definition Math_min (v : value) (k : Z) : value :=
  Number
    match ToNumber v with
    | Num q => Num (if Qle_bool q (inject_Z k) then q else inject_Z k)
    | Infinity => Num (inject_Z k)
    | NegInfinity => NegInfinity
    | NaN => NaN
    end.

(** [String(n)] for a non-negative integer: its decimal digits (below
    10^21, beyond which JavaScript writes an exponent; the numbers printed
    here are positions in an array). *)
Definition String_of_nat (n : nat) : jsstring :=
  str (DecimalString.NilEmpty.string_of_uint (Nat.to_uint n)).

(** [s.padStart(target, pad)] for a pad string of one code unit. *)
Definition padStart (target : nat) (pad : char) (s : jsstring) : jsstring :=
  repeat pad (target - length s) ++ s.

End JS.
Import JS.

(** ** Regular expressions *)

Module Regex.

Inductive regex : Type :=
| Eps                                   (* the empty pattern *)
| Chr (p : char -> bool)                (* a class of one code unit *)
| Seq (a b : regex)
| Alt (a b : regex)
| Star (greedy : bool) (a : regex)      (* a* and a*? *)
| Group (n : nat) (a : regex)           (* the n-th capture group *)
| Ahead (a : regex)                     (* (?=a) *)
| Behind (p : char -> bool)             (* (?<=[p]) for a class *)
| Eos                                   (* $ without the m flag *)
| Pair (lo hi : N).                     (* with the u flag: a surrogate pair
                                           whose code point is in lo..hi *)

Definition Plus (greedy : bool) (a : regex) : regex := Seq a (Star greedy a).
Definition Opt (a : regex) : regex := Alt a Eps.

(** The matcher's state: the input before the current position (nearest
    code unit first), the input from it on, and the captures made so far. *)
Record mstate : Type := MState {
  before : jsstring;
  rest : jsstring;
  caps : list (nat * jsstring)
}.

Definition consumed (st st' : mstate) : jsstring :=
  firstn (length (rest st) - length (rest st')) (rest st).

Definition set_cap (n : nat) (st st' : mstate) : mstate :=
  MState (before st') (rest st') ((n, consumed st st') :: caps st').

Fixpoint get_cap (n : nat) (cs : list (nat * jsstring)) : option jsstring :=
  match cs with
  | [] => None
  | (m, s) :: cs' => if Nat.eqb m n then Some s else get_cap n cs'
  end.

Definition codePoint (h l : N) : N :=
  (65536 + (h - 55296) * 1024 + (l - 56320))%N.

Definition isHigh (c : N) : bool := ((55296 <=? c) && (c <=? 56319))%N.
Definition isLow (c : N) : bool := ((56320 <=? c) && (c <=? 57343))%N.

(** Repetition.  An iteration that consumes nothing is rejected, as in
    ECMAScript, so [fuel] bounds the iterations by the input left. *)
Fixpoint star (greedy : bool) (step : mstate -> list mstate)
         (fuel : nat) (st : mstate) : list mstate :=
  match fuel with
  | O => [st]
  | S f =>
      let more :=
        flat_map (star greedy step f)
          (filter (fun st' => length (rest st') <? length (rest st))
                  (step st)) in
      if greedy then more ++ [st] else st :: more
  end.

(** All the ways [r] matches at [st], the one backtracking finds first at
    the head. *)
Fixpoint matches (r : regex) (st : mstate) : list mstate :=
  match r with
  | Eps => [st]
  | Chr p =>
      match rest st with
      | c :: tl => if p c then [MState (c :: before st) tl (caps st)] else []
      | [] => []
      end
  | Seq a b => flat_map (matches b) (matches a st)
  | Alt a b => matches a st ++ matches b st
  | Star g a => star g (matches a) (S (length (rest st))) st
  | Group n a => map (set_cap n st) (matches a st)
  | Ahead a =>
      match matches a st with
      | st' :: _ => [MState (before st) (rest st) (caps st')]
      | [] => []
      end
  | Behind p =>
      match before st with
      | c :: _ => if p c then [st] else []
      | [] => []
      end
  | Eos => match rest st with [] => [st] | _ :: _ => [] end
  | Pair lo hi =>
      match rest st with
      | h :: l :: tl =>
          if isHigh h && isLow l
             && (lo <=? codePoint h l)%N && (codePoint h l <=? hi)%N
          then [MState (l :: h :: before st) tl (caps st)]
          else []
      | _ => []
      end
  end.

(** The match at exactly this position, if any. *)
Definition match_here (r : regex) (bef s : jsstring) : option mstate :=
  hd_error (matches r (MState bef s [])).

(** A found match: where it starts, what it covers, its captures. *)
Record found : Type := Found {
  f_index : nat;
  f_text : jsstring;
  f_caps : list (nat * jsstring)
}.

(** The leftmost match at or after the current position. *)
Fixpoint search (r : regex) (bef s : jsstring) : option found :=
  match match_here r bef s with
  | Some st' =>
      Some (Found (length bef) (consumed (MState bef s []) st') (caps st'))
  | None =>
      match s with
      | c :: s' => search r (c :: bef) s'
      | [] => None
      end
  end.

(** [re.test(s)] *)
Definition test (r : regex) (s : jsstring) : bool :=
  match search r [] s with Some _ => true | None => false end.

(** [s.match(re)] without the g flag: the first match, or null. *)
Definition match1 (r : regex) (s : jsstring) : option found := search r [] s.

(** The n-th capture of a match result: [m?.[n]]. *)
Definition group (n : nat) (m : option found) : option jsstring :=
  match m with
  | Some f => get_cap n (f_caps f)
  | None => None
  end.

(** The whole match: [m?.[0]]. *)
Definition group0 (m : option found) : option jsstring :=
  match m with Some f => Some (f_text f) | None => None end.

(** Replacement templates: literal text and [$n]. *)
Inductive titem : Type :=
| TLit (s : jsstring)
| TCap (n : nat).

Definition expand (t : list titem) (cs : list (nat * jsstring)) : jsstring :=
  flat_map (fun i =>
              match i with
              | TLit s => s
              | TCap n => match get_cap n cs with Some s => s | None => [] end
              end) t.

(** [s.replace(re, t)] with the g flag.  [skip] counts the code units of the
    current match still to be dropped.  After an empty match the scan moves
    on by one code unit, which is copied. *)
Fixpoint replace_loop (r : regex) (t : list titem)
         (bef s : jsstring) (skip : nat) : jsstring :=
  match skip with
  | S k =>
      match s with
      | c :: s' => replace_loop r t (c :: bef) s' k
      | [] => []
      end
  | O =>
      match match_here r bef s with
      | Some st' =>
          let k := length s - length (rest st') in
          expand t (caps st') ++
          match s with
          | c :: s' =>
              match k with
              | O => c :: replace_loop r t (c :: bef) s' 0
              | S k' => replace_loop r t (c :: bef) s' k'
              end
          | [] => []
          end
      | None =>
          match s with
          | c :: s' => c :: replace_loop r t (c :: bef) s' 0
          | [] => []
          end
      end
  end.

Definition replace_all (r : regex) (t : list titem) (s : jsstring) : jsstring :=
  replace_loop r t [] s 0.

(** [s.replace(re, t)] without the g flag: the first match only. *)
Definition replace_first (r : regex) (t : list titem) (s : jsstring) : jsstring :=
  match search r [] s with
  | Some f =>
      firstn (f_index f) s ++ expand t (f_caps f)
      ++ skipn (f_index f + length (f_text f)) s
  | None => s
  end.

(** [s.match(re)] with the g flag: the texts of the successive matches, each
    search starting where the last match ended (one further after an empty
    match).  The source reads the null result as the empty array. *)
Fixpoint match_loop (r : regex) (bef s : jsstring) (skip : nat) : list jsstring :=
  match skip with
  | S k =>
      match s with
      | c :: s' => match_loop r (c :: bef) s' k
      | [] => []
      end
  | O =>
      match match_here r bef s with
      | Some st' =>
          let k := length s - length (rest st') in
          firstn k s ::
          match s with
          | c :: s' => match_loop r (c :: bef) s' (pred k)
          | [] => []
          end
      | None =>
          match s with
          | c :: s' => match_loop r (c :: bef) s' 0
          | [] => []
          end
      end
  end.

Definition match_all (r : regex) (s : jsstring) : list jsstring :=
  match_loop r [] s 0.

(** [s.split(re)] for a pattern without capture groups.  [piece] is the
    current piece, last code unit first; [fresh] says that the scan stands
    where the piece starts, where an empty match does not count.  No match
    is tried at the end of the input. *)
Fixpoint split_loop (r : regex) (bef s : jsstring)
         (piece : jsstring) (fresh : bool) (skip : nat) : list jsstring :=
  match s with
  | [] => [rev piece]
  | c :: s' =>
      match skip with
      | S k => split_loop r (c :: bef) s' [] true k
      | O =>
          match match_here r bef s with
          | Some st' =>
              match length s - length (rest st') with
              | O =>
                  if fresh then split_loop r (c :: bef) s' (c :: piece) false 0
                  else rev piece :: split_loop r (c :: bef) s' [c] false 0
              | S k => rev piece :: split_loop r (c :: bef) s' [] true k
              end
          | None => split_loop r (c :: bef) s' (c :: piece) false 0
          end
      end
  end.

Definition split (r : regex) (s : jsstring) : list jsstring :=
  match s with
  | [] => match match_here r [] [] with Some _ => [] | None => [[]] end
  | _ :: _ => split_loop r [] s [] true 0
  end.

(** Classes and literals. *)
Definition any (_ : char) : bool := true.
Definition isChr (s : string) (c : char) : bool := (c =? chr s)%N.
Definition oneOf (s : string) (c : char) : bool :=
  existsb (N.eqb c) (str s).
Definition inRange (a b : string) (c : char) : bool :=
  ((chr a <=? c) && (c <=? chr b))%N.

(** A class under the i flag: an ASCII letter is in it when the letter of
    the other case is.  Outside ASCII no code unit is canonicalized to an
    ASCII one, and the classes of the source hold ASCII letters only. *)
Definition ci (p : char -> bool) (c : char) : bool :=
  (p c
   || (65 <=? c) && (c <=? 90) && p (c + 32)
   || (97 <=? c) && (c <=? 122) && p (c - 32))%N.

Definition lit (s : string) : regex :=
  fold_right (fun a r => Seq (Chr (N.eqb a)) r) Eps (str s).

Definition litCI (s : string) : regex :=
  fold_right (fun a r => Seq (Chr (ci (N.eqb a))) r) Eps (str s).

(** [re.test(s)] for a pattern that opens with [^] and has no m flag, [r]
    being what follows the [^]: the assertion holds at index 0 only, so the
    pattern matches somewhere if and only if [r] matches there. *)
Definition test_from_start (r : regex) (s : jsstring) : bool :=
  match match_here r [] s with Some _ => true | None => false end.

End Regex.
Import Regex.

(** ** src/utils/textSplitter.ts *)

Module TextSplitter.

(** The options as the function holds them after the spread: each field
    is the default, or what the caller's key holds, which can be
    [undefined] ([None] for the boolean). *)
Record TextSplitterOptions : Type := {
  maxCharacters : value;
  respectSentenceBoundaries : option bool;
  minWordsPerSlide : value
}.

(** [Partial<TextSplitterOptions>]: a key is absent ([None]) or present
    with a value, [undefined] included. *)
Record PartialOptions : Type := {
  maxCharacters_opt : option value;
  respectSentenceBoundaries_opt : option (option bool);
  minWordsPerSlide_opt : option value
}.

Definition DEFAULT_OPTIONS : TextSplitterOptions :=
  {| maxCharacters := int 130;
     respectSentenceBoundaries := Some true;
     minWordsPerSlide := int 3 |}.

Definition no_options : PartialOptions :=
  {| maxCharacters_opt := None;
     respectSentenceBoundaries_opt := None;
     minWordsPerSlide_opt := None |}.

(** [{ ...d, ...o }] *)
Definition spread (d : TextSplitterOptions) (o : PartialOptions)
  : TextSplitterOptions :=
  {| maxCharacters :=
       match maxCharacters_opt o with Some v => v | None => maxCharacters d end;
     respectSentenceBoundaries :=
       match respectSentenceBoundaries_opt o with
       | Some v => v
       | None => respectSentenceBoundaries d
       end;
     minWordsPerSlide :=
       match minWordsPerSlide_opt o with
       | Some v => v
       | None => minWordsPerSlide d
       end |}.

(** [/\s+/] *)
Definition re_spaces : regex := Plus true (Chr isSpace).

(** [/([.!?])\s*([A-Z])/] *)
Definition re_sentence_start : regex :=
  Seq (Group 1 (Chr (oneOf ".!?")))
      (Seq (Star true (Chr isSpace)) (Group 2 (Chr (inRange "A" "Z")))).

(** [/(?<=[.!?])\s+/] *)
Definition re_sentence_gap : regex :=
  Seq (Behind (oneOf ".!?")) (Plus true (Chr isSpace)).

(** [/[.!?]$/] *)
Definition re_sentence_end : regex := Seq (Chr (oneOf ".!?")) Eos.

Definition getWordCount (text : jsstring) : Z :=
  len (filter (fun word => 0 <? length word) (split re_spaces (trim text))).

(** One turn of the loop of [splitLongSentence], on the pair of [slides] and
    [currentSlide]. *)
Definition wordStep (maxCharacters minWords : value)
           (acc : list jsstring * jsstring) (word : jsstring)
  : list jsstring * jsstring :=
  let '(slides, currentSlide) := acc in
  if truthy currentSlide
     && num_gt (len (currentSlide ++ str " " ++ word)) maxCharacters
  then
    if num_ge (getWordCount currentSlide) minWords
    then (slides ++ [trim currentSlide], word)
    else (slides, trim (currentSlide ++ str " " ++ word))
  else
    (slides,
     if truthy currentSlide then currentSlide ++ str " " ++ word else word).

(** Returns [(slides, remainder)]. *)
Definition splitLongSentence (sentence : jsstring)
           (maxCharacters minWords : value)
  : list jsstring * jsstring :=
  let words := split_chr (chr " ") sentence in
  fold_left (wordStep maxCharacters minWords) words ([], []).

(** The function mapped last by [postProcessSlides]. *)
Definition ensureEnding (slide : jsstring) : jsstring :=
  if negb (test re_sentence_end slide) && (10 <? length slide)
  then
    let words := split_chr (chr " ") slide in
    if 3 <=? length words then slide ++ str "." else slide
  else slide.

Definition postProcessSlides (slides : list jsstring)
           (options : TextSplitterOptions) : list jsstring :=
  map ensureEnding
    (filter (fun slide =>
               num_ge (getWordCount slide)
                 (Math_min (minWordsPerSlide options) 1))
       (filter (fun slide => 0 <? length slide)
          (map trim slides))).

(** The [cleanText] of [splitTextIntoSlides]. *)
Definition cleanText (text : jsstring) : jsstring :=
  replace_all re_sentence_start [TCap 1; TLit [LF]; TCap 2]
    (replace_all re_spaces [TLit (str " ")] (trim text)).

Definition sentencesOf (text : jsstring) : list jsstring :=
  filter (fun sentence => 0 <? length (trim sentence))
    (split re_sentence_gap (cleanText text)).

(** One turn of the loop over the sentences. *)
Definition sentenceStep (opts : TextSplitterOptions)
           (acc : list jsstring * jsstring) (sentence : jsstring)
  : list jsstring * jsstring :=
  let '(slides, currentSlide) := acc in
  let trimmedSentence := trim sentence in
  let '(slides, currentSlide) :=
    if truthy currentSlide
       && num_gt (len (currentSlide ++ str " " ++ trimmedSentence))
            (maxCharacters opts)
    then
      if num_ge (getWordCount currentSlide) (minWordsPerSlide opts)
      then (slides ++ [trim currentSlide], trimmedSentence)
      else (slides, trim (currentSlide ++ str " " ++ trimmedSentence))
    else
      (slides,
       if truthy currentSlide
       then currentSlide ++ str " " ++ trimmedSentence
       else trimmedSentence) in
  if num_gt (len currentSlide) (maxCharacters opts)
  then
    let '(chunks, remainder) :=
      splitLongSentence currentSlide (maxCharacters opts)
        (minWordsPerSlide opts) in
    (slides ++ chunks, remainder)
  else (slides, currentSlide).

(** The slides before post-processing. *)
Definition rawSlides (text : jsstring) (opts : TextSplitterOptions)
  : list jsstring :=
  let '(slides, currentSlide) :=
    fold_left (sentenceStep opts) (sentencesOf text) ([], []) in
  if truthy (trim currentSlide) then slides ++ [trim currentSlide] else slides.

Definition splitTextIntoSlides (text : jsstring) (options : PartialOptions)
  : list jsstring :=
  let opts := spread DEFAULT_OPTIONS options in
  if negb (truthy (trim text)) then []
  else
    if length (sentencesOf text) =? 0 then []
    else postProcessSlides (rawSlides text opts) opts.

Record TextValidation : Type := {
  isValid : bool;
  errors : list jsstring;
  warnings : list jsstring
}.

(** [if (c) a.push(m)] *)
Definition push_if (c : bool) (m : jsstring) (a : list jsstring)
  : list jsstring :=
  if c then a ++ [m] else a.

Definition validateTextForSlides (text : jsstring) : TextValidation :=
  let errors := [] in
  let warnings := [] in
  let errors :=
    push_if (negb (truthy (trim text))) (str "Text cannot be empty") errors in
  let errors :=
    push_if (len text <? 10)%Z
      (str "Text is too short (minimum 10 characters)") errors in
  let warnings :=
    push_if (len text >? 10000)%Z
      (str "Text is very long and may generate many slides") warnings in
  let wordCount := getWordCount text in
  let errors :=
    push_if (wordCount <? 3)%Z
      (str "Text must contain at least 3 words") errors in
  let warnings :=
    push_if (wordCount >? 2000)%Z
      (str "Text contains many words and may take time to process")
      warnings in
  {| isValid := length errors =? 0; errors := errors; warnings := warnings |}.

End TextSplitter.
Import TextSplitter.


(** ** src/utils/contentAnalyzer.ts *)

Module ContentAnalyzer.

Record StructuredContent : Type := {
  title : option jsstring;
  body : option jsstring;
  visual : option jsstring;
  visualSnippet : option jsstring;
  tags : option (list jsstring)
}.

(** [/\r\n|\r/] *)
Definition re_newline : regex :=
  Alt (Seq (Chr (N.eqb CR)) (Chr (N.eqb LF))) (Chr (N.eqb CR)).

Definition normalize (text : jsstring) : jsstring :=
  trim (replace_all re_newline [TLit [LF]] text).

Definition spaces : regex := Star true (Chr isSpace).        (* \s* *)
Definition openQuote (c : char) : bool :=
  ((c =? LDQ) || (c =? DQ) || (c =? chr "'"))%N.
Definition closeQuote (c : char) : bool :=
  ((c =? RDQ) || (c =? DQ) || (c =? chr "'"))%N.

(** [/Label\s*[oq]?([\s\S]+?)[cq](?=\s|$)/i], the label with its colon;
    [oq] stands for the class of the opening quotes (U+201C, the double and
    the single quote) and [cq] for that of the closing ones (U+201D, the
    double and the single quote) *)
Definition re_quoted (label : string) : regex :=
  Seq (litCI label)
    (Seq spaces
       (Seq (Opt (Chr openQuote))
          (Seq (Group 1 (Plus false (Chr any)))
             (Seq (Chr closeQuote) (Ahead (Alt (Chr isSpace) Eos)))))).

(** [/Title:\s*([\s\S]+?)(?=$|\s*Body|\s*Visual)/i] *)
Definition re_title_plain : regex :=
  Seq (litCI "Title:")
    (Seq spaces
       (Seq (Group 1 (Plus false (Chr any)))
          (Ahead (Alt Eos (Alt (Seq spaces (litCI "Body"))
                               (Seq spaces (litCI "Visual"))))))).

(** [/Body:\s*([\s\S]+?)(?=$|\s*Visual)/i] *)
Definition re_body_plain : regex :=
  Seq (litCI "Body:")
    (Seq spaces
       (Seq (Group 1 (Plus false (Chr any)))
          (Ahead (Alt Eos (Seq spaces (litCI "Visual")))))).

(** [/Visual:\s*([\s\S]+)$/i] *)
Definition re_visual_plain : regex :=
  Seq (litCI "Visual:")
    (Seq spaces (Seq (Group 1 (Plus true (Chr any))) Eos)).

(** The fenced block: three backquotes, [([\s\S]*?)], three backquotes *)
Definition re_fenced : regex :=
  Seq (lit "```") (Seq (Group 1 (Star false (Chr any))) (lit "```")).

(** [/\{[\s\S]*\}/] (the m flag of one of its uses changes nothing: the
    pattern has no anchor) *)
Definition re_braced : regex :=
  Seq (Chr (isChr "{")) (Seq (Star true (Chr any)) (Chr (isChr "}"))).

(** [a || b] on match results *)
Definition orElse {A : Type} (a b : option A) : option A :=
  match a with Some _ => a | None => b end.

Definition extractLabeled (text : jsstring) : StructuredContent :=
  let titleMatch :=
    orElse (match1 (re_quoted "Title:") text) (match1 re_title_plain text) in
  let bodyMatch :=
    orElse (match1 (re_quoted "Body:") text) (match1 re_body_plain text) in
  let visualMatch :=
    orElse (match1 (re_quoted "Visual:") text) (match1 re_visual_plain text) in
  let visualRaw := option_map trim (group 1 visualMatch) in
  let visualSnippet :=
    if truthy_opt visualRaw then
      let raw := match visualRaw with Some v => v | None => [] end in
      let fenced := match1 re_fenced raw in
      match fenced with
      | Some _ => option_map trim (group 1 fenced)
      | None =>
          let braced := match1 re_braced raw in
          option_map trim (group0 braced)
      end
    else None in
  {| title := option_map trim (group 1 titleMatch);
     body := option_map trim (group 1 bodyMatch);
     visual := visualRaw;
     visualSnippet := visualSnippet;
     tags := None |}.

Definition keywords : list jsstring :=
  map str ["api"; "endpoint"; "response"; "json"; "payload"; "leak";
           "secret"; "pii"; "ssn"; "token"; "password"]%string.

Definition detectKeywordsForVisual (text : jsstring) : option jsstring :=
  let lower := toLowerCase text in
  let matched := existsb (fun k => includes k lower) keywords in
  if negb matched then None
  else Some (str "API response JSON with red highlights on sensitive fields").

(** [/[q]|[\u{1F300}-\u{1FAFF}]/u], with [q] the class of the double and
    the single quote, U+201C, U+201D, U+2018 and U+2019 *)
Definition re_emphasis : regex :=
  Alt (Chr (fun c => (c =? DQ) || (c =? chr "'") || (c =? LDQ) || (c =? RDQ)
                     || (c =? LSQ) || (c =? RSQ))%N)
      (Pair 127744 129791).

(** [/:\s*$/] *)
Definition re_colon_end : regex := Seq (Chr (isChr ":")) (Seq spaces Eos).

(** [/\n+/] *)
Definition re_lines : regex := Plus true (Chr (N.eqb LF)).

(** [/\n{2,}/] *)
Definition re_blank_lines : regex :=
  Seq (Chr (N.eqb LF)) (Plus true (Chr (N.eqb LF))).

(** [/#[a-z0-9_]+/i] *)
Definition tagChar (c : char) : bool :=
  inRange "a" "z" c || inRange "0" "9" c || isChr "_" c.
Definition re_hashtag : regex :=
  Seq (Chr (ci (isChr "#"))) (Plus true (Chr (ci tagChar))).

(** [Array.from(new Set(l))]: the first occurrence of each element, in order *)
Fixpoint uniq_from (seen l : list jsstring) : list jsstring :=
  match l with
  | [] => []
  | x :: l' =>
      if existsb (jsstring_eqb x) seen then uniq_from seen l'
      else x :: uniq_from (x :: seen) l'
  end.
Definition uniq (l : list jsstring) : list jsstring := uniq_from [] l.

(** The title loop over the lines of [heuristics]. *)
Fixpoint emphasizedLine (lines : list jsstring) : option jsstring :=
  match lines with
  | [] => None
  | line :: lines' =>
      let isShort := length line <=? 80 in
      let hasEmojiOrQuotes := test re_emphasis line in
      let endsWithColon := test re_colon_end line in
      if isShort && (hasEmojiOrQuotes || endsWithColon)
      then Some (replace_first re_colon_end [] line)
      else emphasizedLine lines'
  end.

Definition hashtags (normalized : jsstring) : list jsstring :=
  uniq (map toLowerCase (match_all re_hashtag normalized)).

Definition heuristics (text : jsstring) : StructuredContent :=
  let normalized := normalize text in
  let lines :=
    filter truthy (map trim (split re_lines normalized)) in
  let title := emphasizedLine lines in
  let title :=
    if negb (truthy_opt title) then
      let sentence :=
        option_map trim (hd_error (split re_sentence_gap normalized)) in
      match sentence with
      | Some s => if truthy s && (length s <=? 120) then sentence else title
      | None => title
      end
    else title in
  let fenced := match1 re_fenced normalized in
  let braced := match1 re_braced normalized in
  let '(visual, visualSnippet) :=
    match fenced, braced with
    | Some _, _ =>
        (Some (str "Code/JSON snippet detected"),
         option_map trim (group 1 fenced))
    | None, Some _ =>
        (Some (str "Code/JSON snippet detected"),
         option_map trim (group0 braced))
    | None, None => (detectKeywordsForVisual normalized, None)
    end in
  let body := normalized in
  let body :=
    match title with
    | Some t => if truthy t then trim (remove_first t body) else body
    | None => body
    end in
  let body :=
    if truthy_opt (group0 fenced)
    then trim (remove_first
                 (match group0 fenced with Some b => b | None => [] end) body)
    else if truthy_opt (group0 braced)
    then trim (remove_first
                 (match group0 braced with Some b => b | None => [] end) body)
    else body in
  let body := trim (replace_all re_blank_lines [TLit [LF]] body) in
  let tags := hashtags normalized in
  {| title := title;
     body := Some body;
     visual := visual;
     visualSnippet := visualSnippet;
     tags := Some tags |}.

Definition hasAnyLabel (labeled : StructuredContent) : bool :=
  truthy_opt (title labeled) || truthy_opt (body labeled)
  || truthy_opt (visual labeled).

Definition analyzeContent (text : jsstring) : StructuredContent :=
  let labeled := extractLabeled text in
  if hasAnyLabel labeled then labeled else heuristics text.

End ContentAnalyzer.
Import ContentAnalyzer.

(** ** The slide generator: validateSlideOptions and generateSlides *)

Module SlideGenerator.

(** [Partial<SlideGeneratorOptions>].  A [number] is modelled as a rational:
    the comparisons of the validator with 100, 4000, 0.1 and 1 come out the
    same on a double and on the rational it denotes.  NaN has no
    counterpart. *)
Record PartialSlideOptions : Type := {
  width : option Q;
  height : option Q;
  quality : option Q;
  format : option jsstring;
  backgroundColor : option jsstring
}.

Record OptionsValidation : Type := {
  isValid : bool;
  errors : list jsstring
}.

Definition Qltb (a b : Q) : bool := negb (Qle_bool b a).

(** Truthiness of [number | undefined]: 0 and undefined are falsy. *)
Definition truthy_num (o : option Q) : bool :=
  match o with Some v => negb (Qeq_bool v 0) | None => false end.

Definition num (o : option Q) : Q := match o with Some v => v | None => 0%Q end.

Definition validateSlideOptions (options : PartialSlideOptions)
  : OptionsValidation :=
  let errors := [] in
  let errors :=
    push_if (truthy_num (width options)
             && (Qltb (num (width options)) 100
                 || Qltb 4000 (num (width options))))
      (str "Width must be between 100 and 4000 pixels") errors in
  let errors :=
    push_if (truthy_num (height options)
             && (Qltb (num (height options)) 100
                 || Qltb 4000 (num (height options))))
      (str "Height must be between 100 and 4000 pixels") errors in
  let errors :=
    push_if (truthy_num (quality options)
             && (Qltb (num (quality options)) (1 # 10)
                 || Qltb 1 (num (quality options))))
      (str "Quality must be between 0.1 and 1") errors in
  let errors :=
    push_if (truthy_opt (format options)
             && negb (existsb
                        (jsstring_eqb
                           (match format options with
                            | Some f => f
                            | None => []
                            end))
                        [str "png"; str "jpg"]))
      (str "Format must be either " ++ [DQ] ++ str "png" ++ [DQ]
       ++ str " or " ++ [DQ] ++ str "jpg" ++ [DQ]) errors in
  {| isValid := length errors =? 0; errors := errors |}.

(** [Slide], over the type of the templates, which [generateSlides] only
    passes on.  The two numbers are non-negative integers. *)
Record Slide (Template : Type) : Type := {
  id : jsstring;
  content : jsstring;
  template : Template;
  slideNumber : nat;
  totalSlides : nat
}.

Arguments id {Template} _.
Arguments content {Template} _.
Arguments template {Template} _.
Arguments slideNumber {Template} _.
Arguments totalSlides {Template} _.

(** [l.map((x, index) => f(x, index))], the indices counted from [index] *)
Fixpoint map_index {A B : Type} (f : A -> nat -> B) (l : list A) (index : nat)
  : list B :=
  match l with
  | [] => []
  | x :: l' => f x index :: map_index f l' (S index)
  end.

Definition generateSlides {Template : Type}
           (textSlides : list jsstring) (template : Template)
  : list (Slide Template) :=
  map_index
    (fun content index =>
       {| id := str "slide-" ++ String_of_nat (index + 1);
          content := content;
          template := template;
          slideNumber := index + 1;
          totalSlides := length textSlides |})
    textSlides 0.

End SlideGenerator.

(** ** src/utils/zipExporter.ts *)

Module ZipExporter.

(** [Partial<ZipExportOptions>].  The compression level is a rational, as
    the numbers of the slide options are.  [validateZipOptions] reads a key
    that is absent and a key set to [undefined] alike ([None]); the object
    spread of [createZipPreview] does not, so [includeMetadata] is absent
    ([None]), [undefined] ([Some None]) or a boolean. *)
Record PartialZipOptions : Type := {
  filename : option jsstring;
  includeMetadata : option (option bool);
  compressionLevel : option Q
}.

Record ZipValidation : Type := {
  isValid : bool;
  errors : list jsstring
}.

(** The class [[a-zA-Z0-9_-]] *)
Definition nameChar (c : char) : bool :=
  inRange "a" "z" c || inRange "A" "Z" c || inRange "0" "9" c
  || isChr "_" c || isChr "-" c.

(** [/^[a-zA-Z0-9_-]+$/], after its [^] *)
Definition re_filename : regex := Seq (Plus true (Chr nameChar)) Eos.

Definition validateZipOptions (options : PartialZipOptions) : ZipValidation :=
  let errors := [] in
  let errors :=
    push_if (truthy_opt (filename options)
             && negb (test_from_start re_filename
                        (match filename options with
                         | Some f => f
                         | None => []
                         end)))
      (str "Filename can only contain letters, numbers, hyphens, and underscores")
      errors in
  let errors :=
    push_if (SlideGenerator.truthy_num (compressionLevel options)
             && (SlideGenerator.Qltb
                   (SlideGenerator.num (compressionLevel options)) 0
                 || SlideGenerator.Qltb 9
                      (SlideGenerator.num (compressionLevel options))))
      (str "Compression level must be between 0 and 9") errors in
  {| isValid := length errors =? 0; errors := errors |}.

(** [format || 'png'] *)
Definition formatOrPng (format : option jsstring) : jsstring :=
  if truthy_opt format
  then match format with Some f => f | None => [] end
  else str "png".

(** The name of the file of a slide, as [exportSlidesAsZip],
    [generateMetadata] and [createZipPreview] write it:
    [`slide-${String(slide.slideNumber).padStart(2, '0')}.${format || 'png'}`] *)
Definition slideFileName (slideNumber : nat) (format : option jsstring)
  : jsstring :=
  str "slide-" ++ padStart 2 (chr "0") (String_of_nat slideNumber)
  ++ str "." ++ formatOrPng format.

(** The [name]s of the [files] of [createZipPreview]: the entries that
    [exportSlidesAsZip] adds to the archive, in order.  [includeMetadata]
    defaults to true, and [undefined] is falsy. *)
Definition previewFileNames {Template : Type}
           (slides : list (SlideGenerator.Slide Template))
           (zipOptions : PartialZipOptions)
           (slideOptions : SlideGenerator.PartialSlideOptions)
  : list jsstring :=
  let includeMetadata :=
    match includeMetadata zipOptions with
    | Some v => v
    | None => Some true
    end in
  let files :=
    map (fun slide =>
           slideFileName (SlideGenerator.slideNumber slide)
             (SlideGenerator.format slideOptions))
      slides in
  match includeMetadata with
  | Some true => files ++ [str "metadata.json"]
  | _ => files
  end.

(** The word count of [generateMetadata]:
    [content.split(/\s+/).filter(word => word.length > 0).length] *)
Definition contentWordCount (content : jsstring) : Z :=
  len (filter (fun word => 0 <? length word) (split re_spaces content)).

(** [statistics.totalCharacters] and [statistics.totalWords] of
    [generateMetadata] *)
Definition totalCharacters {Template : Type}
           (slides : list (SlideGenerator.Slide Template)) : Z :=
  fold_left (fun sum slide => (sum + len (SlideGenerator.content slide))%Z)
    slides 0%Z.

Definition totalWords {Template : Type}
           (slides : list (SlideGenerator.Slide Template)) : Z :=
  fold_left
    (fun sum slide =>
       (sum + contentWordCount (SlideGenerator.content slide))%Z)
    slides 0%Z.

End ZipExporter.


(** * Notions used to state the properties *)

Module Notions.

(** The code units [.], [!] and [?], and the letters A to Z. *)
Definition isPunct : char -> bool := oneOf ".!?".
Definition isUpper : char -> bool := inRange "A" "Z".

(** The states [p*] reaches from a position, the longest run first. *)
Fixpoint chr_star (p : char -> bool) (bef s : jsstring)
         (cs : list (nat * jsstring)) : list mstate :=
  match s with
  | c :: s' =>
      if p c then chr_star p (c :: bef) s' cs ++ [MState bef s cs]
      else [MState bef s cs]
  | [] => [MState bef [] cs]
  end.

(** The words of a text: its maximal runs of code units that are not white
    space, in order.  [cur] is the word being read, last code unit first. *)
Definition flush (cur : jsstring) : list jsstring :=
  match cur with [] => [] | _ :: _ => [rev cur] end.

Fixpoint words_acc (cur s : jsstring) : list jsstring :=
  match s with
  | [] => flush cur
  | c :: s' =>
      if isSpace c then flush cur ++ words_acc [] s'
      else words_acc (c :: cur) s'
  end.

Definition wordsOf (s : jsstring) : list jsstring := words_acc [] s.

(** Words joined by single spaces. *)
Fixpoint unwords (l : list jsstring) : jsstring :=
  match l with
  | [] => []
  | [w] => w
  | w :: l' => w ++ str " " ++ unwords l'
  end.

Definition isWord (w : jsstring) : bool :=
  truthy w && forallb (fun c => negb (isSpace c)) w.

(** A tidy string: words joined by single spaces (U+0020), no other white
    space, none at either end, and at least one word.  [inWord] tells
    whether the code unit before belongs to a word. *)
Fixpoint tidy_from (inWord : bool) (s : jsstring) : bool :=
  match s with
  | [] => inWord
  | c :: s' =>
      if isSpace c then (c =? 32)%N && inWord && tidy_from false s'
      else tidy_from true s'
  end.

Definition tidy (s : jsstring) : bool := tidy_from false s.

(** A marked string: tidy, but a word that ends in [.], [!] or [?] may be
    followed by a line feed instead of a space.  [prev] is the code unit
    before when it belongs to a word. *)
Fixpoint marked_from (prev : option char) (s : jsstring) : bool :=
  match s with
  | [] => match prev with Some _ => true | None => false end
  | c :: s' =>
      if isSpace c then
        match prev with
        | Some q =>
            ((c =? 32)%N || (c =? LF)%N && isPunct q) && marked_from None s'
        | None => false
        end
      else marked_from (Some c) s'
  end.

Definition marked (s : jsstring) : bool := marked_from None s.

(** The last code unit, if any, is not white space. *)
Fixpoint noTrailingSpace (s : jsstring) : bool :=
  match s with
  | [] => true
  | c :: s' =>
      match s' with
      | [] => negb (isSpace c)
      | _ :: _ => noTrailingSpace s'
      end
  end.

(** The text trimmed and with its runs of white space replaced by a space:
    the first two steps of [cleanText]. *)
Definition collapsed (text : jsstring) : jsstring :=
  replace_all re_spaces [TLit (str " ")] (trim text).

(** The replacement template [$1\n$2]. *)
Definition break_template : list titem := [TCap 1; TLit [LF]; TCap 2].

Definition notSpace (c : char) : bool := negb (isSpace c).

(** Some [.], [!] or [?] is directly followed by a letter A to Z. *)
Fixpoint innerBreak (s : jsstring) : bool :=
  match s with
  | c :: s' =>
      match s' with
      | u :: _ => isPunct c && isUpper u
      | [] => false
      end || innerBreak s'
  | [] => false
  end.

(** What the loops keep true of a group of words that makes a slide or
    the buffer: it does not exceed the character budget, or it is at most
    one word, or its words but the last are too few for [minWords] (the
    last was merged by force). *)
Definition fits (maxCharacters minWords : value) (g : list jsstring) : Prop :=
  num_gt (len (unwords g)) maxCharacters = false \/ length g <= 1
  \/ num_ge (len g - 1) minWords = false.

Definition allWords (g : list jsstring) : Prop :=
  Forall (fun w => isWord w = true) g.

Definition goodGroup (maxCharacters minWords : value) (g : list jsstring)
  : Prop :=
  g <> [] /\ allWords g /\ fits maxCharacters minWords g.

(** The state of a loop, [(slides, currentSlide)], read as groups of words
    that together are the words [ws] taken in so far. *)
Definition loopInv (maxCharacters minWords : value)
           (st : list jsstring * jsstring) (ws : list jsstring) : Prop :=
  exists gs bw,
    st = (map unwords gs, unwords bw)
    /\ Forall (goodGroup maxCharacters minWords) gs
    /\ allWords bw /\ fits maxCharacters minWords bw
    /\ concat gs ++ bw = ws.

(** A string made by a forced merge: a buffer [b] that is not empty and
    has too few words for [minWords], a space, and the word [w] that was
    merged into it.  [w] has no white space, so [b] is all of the string
    before its last word. *)
Definition forcedMerge (minWords : value) (p : jsstring) : Prop :=
  exists b w,
    p = b ++ str " " ++ w /\ isWord w = true /\ b <> []
    /\ num_ge (getWordCount b) minWords = false
    /\ getWordCount p = (getWordCount b + 1)%Z.

(** The hashtag tokens of a text, read off the claim: a [#] followed by as
    many letters, digits and underscores as follow it, at least one; the
    text is scanned from the left and a token ends where the run ends.
    [tok] is the token being read, last code unit first. *)
Definition isTagChar (c : char) : bool :=
  inRange "a" "z" c || inRange "A" "Z" c || inRange "0" "9" c || isChr "_" c.

Definition flushTag (tok : jsstring) : list jsstring :=
  match tok with
  | _ :: _ :: _ => [rev tok]
  | _ => []
  end.

Fixpoint scanTags (tok s : jsstring) : list jsstring :=
  match s with
  | [] => flushTag tok
  | c :: s' =>
      if truthy tok && isTagChar c then scanTags (c :: tok) s'
      else flushTag tok ++ scanTags (if isChr "#" c then [c] else []) s'
  end.

Definition hashtagTokens_spec (text : jsstring) : list jsstring := scanTags [] text.

(** The labeled text of the specification's example: the three labels on
    three lines, each value in double quotes. *)
Definition labeled_example : jsstring :=
  str "Title: " ++ [DQ] ++ str "Hello" ++ [DQ; LF]
  ++ str "Body: " ++ [DQ] ++ str "World" ++ [DQ; LF]
  ++ str "Visual: " ++ [DQ] ++ str "none" ++ [DQ].

(** A numeric option that [validateSlideOptions] checks and finds outside
    [lo, hi]: it is given and it is not 0. *)
Definition checkedOutside (lo hi : Q) (o : option Q) : Prop :=
  exists v, o = Some v /\ ~ (v == 0)%Q /\ (v < lo \/ hi < v)%Q.

(** A format that [validateSlideOptions] checks and refuses: it is given,
    it is not the empty string, and it is neither png nor jpg. *)
Definition checkedFormat (o : option jsstring) : Prop :=
  exists f, o = Some f /\ f <> [] /\ f <> str "png" /\ f <> str "jpg".

(** A group of words that a loop has closed: it is not empty and has
    enough words for [minWords]. *)
Definition fullGroup (minWords : value) (g : list jsstring) : Prop :=
  g <> [] /\ allWords g /\ num_ge (len g) minWords = true.

(** The state of a loop, read as closed groups and a buffer: every closed
    group has enough words for [minWords], and the buffer is not empty
    once a word has been taken in. *)
Definition closedInv (minWords : value)
           (st : list jsstring * jsstring) (ws : list jsstring) : Prop :=
  exists gs bw,
    st = (map unwords gs, unwords bw)
    /\ Forall (fullGroup minWords) gs
    /\ allWords bw /\ (ws <> [] -> bw <> [])
    /\ concat gs ++ bw = ws.

(** A decimal numeral read back, leading zeros allowed. *)
Definition parseNat (s : jsstring) : option nat :=
  option_map Nat.of_uint
    (DecimalString.NilEmpty.uint_of_string
       (string_of_list_ascii (map ascii_of_N s))).

(** A file name that [validateZipOptions] refuses: it is given, it is not
    the empty string, and one of its code units is not a letter a to z or
    A to Z, a digit, an underscore or a hyphen. *)
Definition refusedFilename (o : option jsstring) : Prop :=
  exists f,
    o = Some f /\ f <> []
    /\ existsb (fun c => negb (ZipExporter.nameChar c)) f = true.

(** A compression level that is given and lies outside [0, 9]. *)
Definition refusedLevel (o : option Q) : Prop :=
  exists v, o = Some v /\ (v < 0 \/ 9 < v)%Q.

(** A tag as [heuristics] returns it: [#], then one or more of the letters
    a to z, the digits and the underscore. *)
Definition tagShaped (t : jsstring) : Prop :=
  exists r, t = chr "#" :: r /\ r <> [] /\ forallb tagChar r = true.

(** [normalize] without the regular expression: a carriage return, with the
    line feed after it if there is one, becomes a line feed. *)
Fixpoint unixLines (s : jsstring) : jsstring :=
  match s with
  | [] => []
  | c :: s' =>
      if (CR =? c)%N then
        LF :: match s' with
              | d :: s2 => if (LF =? d)%N then unixLines s2 else unixLines s'
              | [] => []
              end
      else c :: unixLines s'
  end.

(** No line feed is directly followed by another. *)
Fixpoint noBlankLine (s : jsstring) : bool :=
  match s with
  | c :: s' =>
      match s' with
      | d :: _ => negb ((LF =? c)%N && (LF =? d)%N)
      | [] => true
      end && noBlankLine s'
  | [] => true
  end.

(** The first code unit is a line feed. *)
Definition startsLF (s : jsstring) : bool :=
  match s with c :: _ => (LF =? c)%N | [] => false end.

(** Comparisons of code units, read as propositions for [lia]. *)
Ltac code_units :=
  unfold ci, tagChar, isTagChar, isSpace, inRange, isChr in *;
  change (chr "a") with 97%N in *; change (chr "z") with 122%N in *;
  change (chr "A") with 65%N in *; change (chr "Z") with 90%N in *;
  change (chr "0") with 48%N in *; change (chr "9") with 57%N in *;
  change (chr "_") with 95%N in *; change (chr "#") with 35%N in *;
  repeat (progress
            rewrite ?orb_true_iff, ?andb_true_iff, ?N.leb_le, ?N.eqb_eq in *);
  unfold char in *.

End Notions.
Import Notions.

(** * Properties *)

(** ** Trimming *)

Section Trim.

Lemma trimStart_all_space (s : jsstring) :
  forallb isSpace s = true -> trimStart s = [].
Proof.
  induction s as [|c s IH]; simpl; [reflexivity|].
  intros H. apply andb_true_iff in H as [Hc Hs].
  rewrite Hc. now apply IH.
Qed.

Lemma trim_all_space (s : jsstring) :
  forallb isSpace s = true -> trim s = [].
Proof.
  intros H. unfold trim, trimEnd.
  now rewrite (trimStart_all_space _ H).
Qed.

(** What [trimStart] drops is white space. *)
Lemma trimStart_split (s : jsstring) :
  exists sp, forallb isSpace sp = true /\ s = sp ++ trimStart s.
Proof.
  induction s as [|c s [sp [Hsp Heq]]]; simpl.
  - now exists [].
  - destruct (isSpace c) eqn:Hc.
    + exists (c :: sp). simpl. rewrite Hc, Hsp. split; [reflexivity|].
      now rewrite <- Heq.
    + now exists [].
Qed.

Lemma trimStart_head (s : jsstring) :
  match trimStart s with
  | c :: _ => isSpace c = false
  | [] => True
  end.
Proof.
  induction s as [|c s IH]; simpl; [exact I|].
  destruct (isSpace c) eqn:Hc; [exact IH | exact Hc].
Qed.


Lemma forallb_rev (p : char -> bool) (s : jsstring) :
  forallb p (rev s) = forallb p s.
Proof.
  induction s as [|c s IH]; simpl; [reflexivity|].
  rewrite forallb_app, IH. simpl. rewrite andb_true_r. apply andb_comm.
Qed.

Lemma trimEnd_split (s : jsstring) :
  exists sp, forallb isSpace sp = true /\ s = trimEnd s ++ sp.
Proof.
  destruct (trimStart_split (rev s)) as [sp [Hsp Heq]].
  exists (rev sp). split.
  - now rewrite forallb_rev.
  - unfold trimEnd. rewrite <- rev_app_distr, <- Heq. now rewrite rev_involutive.
Qed.

(** [trim] takes white space off both ends and nothing else. *)
Lemma trim_split (s : jsstring) :
  exists a b,
    forallb isSpace a = true /\ forallb isSpace b = true
    /\ s = a ++ trim s ++ b.
Proof.
  destruct (trimStart_split s) as [a [Ha Hs]].
  destruct (trimEnd_split (trimStart s)) as [b [Hb Ht]].
  exists a, b. repeat split; trivial.
  unfold trim. now rewrite <- Ht.
Qed.



Lemma existsb_rev (p : char -> bool) (s : jsstring) :
  existsb p (rev s) = existsb p s.
Proof.
  induction s as [|c s IH]; simpl; [reflexivity|].
  rewrite existsb_app, IH. simpl. rewrite orb_false_r. apply orb_comm.
Qed.

(** A string with a code unit that is not white space keeps one. *)
Lemma trimStart_keeps (s : jsstring) :
  existsb (fun c => negb (isSpace c)) (trimStart s)
  = existsb (fun c => negb (isSpace c)) s.
Proof.
  induction s as [|c s IH]; simpl; [reflexivity|].
  destruct (isSpace c) eqn:Hc; simpl; [exact IH|].
  now rewrite Hc.
Qed.

Lemma trim_keeps (s : jsstring) :
  existsb (fun c => negb (isSpace c)) (trim s)
  = existsb (fun c => negb (isSpace c)) s.
Proof.
  unfold trim, trimEnd.
  now rewrite existsb_rev, trimStart_keeps, existsb_rev, trimStart_keeps.
Qed.

Lemma all_space_or_not (s : jsstring) :
  forallb isSpace s = negb (existsb (fun c => negb (isSpace c)) s).
Proof.
  induction s as [|c s IH]; simpl; [reflexivity|].
  rewrite IH. now destruct (isSpace c).
Qed.

Lemma trim_nil_iff (s : jsstring) :
  trim s = [] <-> forallb isSpace s = true.
Proof.
  split; [|apply trim_all_space].
  intros H. rewrite all_space_or_not, <- trim_keeps, H. reflexivity.
Qed.

End Trim.

(** ** The matcher on the patterns of the source *)

Section Matcher.

Lemma matches_Seq (a b : regex) (st : mstate) :
  matches (Seq a b) st = flat_map (matches b) (matches a st).
Proof. reflexivity. Qed.

Lemma matches_Chr (p : char -> bool) (bef s : jsstring) cs :
  matches (Chr p) (MState bef s cs)
  = match s with
    | c :: tl => if p c then [MState (c :: bef) tl cs] else []
    | [] => []
    end.
Proof. reflexivity. Qed.

Lemma matches_Star (g : bool) (a : regex) (st : mstate) :
  matches (Star g a) st = star g (matches a) (S (length (rest st))) st.
Proof. reflexivity. Qed.

Lemma matches_Group (n : nat) (a : regex) (st : mstate) :
  matches (Group n a) st = map (set_cap n st) (matches a st).
Proof. reflexivity. Qed.

Lemma matches_Behind (p : char -> bool) (st : mstate) :
  matches (Behind p) st
  = match before st with
    | c :: _ => if p c then [st] else []
    | [] => []
    end.
Proof. reflexivity. Qed.

(** The fuel of a repetition is enough: any amount above the length of
    the input left gives the same matches. *)
Lemma star_fuel_enough (g : bool) (step : mstate -> list mstate) (n : nat) :
  forall m st,
    length (rest st) < n -> length (rest st) < m ->
    star g step n st = star g step m st.
Proof.
  induction n as [|n IH]; intros m st Hn Hm; [inversion Hn|].
  destruct m as [|m]; [inversion Hm|].
  cbn [star].
  assert (E : flat_map (star g step n)
                (filter (fun st' => length (rest st') <? length (rest st))
                   (step st))
              = flat_map (star g step m)
                  (filter (fun st' => length (rest st') <? length (rest st))
                     (step st))).
  { rewrite !flat_map_concat_map. f_equal.
    apply map_ext_in. intros st' Hin.
    apply filter_In in Hin as [_ Hlt]. apply Nat.ltb_lt in Hlt.
    apply IH; lia. }
  now rewrite E.
Qed.

Lemma star_chr (p : char -> bool) (s : jsstring) :
  forall bef cs fuel,
    length s < fuel ->
    star true (matches (Chr p)) fuel (MState bef s cs) = chr_star p bef s cs.
Proof.
  induction s as [|c s IH]; intros bef cs fuel Hf;
    (destruct fuel as [|f]; [inversion Hf|]); simpl.
  - reflexivity.
  - destruct (p c); simpl; [|reflexivity].
    assert (Hlt : (length s <? S (length s)) = true) by (apply Nat.ltb_lt; lia).
    rewrite Hlt. simpl. rewrite app_nil_r.
    rewrite IH by (simpl in Hf; lia). reflexivity.
Qed.

Lemma takeWhile_dropWhile (p : char -> bool) (s : jsstring) :
  takeWhile p s ++ dropWhile p s = s.
Proof.
  induction s as [|c s IH]; simpl; [reflexivity|].
  destruct (p c); simpl; [now rewrite IH | reflexivity].
Qed.

Lemma takeWhile_all (p : char -> bool) (s : jsstring) :
  forallb p (takeWhile p s) = true.
Proof.
  induction s as [|c s IH]; simpl; [reflexivity|].
  destruct (p c) eqn:Hc; simpl; [now rewrite Hc | reflexivity].
Qed.

Lemma dropWhile_head (p : char -> bool) (s : jsstring) :
  match dropWhile p s with c :: _ => p c = false | [] => True end.
Proof.
  induction s as [|c s IH]; simpl; [exact I|].
  destruct (p c) eqn:Hc; [exact IH | exact Hc].
Qed.


Lemma hd_error_app_some {A : Type} (l l' : list A) (x : A) :
  hd_error l = Some x -> hd_error (l ++ l') = Some x.
Proof. destruct l; simpl; [discriminate | trivial]. Qed.

(** Backtracking tries the longest run first. *)
Lemma chr_star_hd (p : char -> bool) (s : jsstring) :
  forall bef cs,
    hd_error (chr_star p bef s cs)
    = Some (MState (rev (takeWhile p s) ++ bef) (dropWhile p s) cs).
Proof.
  induction s as [|c s IH]; intros bef cs; simpl; [reflexivity|].
  destruct (p c); simpl; [|reflexivity].
  apply hd_error_app_some. rewrite IH. now rewrite <- app_assoc.
Qed.

(** A continuation that fails where the run could go on sees only the
    longest run. *)
Lemma chr_star_then (p : char -> bool) (f : mstate -> list mstate)
      (s : jsstring) :
  (forall bef c s' cs, p c = true -> f (MState bef (c :: s') cs) = []) ->
  forall bef cs,
    flat_map f (chr_star p bef s cs)
    = f (MState (rev (takeWhile p s) ++ bef) (dropWhile p s) cs).
Proof.
  intros Hf. induction s as [|c s IH]; intros bef cs; simpl.
  - now rewrite app_nil_r.
  - destruct (p c) eqn:Hc; simpl.
    + rewrite flat_map_app. simpl. rewrite (Hf _ _ _ _ Hc), !app_nil_r.
      rewrite IH. now rewrite <- app_assoc.
    + now rewrite app_nil_r.
Qed.

(** [/\s+/] at a position: the whole run of white space there. *)
Lemma match_spaces (bef s : jsstring) :
  match_here re_spaces bef s
  = match s with
    | c :: s' =>
        if isSpace c
        then Some (MState (rev (takeWhile isSpace s') ++ c :: bef)
                          (dropWhile isSpace s') [])
        else None
    | [] => None
    end.
Proof.
  unfold match_here, re_spaces, Plus.
  rewrite matches_Seq, matches_Chr.
  destruct s as [|c s']; [reflexivity|].
  destruct (isSpace c); [|reflexivity].
  cbn [flat_map]. rewrite app_nil_r, matches_Star. cbn [rest].
  rewrite star_chr by lia.
  apply chr_star_hd.
Qed.

(** [/(?<=[.!?])\s+/] at a position. *)
Lemma match_sentence_gap (bef s : jsstring) :
  match_here re_sentence_gap bef s
  = match bef with
    | q :: _ => if isPunct q then match_here re_spaces bef s else None
    | [] => None
    end.
Proof.
  unfold match_here, re_sentence_gap.
  rewrite matches_Seq, matches_Behind. cbn [before].
  destruct bef as [|q bef']; [reflexivity|].
  fold isPunct. destruct (isPunct q); [|reflexivity].
  cbn [flat_map]. now rewrite app_nil_r.
Qed.

Lemma upper_not_space (c : char) : isSpace c = true -> isUpper c = false.
Proof.
  unfold isSpace, isUpper, inRange, chr. simpl. intros H.
  apply andb_false_iff.
  destruct (N.leb_spec 65 c); [|now left].
  destruct (N.leb_spec c 90); [|now right].
  exfalso.
  repeat (apply orb_true_iff in H as [H|H]);
    repeat match goal with
      | H : (_ && _)%bool = true |- _ => apply andb_true_iff in H as [? ?]
      | H : (_ <=? _)%N = true |- _ => apply N.leb_le in H
      | H : (_ =? _)%N = true |- _ => apply N.eqb_eq in H
      end; lia.
Qed.

(** [/([.!?])\s*([A-Z])/] at a position. *)
Lemma match_sentence_start (bef s : jsstring) :
  match_here re_sentence_start bef s
  = match s with
    | c :: s' =>
        if isPunct c then
          match dropWhile isSpace s' with
          | u :: s2 =>
              if isUpper u
              then Some (MState (u :: rev (takeWhile isSpace s') ++ c :: bef)
                                s2 [(2, [u]); (1, [c])])
              else None
          | [] => None
          end
        else None
    | [] => None
    end.
Proof.
  unfold match_here, re_sentence_start.
  rewrite matches_Seq, matches_Group, matches_Chr.
  destruct s as [|c s']; [reflexivity|].
  fold isPunct. destruct (isPunct c); [|reflexivity].
  cbn [map flat_map]. rewrite app_nil_r.
  unfold set_cap at 1, consumed. cbn [before rest caps].
  replace (length (c :: s') - length s') with 1 by (cbn [length]; lia).
  cbn [firstn].
  rewrite matches_Seq, matches_Star. cbn [rest].
  rewrite star_chr by lia.
  rewrite chr_star_then.
  - rewrite matches_Group, matches_Chr.
    destruct (dropWhile isSpace s') as [|u s2]; [reflexivity|].
    fold isUpper. destruct (isUpper u); [|reflexivity].
    cbn [map hd_error]. unfold set_cap, consumed. cbn [before rest caps].
    replace (length (u :: s2) - length s2) with 1 by (cbn [length]; lia).
    reflexivity.
  - intros bef0 c0 s0 cs0 H0. rewrite matches_Group, matches_Chr.
    fold isUpper. now rewrite (upper_not_space _ H0).
Qed.

End Matcher.

(** ** Words *)

Section WordLemmas.

Lemma flush_truthy (cur : jsstring) :
  filter (fun word => 0 <? length word) [rev cur] = flush cur.
Proof.
  destruct cur as [|c cur]; [reflexivity|].
  cbn [filter flush]. rewrite length_rev. reflexivity.
Qed.

Lemma length_dropWhile (p : char -> bool) (s : jsstring) :
  length s - length (dropWhile p s) = length (takeWhile p s).
Proof.
  rewrite <- (takeWhile_dropWhile p s) at 1. rewrite length_app. lia.
Qed.

Lemma firstn_takeWhile (p : char -> bool) (s : jsstring) :
  firstn (length (takeWhile p s)) s = takeWhile p s.
Proof.
  rewrite <- (takeWhile_dropWhile p s) at 2.
  now rewrite firstn_app, Nat.sub_diag, firstn_all, firstn_O, app_nil_r.
Qed.

(** Splitting at [/\s+/] and dropping the empty pieces reads the words. *)
Lemma split_loop_spaces (s : jsstring) :
  forall bef piece fresh skip,
    forallb isSpace (firstn skip s) = true ->
    skip <= length s ->
    filter (fun word => 0 <? length word)
      (split_loop re_spaces bef s piece fresh skip)
    = match skip with
      | O => words_acc piece s
      | S _ => words_acc [] s
      end.
Proof.
  induction s as [|c s IH]; intros bef piece fresh skip Hsp Hle.
  - destruct skip; [|simpl in Hle; lia]. cbn [split_loop words_acc].
    apply flush_truthy.
  - destruct skip as [|k].
    + cbn [split_loop]. rewrite match_spaces. cbn [words_acc].
      destruct (isSpace c) eqn:Hc.
      * cbn [rest].
        replace (length (c :: s) - length (dropWhile isSpace s))
          with (S (length (takeWhile isSpace s)))
          by (rewrite <- length_dropWhile; cbn [length];
              pose proof (takeWhile_dropWhile isSpace s) as E;
              apply (f_equal (@length _)) in E; rewrite length_app in E; lia).
        change (rev piece :: ?l) with ([rev piece] ++ l).
        rewrite filter_app, flush_truthy. f_equal.
        rewrite IH.
        -- now destruct (length (takeWhile isSpace s)).
        -- rewrite firstn_takeWhile. apply takeWhile_all.
        -- rewrite <- length_dropWhile. lia.
      * now rewrite IH by (simpl; trivial; lia).
    + cbn [split_loop]. cbn [firstn forallb] in Hsp.
      apply andb_true_iff in Hsp as [Hc Hs]. cbn [length] in Hle.
      rewrite IH by (trivial; lia).
      cbn [words_acc]. rewrite Hc. now destruct k.
Qed.

Lemma split_spaces (s : jsstring) :
  filter (fun word => 0 <? length word) (split re_spaces s) = wordsOf s.
Proof.
  destruct s as [|c s]; [reflexivity|].
  unfold split, wordsOf.
  now rewrite split_loop_spaces by (simpl; trivial; lia).
Qed.

Lemma words_acc_spaces (sp : jsstring) :
  forallb isSpace sp = true ->
  forall cur s, words_acc cur (sp ++ s)
                = match sp with [] => words_acc cur s
                           | _ :: _ => flush cur ++ words_acc [] s end.
Proof.
  induction sp as [|c sp IH]; intros H cur s; [reflexivity|].
  cbn [forallb] in H. apply andb_true_iff in H as [Hc Hs].
  cbn [app words_acc]. rewrite Hc. f_equal.
  rewrite (IH Hs). now destruct sp.
Qed.

Lemma words_acc_only_spaces (sp : jsstring) :
  forallb isSpace sp = true -> forall cur, words_acc cur sp = flush cur.
Proof.
  intros H cur. rewrite <- (app_nil_r sp), (words_acc_spaces _ H).
  destruct sp; [reflexivity|]. cbn [words_acc]. now rewrite app_nil_r.
Qed.

Lemma words_acc_trailing (s sp : jsstring) :
  forallb isSpace sp = true ->
  forall cur, words_acc cur (s ++ sp) = words_acc cur s.
Proof.
  intros H. induction s as [|c s IH]; intros cur.
  - now apply words_acc_only_spaces.
  - cbn [app words_acc]. now rewrite !IH.
Qed.

Lemma wordsOf_trim (s : jsstring) : wordsOf (trim s) = wordsOf s.
Proof.
  destruct (trim_split s) as [a [b [Ha [Hb E]]]].
  unfold wordsOf. rewrite E at 2.
  rewrite (words_acc_spaces _ Ha), (words_acc_trailing _ _ Hb).
  now destruct a.
Qed.

(** [getWordCount] counts the words. *)
Lemma getWordCount_words (s : jsstring) :
  getWordCount s = len (wordsOf s).
Proof.
  unfold getWordCount. now rewrite split_spaces, wordsOf_trim.
Qed.

End WordLemmas.

(** ** Tidy strings *)

Section Tidy.

Lemma unwords_cons (w : jsstring) (l : list jsstring) :
  l <> [] -> unwords (w :: l) = w ++ str " " ++ unwords l.
Proof. destruct l; [congruence | reflexivity]. Qed.

Lemma unwords_app (l1 l2 : list jsstring) :
  l1 <> [] -> l2 <> [] ->
  unwords (l1 ++ l2) = unwords l1 ++ str " " ++ unwords l2.
Proof.
  induction l1 as [|w l1 IH]; intros H1 H2; [congruence|].
  destruct l1 as [|w' l1].
  - cbn [app]. now rewrite unwords_cons.
  - change ((w :: w' :: l1) ++ l2) with (w :: ((w' :: l1) ++ l2)).
    rewrite unwords_cons by discriminate.
    rewrite IH by (trivial; discriminate).
    rewrite (unwords_cons w (w' :: l1)) by discriminate.
    now rewrite <- !app_assoc.
Qed.

Lemma words_acc_word (w : jsstring) :
  forallb (fun c => negb (isSpace c)) w = true ->
  forall cur s, words_acc cur (w ++ s) = words_acc (rev w ++ cur) s.
Proof.
  induction w as [|c w IH]; intros H cur s; [reflexivity|].
  cbn [forallb] in H. apply andb_true_iff in H as [Hc Hw].
  apply negb_true_iff in Hc.
  cbn [app words_acc]. rewrite Hc, (IH Hw).
  cbn [rev]. now rewrite <- app_assoc.
Qed.

Lemma isWord_inv (w : jsstring) :
  isWord w = true ->
  w <> [] /\ forallb (fun c => negb (isSpace c)) w = true.
Proof.
  unfold isWord. intros H. apply andb_true_iff in H as [H1 H2].
  split; [|exact H2]. now destruct w.
Qed.

Lemma flush_rev_word (w : jsstring) : w <> [] -> flush (rev w) = [w].
Proof.
  intros H. unfold flush. destruct (rev w) as [|c r] eqn:E.
  - apply (f_equal (@rev _)) in E. rewrite rev_involutive in E. now subst.
  - now rewrite <- E, rev_involutive.
Qed.

(** Reading the words of joined words gives them back. *)
Lemma wordsOf_unwords (l : list jsstring) :
  Forall (fun w => isWord w = true) l -> wordsOf (unwords l) = l.
Proof.
  unfold wordsOf. induction l as [|w l IH]; intros H; [reflexivity|].
  inversion H as [|? ? Hw Hl]; subst.
  destruct (isWord_inv _ Hw) as [Hne Hns].
  destruct l as [|w' l].
  - cbn [unwords].
    pose proof (words_acc_word w Hns [] []) as E.
    rewrite app_nil_r in E.
    rewrite app_nil_r in E. rewrite E.
    cbn [words_acc]. now apply flush_rev_word.
  - rewrite unwords_cons by discriminate.
    rewrite (words_acc_word _ Hns), app_nil_r.
    change (str " " ++ ?x) with (32%N :: x). cbn [words_acc].
    change (isSpace 32%N) with true. cbn iota.
    rewrite (flush_rev_word w Hne), (IH Hl). reflexivity.
Qed.

Lemma tidy_from_word (w : jsstring) :
  isWord w = true ->
  forall b s, tidy_from b (w ++ s) = tidy_from true s.
Proof.
  intros H. destruct (isWord_inv _ H) as [Hne Hns]. clear H.
  induction w as [|c w IH]; [congruence|]. intros b s.
  cbn [forallb] in Hns. apply andb_true_iff in Hns as [Hc Hw].
  apply negb_true_iff in Hc. cbn [app tidy_from]. rewrite Hc.
  destruct w as [|d w]; [reflexivity|].
  apply IH; [discriminate | exact Hw].
Qed.

Lemma tidy_unwords (l : list jsstring) :
  Forall (fun w => isWord w = true) l -> l <> [] -> tidy (unwords l) = true.
Proof.
  unfold tidy. induction l as [|w l IH]; intros H Hne; [congruence|].
  inversion H as [|? ? Hw Hl]; subst.
  destruct l as [|w' l].
  - cbn [unwords]. rewrite <- (app_nil_r w), (tidy_from_word w Hw). reflexivity.
  - rewrite unwords_cons by discriminate.
    rewrite (tidy_from_word w Hw).
    change (str " " ++ ?x) with (32%N :: x). cbn [tidy_from].
    change (isSpace 32%N) with true. cbn iota.
    change (32 =? 32)%N with true. cbn [andb].
    apply IH; [exact Hl | discriminate].
Qed.

Lemma words_acc_isWord (s : jsstring) :
  forall cur,
    forallb (fun c => negb (isSpace c)) cur = true ->
    Forall (fun w => isWord w = true) (words_acc cur s).
Proof.
  assert (Hflush : forall cur,
             forallb (fun c => negb (isSpace c)) cur = true ->
             Forall (fun w => isWord w = true) (flush cur)).
  { intros [|c cur] H; [constructor|]. constructor; [|constructor].
    unfold isWord. rewrite forallb_rev, H.
    cbn [rev]. now destruct (rev cur). }
  induction s as [|c s IH]; intros cur H; cbn [words_acc].
  - now apply Hflush.
  - destruct (isSpace c) eqn:Hc.
    + apply Forall_app. split; [now apply Hflush | now apply IH].
    + apply IH. cbn [forallb]. now rewrite Hc, H.
Qed.

Lemma wordsOf_isWord (s : jsstring) :
  Forall (fun w => isWord w = true) (wordsOf s).
Proof. now apply words_acc_isWord. Qed.

(** A tidy string is its words joined by single spaces. *)
Lemma tidy_from_unwords (s : jsstring) :
  forall b cur,
    tidy_from b s = true ->
    (b = true <-> cur <> []) ->
    rev cur ++ s = unwords (words_acc cur s) /\ words_acc cur s <> [].
Proof.
  induction s as [|c s IH]; intros b cur Ht Hb; cbn [tidy_from] in Ht.
  - subst b. assert (Hne : cur <> []) by now apply Hb.
    cbn [words_acc]. destruct cur as [|d cur]; [congruence|].
    cbn [flush unwords]. rewrite app_nil_r. split; [reflexivity|discriminate].
  - cbn [words_acc]. destruct (isSpace c) eqn:Hc.
    + apply andb_true_iff in Ht as [Ht Hs].
      apply andb_true_iff in Ht as [Hc32 Hbt].
      apply N.eqb_eq in Hc32. subst c b.
      assert (Hne : cur <> []) by now apply Hb.
      destruct (IH false [] Hs) as [E NE]; [split; congruence|].
      destruct cur as [|d cur]; [congruence|].
      cbn [flush app]. split; [|discriminate].
      rewrite unwords_cons by exact NE.
      cbn [rev app] in E. now rewrite <- E.
    + destruct (IH true (c :: cur) Ht) as [E NE];
        [split; [discriminate | reflexivity]|].
      split; [|exact NE].
      rewrite <- E. cbn [rev]. now rewrite <- app_assoc.
Qed.

Lemma tidy_unwords_words (s : jsstring) :
  tidy s = true -> s = unwords (wordsOf s) /\ wordsOf s <> [].
Proof.
  intros H.
  destruct (tidy_from_unwords s false [] H) as [E NE];
    [split; congruence|].
  now split.
Qed.

Lemma tidy_from_last (s : jsstring) :
  forall b t,
    tidy_from b s = true -> s <> [] ->
    trimStart (rev s ++ t) = rev s ++ t.
Proof.
  induction s as [|c s IH]; intros b t Ht Hne; [congruence|].
  cbn [tidy_from] in Ht. cbn [rev]. rewrite <- app_assoc. cbn [app].
  destruct s as [|d s].
  - cbn [rev app tidy_from] in *.
    destruct (isSpace c) eqn:Hc; cbn [trimStart]; rewrite Hc; [|reflexivity].
    rewrite andb_false_r in Ht. discriminate.
  - destruct (isSpace c).
    + apply andb_true_iff in Ht as [_ Hs].
      now apply (IH false).
    + now apply (IH true).
Qed.

Lemma tidy_trim (s : jsstring) : tidy s = true -> trim s = s.
Proof.
  intros H. unfold trim.
  assert (Hs : trimStart s = s).
  { destruct s as [|c s]; [reflexivity|].
    unfold tidy in H. cbn [tidy_from trimStart] in *.
    destruct (isSpace c); [|reflexivity].
    rewrite andb_false_r in H. discriminate. }
  rewrite Hs. unfold trimEnd.
  destruct s as [|c s]; [reflexivity|].
  pose proof (tidy_from_last (c :: s) false [] H) as E.
  rewrite !app_nil_r in E. rewrite E by discriminate.
  apply rev_involutive.
Qed.

Lemma tidy_truthy (s : jsstring) : tidy s = true -> truthy s = true.
Proof. destruct s; [discriminate | reflexivity]. Qed.

Lemma isWord_no_sep (w : jsstring) :
  isWord w = true -> forallb (fun c => negb (c =? chr " ")%N) w = true.
Proof.
  intros H. destruct (isWord_inv _ H) as [_ Hns].
  rewrite forallb_forall in *. intros c Hc. specialize (Hns c Hc).
  destruct (N.eqb_spec c (chr " ")) as [->|]; [discriminate Hns | reflexivity].
Qed.

Lemma split_chr_nonempty (sep : char) (s : jsstring) : split_chr sep s <> [].
Proof.
  destruct s as [|c s]; cbn [split_chr]; [discriminate|].
  destruct (c =? sep)%N; [discriminate|].
  destruct (split_chr sep s); discriminate.
Qed.

Lemma split_chr_word (sep : char) (w : jsstring) :
  forallb (fun c => negb (c =? sep)%N) w = true ->
  forall s,
    split_chr sep (w ++ s)
    = match split_chr sep s with
      | p :: ps => (w ++ p) :: ps
      | [] => [w]
      end.
Proof.
  induction w as [|c w IH]; intros H s.
  - cbn [app]. pose proof (split_chr_nonempty sep s).
    now destruct (split_chr sep s).
  - cbn [forallb] in H. apply andb_true_iff in H as [Hc Hw].
    apply negb_true_iff in Hc. cbn [app split_chr]. rewrite Hc, (IH Hw).
    pose proof (split_chr_nonempty sep s).
    now destruct (split_chr sep s).
Qed.

(** [split(' ')] gives the words of a tidy string. *)
Lemma split_chr_unwords (l : list jsstring) :
  Forall (fun w => isWord w = true) l -> l <> [] ->
  split_chr (chr " ") (unwords l) = l.
Proof.
  induction l as [|w l IH]; intros H Hne; [congruence|].
  inversion H as [|? ? Hw Hl]; subst.
  destruct l as [|w' l].
  - cbn [unwords]. rewrite <- (app_nil_r w).
    rewrite (split_chr_word _ _ (isWord_no_sep _ Hw)). cbn [split_chr].
    now rewrite app_nil_r.
  - rewrite unwords_cons by discriminate.
    rewrite (split_chr_word _ _ (isWord_no_sep _ Hw)).
    change (str " " ++ ?x) with (chr " " :: x). cbn [split_chr].
    rewrite N.eqb_refl, app_nil_r.
    rewrite IH; [reflexivity | exact Hl | discriminate].
Qed.

Lemma getWordCount_unwords (l : list jsstring) :
  Forall (fun w => isWord w = true) l -> getWordCount (unwords l) = len l.
Proof.
  intros H. now rewrite getWordCount_words, wordsOf_unwords.
Qed.

Lemma unwords_truthy (l : list jsstring) :
  Forall (fun w => isWord w = true) l ->
  truthy (unwords l) = match l with [] => false | _ :: _ => true end.
Proof.
  intros H. destruct l as [|w l]; [reflexivity|].
  rewrite (tidy_truthy (unwords (w :: l))); [reflexivity|].
  apply tidy_unwords; [exact H | discriminate].
Qed.

Lemma unwords_trim (l : list jsstring) :
  Forall (fun w => isWord w = true) l -> trim (unwords l) = unwords l.
Proof.
  intros H. destruct l as [|w l]; [reflexivity|].
  apply tidy_trim, tidy_unwords; [exact H | discriminate].
Qed.

End Tidy.

(** ** Normalizing the text: [cleanText] and the sentences *)

Section Normalize.

Lemma length_cons_dropWhile (p : char -> bool) (c : char) (s : jsstring) :
  length (c :: s) - length (dropWhile p s) = S (length (takeWhile p s)).
Proof.
  pose proof (takeWhile_dropWhile p s) as E.
  apply (f_equal (@length _)) in E. rewrite length_app in E.
  cbn [length]. lia.
Qed.

Lemma skipn_takeWhile (p : char -> bool) (s : jsstring) :
  skipn (length (takeWhile p s)) s = dropWhile p s.
Proof.
  rewrite <- (takeWhile_dropWhile p s) at 2.
  now rewrite skipn_app, Nat.sub_diag, skipn_all, skipn_O.
Qed.

Lemma noTrailingSpace_tail (c d : char) (s : jsstring) :
  noTrailingSpace (c :: d :: s) = noTrailingSpace (d :: s).
Proof. reflexivity. Qed.

Lemma noTrailingSpace_all_space (s : jsstring) :
  noTrailingSpace s = true -> forallb isSpace s = true -> s = [].
Proof.
  induction s as [|c s IH]; intros Hn Ha; [reflexivity|].
  cbn [forallb] in Ha. apply andb_true_iff in Ha as [Hc Hs].
  destruct s as [|d s].
  - cbn [noTrailingSpace] in Hn. rewrite Hc in Hn. discriminate.
  - rewrite noTrailingSpace_tail in Hn. specialize (IH Hn Hs). discriminate.
Qed.

Lemma noTrailingSpace_snoc (s : jsstring) (d : char) :
  noTrailingSpace (s ++ [d]) = negb (isSpace d).
Proof.
  induction s as [|c s IH]; [reflexivity|].
  cbn [app]. destruct (s ++ [d]) as [|e r] eqn:E.
  - destruct s; discriminate.
  - rewrite noTrailingSpace_tail. exact IH.
Qed.

Lemma trim_noTrailingSpace (s : jsstring) : noTrailingSpace (trim s) = true.
Proof.
  unfold trim, trimEnd.
  pose proof (trimStart_head (rev (trimStart s))) as H.
  destruct (trimStart (rev (trimStart s))) as [|d r]; [reflexivity|].
  cbn [rev]. rewrite noTrailingSpace_snoc, H. reflexivity.
Qed.

Lemma trim_head (s : jsstring) :
  match trim s with c :: _ => isSpace c = false | [] => True end.
Proof.
  unfold trim.
  destruct (trimEnd_split (trimStart s)) as [sp [_ E]].
  pose proof (trimStart_head s) as H.
  destruct (trimEnd (trimStart s)) as [|c t]; [exact I|].
  rewrite E in H. exact H.
Qed.

Lemma expand_space (cs : list (nat * jsstring)) :
  expand [TLit (str " ")] cs = [32%N].
Proof. reflexivity. Qed.

(** Replacing [/\s+/g] by a space keeps the words. *)
Lemma collapse_words (s : jsstring) :
  forall bef skip cur,
    forallb isSpace (firstn skip s) = true ->
    skip <= length s ->
    words_acc (match skip with O => cur | S _ => [] end)
      (replace_loop re_spaces [TLit (str " ")] bef s skip)
    = words_acc (match skip with O => cur | S _ => [] end) s.
Proof.
  induction s as [|c s IH]; intros bef skip cur Hsp Hle.
  - destruct skip; [|simpl in Hle; lia].
    cbn [replace_loop]. now rewrite match_spaces.
  - destruct skip as [|k].
    + cbn [replace_loop]. rewrite match_spaces.
      destruct (isSpace c) eqn:Hc.
      * cbn [rest caps]. rewrite expand_space, length_cons_dropWhile.
        cbn [app words_acc]. change (isSpace 32%N) with true. rewrite Hc.
        cbn iota. f_equal.
        specialize (IH (c :: bef) (length (takeWhile isSpace s)) []).
        destruct (length (takeWhile isSpace s)) eqn:El.
        -- apply IH; [reflexivity | lia].
        -- apply IH.
           ++ rewrite <- El, firstn_takeWhile. apply takeWhile_all.
           ++ rewrite <- El, <- length_dropWhile. lia.
      * cbn [words_acc]. rewrite Hc.
        apply (IH (c :: bef) 0 (c :: cur)); [reflexivity | lia].
    + cbn [firstn forallb] in Hsp.
      apply andb_true_iff in Hsp as [Hc Hs]. cbn [length] in Hle.
      cbn [replace_loop words_acc]. rewrite Hc. cbn [flush app].
      specialize (IH (c :: bef) k [] Hs).
      destruct k; apply IH; lia.
Qed.

(** Replacing [/\s+/g] by a space in a trimmed text gives a tidy string. *)
Lemma collapse_tidy (s : jsstring) :
  forall bef skip b,
    noTrailingSpace s = true ->
    forallb isSpace (firstn skip s) = true ->
    match skip, b with
    | O, true => True
    | _, _ =>
        match skipn skip s with
        | d :: _ => isSpace d = false
        | [] => False
        end
    end ->
    tidy_from (match skip with O => b | S _ => false end)
      (replace_loop re_spaces [TLit (str " ")] bef s skip) = true.
Proof.
  induction s as [|c s IH]; intros bef skip b Hn Hsp Hnext.
  - destruct skip, b; try contradiction.
    cbn [replace_loop]. now rewrite match_spaces.
  - assert (Hn' : noTrailingSpace s = true).
    { destruct s; [reflexivity | exact Hn]. }
    destruct skip as [|k].
    + cbn [replace_loop]. rewrite match_spaces.
      destruct (isSpace c) eqn:Hc.
      * destruct b; [|cbn [skipn] in Hnext; congruence].
        cbn [rest caps]. rewrite expand_space, length_cons_dropWhile.
        cbn [app tidy_from]. change (isSpace 32%N) with true. cbn iota.
        change (32 =? 32)%N with true. cbn [andb].
        assert (Hd : match dropWhile isSpace s with
                     | d :: _ => isSpace d = false
                     | [] => False
                     end).
        { pose proof (dropWhile_head isSpace s) as Hh.
          destruct (dropWhile isSpace s) as [|d r] eqn:Ed; [|exact Hh].
          pose proof (takeWhile_dropWhile isSpace s) as E.
          rewrite Ed, app_nil_r in E.
          pose proof (takeWhile_all isSpace s) as Ha. rewrite E in Ha.
          assert (Hall : forallb isSpace (c :: s) = true)
            by (cbn [forallb]; now rewrite Hc, Ha).
          discriminate (noTrailingSpace_all_space _ Hn Hall). }
        specialize (IH (c :: bef) (length (takeWhile isSpace s)) false Hn').
        rewrite firstn_takeWhile, skipn_takeWhile in IH.
        specialize (IH (takeWhile_all isSpace s)).
        destruct (length (takeWhile isSpace s)); apply IH; exact Hd.
      * cbn [tidy_from]. rewrite Hc.
        apply (IH (c :: bef) 0 true Hn'); [reflexivity | exact I].
    + cbn [firstn forallb] in Hsp.
      apply andb_true_iff in Hsp as [Hc Hs].
      cbn [replace_loop]. cbn [skipn] in Hnext.
      specialize (IH (c :: bef) k false Hn' Hs).
      destruct k; apply IH; exact Hnext.
Qed.

Lemma collapsed_words (text : jsstring) :
  wordsOf (collapsed text) = wordsOf text.
Proof.
  unfold collapsed, replace_all, wordsOf.
  rewrite (collapse_words (trim text) [] 0 []) by (simpl; trivial; lia).
  apply wordsOf_trim.
Qed.

Lemma collapsed_tidy (text : jsstring) :
  trim text <> [] -> tidy (collapsed text) = true.
Proof.
  intros Hne. unfold collapsed, replace_all, tidy.
  apply (collapse_tidy (trim text) [] 0 false).
  - apply trim_noTrailingSpace.
  - reflexivity.
  - pose proof (trim_head text) as H. cbn [skipn].
    destruct (trim text); [congruence | exact H].
Qed.

End Normalize.

Section Sentences.

Lemma punct_not_space (c : char) : isPunct c = true -> isSpace c = false.
Proof.
  unfold isPunct, oneOf. cbn [str existsb map list_ascii_of_string].
  intros H.
  repeat (apply orb_true_iff in H as [H|H]);
    try discriminate; apply N.eqb_eq in H; subst c; reflexivity.
Qed.

Lemma upper_not_space' (c : char) : isUpper c = true -> isSpace c = false.
Proof.
  intros H. destruct (isSpace c) eqn:Hc; [|reflexivity].
  rewrite (upper_not_space c Hc) in H. discriminate.
Qed.

Lemma expand_break (c u : char) :
  expand break_template [(2, [u]); (1, [c])] = [c; LF; u].
Proof. reflexivity. Qed.

Lemma tidy_from_gap (tw : jsstring) (u : char) (s2 : jsstring) (b : bool) :
  forallb isSpace tw = true -> isSpace u = false ->
  tidy_from b (tw ++ u :: s2) = true -> tidy_from true s2 = true.
Proof.
  intros Htw Hu H.
  destruct tw as [|a tw].
  - cbn [app tidy_from] in H. now rewrite Hu in H.
  - cbn [forallb] in Htw. apply andb_true_iff in Htw as [Ha Htw].
    cbn [app tidy_from] in H. rewrite Ha in H.
    apply andb_true_iff in H as [_ H].
    destruct tw as [|a' tw].
    + cbn [app tidy_from] in H. now rewrite Hu in H.
    + cbn [forallb] in Htw. apply andb_true_iff in Htw as [Ha' _].
      cbn [app tidy_from] in H. rewrite Ha' in H.
      rewrite andb_false_r in H. discriminate.
Qed.

(** Inserting the line breaks in a tidy string gives a marked one. *)
Lemma mark_marked (s : jsstring) :
  forall bef skip prev,
    match skip with
    | O =>
        tidy_from (match prev with Some _ => true | None => false end) s
        = true
    | S k =>
        k < length s /\ tidy_from true (skipn (S k) s) = true
        /\ prev <> None
    end ->
    marked_from prev (replace_loop re_sentence_start break_template bef s skip)
    = true.
Proof.
  induction s as [|c s IH]; intros bef skip prev H.
  - destruct skip as [|k]; [|simpl in H; lia].
    cbn [replace_loop]. rewrite match_sentence_start.
    cbn [tidy_from] in H. cbn [marked_from]. now destruct prev.
  - destruct skip as [|k].
    + cbn [replace_loop]. rewrite match_sentence_start.
      cbn [tidy_from] in H.
      destruct (isPunct c) eqn:Hp;
        [destruct (dropWhile isSpace s) as [|u s2] eqn:Ed;
         [|destruct (isUpper u) eqn:Hu]|].
      4: {
        cbn [marked_from]. destruct (isSpace c) eqn:Hc.
        - apply andb_true_iff in H as [H Hs].
          apply andb_true_iff in H as [Hc32 Hb].
          destruct prev as [q|]; [|discriminate].
          rewrite Hc32. cbn [orb andb].
          now apply (IH (c :: bef) 0 None).
        - now apply (IH (c :: bef) 0 (Some c)). }
      3: {
        rewrite (punct_not_space c Hp) in H.
        cbn [marked_from]. rewrite (punct_not_space c Hp).
        now apply (IH (c :: bef) 0 (Some c)). }
      2: {
        rewrite (punct_not_space c Hp) in H.
        cbn [rest caps]. fold break_template. rewrite expand_break.
        replace (length (c :: s) - length s2)
          with (S (S (length (takeWhile isSpace s))))
          by (pose proof (takeWhile_dropWhile isSpace s) as E;
              rewrite Ed in E; apply (f_equal (@length _)) in E;
              rewrite length_app in E; cbn [length] in *; lia).
        cbn [app marked_from].
        rewrite (punct_not_space c Hp), (upper_not_space' u Hu).
        change (isSpace LF) with true. cbn iota.
        rewrite Hp, N.eqb_refl, orb_true_r. cbn [andb].
        apply (IH (c :: bef) (S (length (takeWhile isSpace s))) (Some u)).
        pose proof (takeWhile_dropWhile isSpace s) as E. rewrite Ed in E.
        split; [|split; [|discriminate]].
        - rewrite <- E at 2. rewrite length_app. cbn [length]. lia.
        - rewrite <- E at 2. rewrite skipn_app.
          rewrite skipn_all2 by lia.
          replace (S (length (takeWhile isSpace s))
                   - length (takeWhile isSpace s)) with 1 by lia.
          cbn [app skipn].
          apply (tidy_from_gap (takeWhile isSpace s) u s2 true).
          + apply takeWhile_all.
          + now apply upper_not_space'.
          + now rewrite E. }
      rewrite (punct_not_space c Hp) in H.
      cbn [marked_from]. rewrite (punct_not_space c Hp).
      now apply (IH (c :: bef) 0 (Some c)).
    + destruct H as [Hk [Ht Hprev]]. cbn [length] in Hk.
      cbn [replace_loop]. destruct k as [|k'].
      * apply (IH (c :: bef) 0 prev). cbn [skipn] in Ht.
        destruct prev; [exact Ht | congruence].
      * apply (IH (c :: bef) (S k') prev).
        split; [lia | split; [exact Ht | exact Hprev]].
Qed.

Lemma cleanText_marked (text : jsstring) :
  trim text <> [] -> marked (cleanText text) = true.
Proof.
  intros H. unfold marked, cleanText, replace_all.
  apply (mark_marked _ [] 0 None). now apply collapsed_tidy.
Qed.

Lemma words_acc_space_mid (a : jsstring) (c : char) (b : jsstring) :
  isSpace c = true ->
  forall cur,
    words_acc cur (a ++ c :: b) = words_acc cur a ++ words_acc [] b.
Proof.
  intros Hc. induction a as [|d a IH]; intros cur; cbn [app words_acc].
  - rewrite Hc. reflexivity.
  - destruct (isSpace d); [|apply IH].
    now rewrite IH, app_assoc.
Qed.

(** Splitting at [/(?<=[.!?])\s+/] loses no word. *)
Lemma split_gap_words (s : jsstring) :
  forall bef piece fresh skip,
    forallb isSpace (firstn skip s) = true ->
    skip <= length s ->
    flat_map wordsOf (split_loop re_sentence_gap bef s piece fresh skip)
    = match skip with
      | O => wordsOf (rev piece ++ s)
      | S _ => wordsOf s
      end.
Proof.
  induction s as [|c s IH]; intros bef piece fresh skip Hsp Hle.
  - destruct skip; [|simpl in Hle; lia].
    cbn [split_loop flat_map]. now rewrite !app_nil_r.
  - destruct skip as [|k].
    + cbn [split_loop].
      assert (Hnone :
               flat_map wordsOf
                 (split_loop re_sentence_gap (c :: bef) s (c :: piece) false 0)
               = wordsOf (rev piece ++ c :: s)).
      { rewrite (IH (c :: bef) (c :: piece) false 0) by (simpl; trivial; lia).
        cbn [rev]. now rewrite <- app_assoc. }
      rewrite match_sentence_gap.
      destruct bef as [|q bef']; [exact Hnone|].
      destruct (isPunct q); [|exact Hnone].
      rewrite match_spaces.
      destruct (isSpace c) eqn:Hc; [|exact Hnone].
      cbn [rest]. rewrite length_cons_dropWhile.
      cbn [flat_map].
      rewrite (IH (c :: q :: bef') [] true (length (takeWhile isSpace s))).
      * unfold wordsOf.
        rewrite (words_acc_space_mid (rev piece) c s Hc).
        now destruct (length (takeWhile isSpace s)).
      * rewrite firstn_takeWhile. apply takeWhile_all.
      * rewrite <- length_dropWhile. lia.
    + cbn [firstn forallb] in Hsp.
      apply andb_true_iff in Hsp as [Hc Hs]. cbn [length] in Hle.
      cbn [split_loop].
      rewrite (IH (c :: bef) [] true k) by (trivial; lia).
      unfold wordsOf. cbn [words_acc]. rewrite Hc.
      now destruct k.
Qed.

(** Splitting a marked string at [/(?<=[.!?])\s+/] gives tidy sentences. *)
Lemma split_gap_tidy (s : jsstring) :
  forall bef piece fresh prev b,
    marked_from prev s = true ->
    (forall x, tidy_from false (rev piece ++ x) = tidy_from b x) ->
    match prev with
    | Some q => b = true /\ exists bef', bef = q :: bef'
    | None => b = false
    end ->
    Forall (fun p => tidy p = true)
      (split_loop re_sentence_gap bef s piece fresh 0).
Proof.
  induction s as [|c s IH]; intros bef piece fresh prev b Hm Hpiece Hlink.
  - cbn [split_loop marked_from] in *.
    constructor; [|constructor].
    destruct prev as [q|]; [|discriminate].
    destruct Hlink as [-> _].
    unfold tidy. specialize (Hpiece []). now rewrite app_nil_r in Hpiece.
  - cbn [split_loop]. cbn [marked_from] in Hm.
    assert (Hword :
             isSpace c = false ->
             Forall (fun p => tidy p = true)
               (split_loop re_sentence_gap (c :: bef) s (c :: piece) false 0)).
    { intros Hc. rewrite Hc in Hm.
      apply (IH (c :: bef) (c :: piece) false (Some c) true Hm).
      - intros x. cbn [rev]. rewrite <- app_assoc. cbn [app].
        rewrite Hpiece. cbn [tidy_from]. now rewrite Hc.
      - split; [reflexivity | now exists bef]. }
    rewrite match_sentence_gap.
    destruct (isSpace c) eqn:Hc.
    + destruct prev as [q|]; [|discriminate].
      destruct Hlink as [-> [bef' ->]].
      apply andb_true_iff in Hm as [Hsep Hm].
      destruct (isPunct q) eqn:Hq.
      * rewrite match_spaces, Hc. cbn [rest].
        rewrite length_cons_dropWhile.
        assert (Htw : takeWhile isSpace s = []).
        { destruct s as [|d s']; [reflexivity|].
          cbn [marked_from] in Hm. cbn [takeWhile].
          destruct (isSpace d); [discriminate | reflexivity]. }
        rewrite Htw. cbn [length].
        constructor.
        -- unfold tidy. specialize (Hpiece []).
           now rewrite app_nil_r in Hpiece.
        -- apply (IH (c :: q :: bef') [] true None false Hm);
             [reflexivity | reflexivity].
      * rewrite andb_false_r, orb_false_r in Hsep.
        apply (IH (c :: q :: bef') (c :: piece) false None false Hm);
          [|reflexivity].
        intros x. cbn [rev]. rewrite <- app_assoc. cbn [app].
        rewrite Hpiece. cbn [tidy_from]. rewrite Hc, Hsep. reflexivity.
    + destruct bef as [|q bef']; [now apply Hword|].
      destruct (isPunct q); [|now apply Hword].
      rewrite match_spaces, Hc. now apply Hword.
Qed.

Lemma filter_all {A : Type} (f : A -> bool) (l : list A) :
  Forall (fun x => f x = true) l -> filter f l = l.
Proof.
  induction 1 as [|x l Hx Hl IH]; [reflexivity|].
  cbn [filter]. now rewrite Hx, IH.
Qed.

(** The sentences the splitter works on: tidy strings that carry, in order,
    the words of [cleanText]. *)
Lemma sentencesOf_spec (text : jsstring) :
  Forall (fun p => tidy p = true) (sentencesOf text)
  /\ flat_map wordsOf (sentencesOf text) = wordsOf (cleanText text).
Proof.
  destruct (list_eq_dec N.eq_dec (trim text) []) as [Hnil|Hne].
  - assert (E : cleanText text = []).
    { unfold cleanText. rewrite Hnil. reflexivity. }
    unfold sentencesOf. rewrite E. cbn. split; [constructor | reflexivity].
  - pose proof (cleanText_marked text Hne) as Hm.
    assert (Ht : Forall (fun p => tidy p = true)
                   (split re_sentence_gap (cleanText text))).
    { unfold split. destruct (cleanText text) as [|c r] eqn:E;
        [discriminate|].
      apply (split_gap_tidy (c :: r) [] [] true None false Hm);
        [reflexivity | reflexivity]. }
    assert (Hf : sentencesOf text = split re_sentence_gap (cleanText text)).
    { unfold sentencesOf. apply filter_all.
      eapply Forall_impl; [|exact Ht].
      intros p Hp. cbv beta in *. rewrite (tidy_trim p Hp).
      apply tidy_truthy in Hp. now destruct p. }
    rewrite Hf. split; [exact Ht|].
    unfold split. destruct (cleanText text) as [|c r] eqn:E; [discriminate|].
    now rewrite (split_gap_words (c :: r) [] [] true 0)
      by (simpl; trivial; lia).
Qed.

End Sentences.

(** ** Comparisons with a numeric option *)

Section Numbers.

Lemma num_gt_int (n z : Z) : num_gt n (int z) = (n >? z)%Z.
Proof.
  unfold num_gt, int, ToNumber, Qle_bool. cbn [Qnum Qden inject_Z].
  rewrite !Z.mul_1_r, Z.gtb_ltb. symmetry. apply Z.ltb_antisym.
Qed.

Lemma num_ge_int (n z : Z) : num_ge n (int z) = (n >=? z)%Z.
Proof.
  unfold num_ge, int, ToNumber, Qle_bool. cbn [Qnum Qden inject_Z].
  now rewrite !Z.mul_1_r, Z.geb_leb.
Qed.

(** A shorter string does not exceed a budget that a longer one keeps. *)
Lemma num_gt_mono (n m : Z) (v : value) :
  (m <= n)%Z -> num_gt n v = false -> num_gt m v = false.
Proof.
  unfold num_gt. intros Hle. destruct (ToNumber v) as [q| | |]; trivial.
  rewrite !negb_false_iff, !Qle_bool_iff. intros H.
  apply Qle_trans with (inject_Z n); [|exact H].
  now rewrite <- Zle_Qle.
Qed.

Lemma num_ge_mono (n m : Z) (v : value) :
  (n <= m)%Z -> num_ge n v = true -> num_ge m v = true.
Proof.
  unfold num_ge. intros Hle. destruct (ToNumber v) as [q| | |]; trivial.
  rewrite !Qle_bool_iff. intros H.
  apply Qle_trans with (inject_Z n); [exact H|].
  now rewrite <- Zle_Qle.
Qed.

(** The filter of [postProcessSlides]: its threshold is at most 1 when
    [minWordsPerSlide] is a number, and is NaN, which nothing reaches, when
    it is NaN or [undefined]. *)
Lemma num_ge_min_number (v : value) (n : Z) :
  isNaN (ToNumber v) = false -> (1 <= n)%Z ->
  num_ge n (Math_min v 1) = true.
Proof.
  unfold num_ge, Math_min. cbn [ToNumber].
  destruct (ToNumber v) as [q| | |]; intros Hn Hle;
    try reflexivity; try discriminate.
  - destruct (Qle_bool q (inject_Z 1)) eqn:E; apply Qle_bool_iff.
    + apply Qle_bool_iff in E. apply Qle_trans with (inject_Z 1); [exact E|].
      now rewrite <- Zle_Qle.
    + now rewrite <- Zle_Qle.
  - apply Qle_bool_iff. now rewrite <- Zle_Qle.
Qed.

Lemma num_ge_min_NaN (v : value) (n : Z) :
  isNaN (ToNumber v) = true -> num_ge n (Math_min v 1) = false.
Proof.
  unfold num_ge, Math_min. cbn [ToNumber].
  now destruct (ToNumber v).
Qed.

End Numbers.

(** ** The loops of the splitter, on groups of words *)

Section Loops.

Variables maxC minW : value.

Lemma unwords_snoc (bw : list jsstring) (w : jsstring) :
  bw <> [] -> unwords (bw ++ [w]) = unwords bw ++ str " " ++ w.
Proof. intros H. now rewrite unwords_app by (trivial; discriminate). Qed.

Lemma allWords_app (a b : list jsstring) :
  allWords a -> allWords b -> allWords (a ++ b).
Proof. intros Ha Hb. apply Forall_app. now split. Qed.

Lemma len_snoc {A : Type} (l : list A) (x : A) :
  len (l ++ [x]) = (len l + 1)%Z.
Proof. unfold len. rewrite length_app. cbn [length]. lia. Qed.

Lemma wordStep_inv (st : list jsstring * jsstring) (ws : list jsstring)
      (w : jsstring) :
  loopInv maxC minW st ws -> isWord w = true ->
  loopInv maxC minW (wordStep maxC minW st w) (ws ++ [w]).
Proof.
  intros (gs & bw & -> & Hgs & Hbw & Hfit & <-) Hw.
  assert (Hw1 : allWords [w]) by (constructor; [exact Hw | constructor]).
  unfold wordStep. rewrite (unwords_truthy bw Hbw).
  destruct bw as [|b bw'].
  - cbn [andb]. exists gs, [w]. cbn [unwords app].
    split; [reflexivity|]. split; [exact Hgs|]. split; [exact Hw1|].
    split; [right; left; cbn [length]; lia|].
    now rewrite app_nil_r.
  - set (bw := b :: bw') in *.
    assert (Hne : bw <> []) by discriminate.
    rewrite <- (unwords_snoc bw w Hne). cbn [andb].
    destruct (num_gt (len (unwords (bw ++ [w]))) maxC) eqn:Hlen.
    + rewrite (getWordCount_unwords bw Hbw).
      destruct (num_ge (len bw) minW) eqn:Hwc.
      * exists (gs ++ [bw]), [w].
        rewrite (unwords_trim bw Hbw), map_app. cbn [map unwords].
        split; [reflexivity|]. split; [|split; [exact Hw1|split]].
        -- apply Forall_app. split; [exact Hgs|].
           constructor; [|constructor]. now repeat split.
        -- right. left. cbn [length]. lia.
        -- rewrite concat_app. cbn [concat]. now rewrite app_nil_r.
      * exists gs, (bw ++ [w]).
        rewrite (unwords_trim (bw ++ [w])) by now apply allWords_app.
        split; [reflexivity|]. split; [exact Hgs|].
        split; [now apply allWords_app|]. split.
        -- right. right. rewrite len_snoc.
           now replace (len bw + 1 - 1)%Z with (len bw) by lia.
        -- now rewrite app_assoc.
    + exists gs, (bw ++ [w]).
      split; [reflexivity|]. split; [exact Hgs|].
      split; [now apply allWords_app|]. split.
      * now left.
      * now rewrite app_assoc.
Qed.

Lemma wordStep_fold (l : list jsstring) :
  allWords l ->
  forall st ws,
    loopInv maxC minW st ws ->
    loopInv maxC minW (fold_left (wordStep maxC minW) l st) (ws ++ l).
Proof.
  induction 1 as [|w l Hw Hl IH]; intros st ws Hinv; cbn [fold_left].
  - now rewrite app_nil_r.
  - replace (ws ++ w :: l) with ((ws ++ [w]) ++ l)
      by now rewrite <- app_assoc.
    apply IH. now apply wordStep_inv.
Qed.

Lemma loopInv_init : loopInv maxC minW ([], []) [].
Proof.
  exists [], [].
  split; [reflexivity|]. split; [constructor|]. split; [constructor|].
  split; [|reflexivity].
  right. left. cbn [length]. lia.
Qed.

(** [splitLongSentence] on a tidy buffer. *)
Lemma splitLongSentence_inv (l : list jsstring) :
  allWords l -> l <> [] ->
  loopInv maxC minW (splitLongSentence (unwords l) maxC minW) l.
Proof.
  intros Hl Hne. unfold splitLongSentence.
  rewrite (split_chr_unwords l Hl Hne).
  apply (wordStep_fold l Hl ([], []) []), loopInv_init.
Qed.

End Loops.

Section SentenceLoop.

Variable opts : TextSplitterOptions.


Lemma sentenceStep_inv (st : list jsstring * jsstring) (ws : list jsstring)
      (sentence : jsstring) :
  loopInv (maxCharacters opts) (minWordsPerSlide opts) st ws -> tidy sentence = true ->
  loopInv (maxCharacters opts) (minWordsPerSlide opts) (sentenceStep opts st sentence) (ws ++ wordsOf sentence).
Proof.
  intros (gs & bw & -> & Hgs & Hbw & Hfit & <-) Hs.
  destruct (tidy_unwords_words sentence Hs) as [Esent Hlne].
  pose proof (wordsOf_isWord sentence) as Hl.
  set (l := wordsOf sentence) in *. fold (allWords l) in Hl.
  unfold sentenceStep. rewrite (tidy_trim sentence Hs).
  match goal with
  | |- loopInv _ _ (let '(a, b) := ?X in _) _ => remember X as ph eqn:Eph
  end.
  assert (Hph : exists gs1 bw1,
             ph = (map unwords gs1, unwords bw1)
             /\ Forall (goodGroup (maxCharacters opts) (minWordsPerSlide opts)) gs1
             /\ allWords bw1 /\ bw1 <> []
             /\ concat gs1 ++ bw1 = (concat gs ++ bw) ++ l).
  { subst ph. rewrite (unwords_truthy bw Hbw).
    destruct bw as [|b bw'].
    - cbn [andb]. exists gs, l. rewrite <- Esent.
      split; [reflexivity|]. split; [exact Hgs|]. split; [exact Hl|].
      split; [exact Hlne|]. now rewrite app_nil_r.
    - set (bw := b :: bw') in *.
      assert (Hne : bw <> []) by discriminate.
      assert (Ejoin : unwords bw ++ str " " ++ sentence = unwords (bw ++ l)).
      { rewrite Esent at 1. symmetry. now apply unwords_app. }
      rewrite Ejoin. cbn [andb].
      assert (Hmerge :
               exists gs1 bw1,
                 (map unwords gs, unwords (bw ++ l))
                 = (map unwords gs1, unwords bw1)
                 /\ Forall (goodGroup (maxCharacters opts) (minWordsPerSlide opts)) gs1
                 /\ allWords bw1 /\ bw1 <> []
                 /\ concat gs1 ++ bw1 = (concat gs ++ bw) ++ l).
      { exists gs, (bw ++ l).
        split; [reflexivity|]. split; [exact Hgs|].
        split; [now apply allWords_app|].
        split; [now destruct bw | now rewrite app_assoc]. }
      destruct (num_gt (len (unwords (bw ++ l))) (maxCharacters opts));
        [|exact Hmerge].
      rewrite (getWordCount_unwords bw Hbw).
      destruct (num_ge (len bw) (minWordsPerSlide opts)).
      + exists (gs ++ [bw]), l.
        rewrite (unwords_trim bw Hbw), map_app, <- Esent. cbn [map].
        split; [reflexivity|]. split; [|split; [exact Hl|split]].
        * apply Forall_app. split; [exact Hgs|].
          constructor; [|constructor]. now repeat split.
        * exact Hlne.
        * rewrite concat_app. cbn [concat]. now rewrite app_nil_r.
      + rewrite (unwords_trim (bw ++ l)) by now apply allWords_app.
        exact Hmerge. }
  clear Eph. destruct Hph as (gs1 & bw1 & -> & Hgs1 & Hbw1 & Hne1 & Econc).
  rewrite <- Econc.
  destruct (num_gt (len (unwords bw1)) (maxCharacters opts)) eqn:Hlen.
  - pose proof (splitLongSentence_inv (maxCharacters opts) (minWordsPerSlide opts) bw1 Hbw1 Hne1)
      as (gs2 & bw2 & E2 & Hgs2 & Hbw2 & Hfit2 & Ec2).
    rewrite E2. exists (gs1 ++ gs2), bw2.
    split; [now rewrite map_app|].
    split; [apply Forall_app; now split|].
    split; [exact Hbw2|]. split; [exact Hfit2|].
    now rewrite concat_app, <- app_assoc, Ec2.
  - exists gs1, bw1.
    split; [reflexivity|]. split; [exact Hgs1|]. split; [exact Hbw1|].
    split; [now left | reflexivity].
Qed.

Lemma sentenceStep_fold (sentences : list jsstring) :
  Forall (fun p => tidy p = true) sentences ->
  forall st ws,
    loopInv (maxCharacters opts) (minWordsPerSlide opts) st ws ->
    loopInv (maxCharacters opts) (minWordsPerSlide opts) (fold_left (sentenceStep opts) sentences st)
      (ws ++ flat_map wordsOf sentences).
Proof.
  induction 1 as [|p l Hp Hl IH]; intros st ws Hinv; cbn [fold_left flat_map].
  - now rewrite app_nil_r.
  - rewrite app_assoc. apply IH. now apply sentenceStep_inv.
Qed.

(** The slides before post-processing are groups of words that together
    are the words of [cleanText], in order. *)
Lemma rawSlides_spec (text : jsstring) :
  exists gs,
    rawSlides text opts = map unwords gs
    /\ Forall (goodGroup (maxCharacters opts) (minWordsPerSlide opts)) gs
    /\ concat gs = wordsOf (cleanText text).
Proof.
  destruct (sentencesOf_spec text) as [Htidy Hwords].
  pose proof (sentenceStep_fold (sentencesOf text) Htidy ([], []) []
                (loopInv_init (maxCharacters opts) (minWordsPerSlide opts)))
    as (gs & bw & E & Hgs & Hbw & Hfit & Ec).
  unfold rawSlides. rewrite E.
  rewrite (unwords_trim bw Hbw), (unwords_truthy bw Hbw).
  cbn [app] in Ec. rewrite Hwords in Ec.
  destruct bw as [|b bw'].
  - exists gs. rewrite app_nil_r in Ec. now repeat split.
  - exists (gs ++ [b :: bw']). rewrite map_app. cbn [map].
    split; [reflexivity|]. split.
    + apply Forall_app. split; [exact Hgs|].
      constructor; [|constructor]. repeat split; trivial. discriminate.
    + rewrite concat_app. cbn [concat]. now rewrite app_nil_r.
Qed.

Lemma goodGroup_kept (gs : list (list jsstring)) :
  isNaN (ToNumber (minWordsPerSlide opts)) = false ->
  Forall (goodGroup (maxCharacters opts) (minWordsPerSlide opts)) gs ->
  postProcessSlides (map unwords gs) opts
  = map ensureEnding (map unwords gs).
Proof.
  intros Hn Hgs. unfold postProcessSlides. f_equal.
  assert (Htrim : map trim (map unwords gs) = map unwords gs).
  { rewrite map_map. apply map_ext_Forall.
    eapply Forall_impl; [|exact Hgs].
    intros g (_ & Hg & _). now apply unwords_trim. }
  rewrite Htrim, !filter_all; [reflexivity| |].
  - apply Forall_map. eapply Forall_impl; [|exact Hgs].
    intros g (Hne & Hg & _). cbv beta.
    pose proof (unwords_truthy g Hg) as Ht.
    destruct g; [congruence|]. destruct (unwords _); [discriminate Ht|].
    reflexivity.
  - rewrite filter_all.
    + apply Forall_map. eapply Forall_impl; [|exact Hgs].
      intros g (Hne & Hg & _). cbv beta.
      rewrite (getWordCount_unwords g Hg).
      destruct g; [congruence|].
      apply num_ge_min_number; [exact Hn|].
      unfold len. cbn [length]. lia.
    + apply Forall_map. eapply Forall_impl; [|exact Hgs].
      intros g (Hne & Hg & _). cbv beta.
      pose proof (unwords_truthy g Hg) as Ht.
      destruct g; [congruence|]. destruct (unwords _); [discriminate Ht|].
      reflexivity.
Qed.

End SentenceLoop.

Lemma filter_none {A : Type} (f : A -> bool) (l : list A) :
  (forall x, f x = false) -> filter f l = [].
Proof.
  intros H. induction l as [|x l IH]; [reflexivity|].
  cbn [filter]. now rewrite H.
Qed.

(** When [minWordsPerSlide] is NaN or [undefined], no slide reaches the
    threshold of the filter of [postProcessSlides], and nothing is
    returned. *)
Lemma postProcessSlides_NaN (slides : list jsstring)
      (opts : TextSplitterOptions) :
  isNaN (ToNumber (minWordsPerSlide opts)) = true ->
  postProcessSlides slides opts = [].
Proof.
  intros Hn. unfold postProcessSlides.
  rewrite filter_none; [reflexivity|].
  intros x. now apply num_ge_min_NaN.
Qed.

Lemma splitTextIntoSlides_NaN (text : jsstring) (options : PartialOptions) :
  isNaN (ToNumber (minWordsPerSlide (spread DEFAULT_OPTIONS options))) = true ->
  splitTextIntoSlides text options = [].
Proof.
  intros Hn. unfold splitTextIntoSlides.
  destruct (negb (truthy (trim text))); [reflexivity|].
  destruct (length (sentencesOf text) =? 0); [reflexivity|].
  now apply postProcessSlides_NaN.
Qed.

(** What [splitTextIntoSlides] returns, for every text and all options
    whose [minWordsPerSlide] is a number: groups of words, each joined by
    single spaces and passed through [ensureEnding]; the groups are, in
    order, the words of [cleanText]. *)
Lemma splitTextIntoSlides_spec (text : jsstring) (options : PartialOptions) :
  let opts := spread DEFAULT_OPTIONS options in
  isNaN (ToNumber (minWordsPerSlide opts)) = false ->
  exists gs,
    splitTextIntoSlides text options
    = map (fun g => ensureEnding (unwords g)) gs
    /\ Forall (goodGroup (maxCharacters opts) (minWordsPerSlide opts)) gs
    /\ concat gs = wordsOf (cleanText text).
Proof.
  intros opts Hn.
  destruct (rawSlides_spec opts text) as (gs & E & Hgs & Ec).
  exists gs. split; [|split; [exact Hgs | exact Ec]].
  assert (Hpost : postProcessSlides (rawSlides text opts) opts
                  = map (fun g => ensureEnding (unwords g)) gs).
  { rewrite E, (goodGroup_kept opts gs Hn Hgs). now rewrite map_map. }
  unfold splitTextIntoSlides. fold opts.
  destruct (truthy (trim text)) eqn:Ht; cbn [negb].
  - destruct (length (sentencesOf text) =? 0) eqn:Hs; [|exact Hpost].
    apply Nat.eqb_eq in Hs.
    destruct (sentencesOf text) as [|p l] eqn:Es; [|discriminate].
    rewrite <- Hpost. unfold rawSlides. rewrite Es. reflexivity.
  - rewrite <- Hpost. unfold rawSlides, sentencesOf, cleanText.
    destruct (trim text); [reflexivity | discriminate].
Qed.

(** ** The text splitter: the claims *)

Section SplitterClaims.

Lemma ensureEnding_cases (slide : jsstring) :
  ensureEnding slide = slide \/ ensureEnding slide = slide ++ str ".".
Proof.
  unfold ensureEnding.
  destruct (negb (test re_sentence_end slide) && (10 <? length slide));
    [|now left].
  destruct (3 <=? length (split_chr (chr " ") slide)); [now right | now left].
Qed.

Lemma words_acc_nonempty (s : jsstring) :
  forall cur,
    cur <> [] \/ existsb notSpace s = true -> words_acc cur s <> [].
Proof.
  induction s as [|c s IH]; intros cur H; cbn [words_acc].
  - destruct H as [H|H]; [|discriminate]. now destruct cur.
  - unfold notSpace in *. cbn [existsb] in H.
    destruct (isSpace c); cbn [negb orb] in H.
    + destruct H as [H|H].
      * destruct cur; [congruence | discriminate].
      * intros E. apply app_eq_nil in E as [_ E]. revert E.
        apply IH. now right.
    + apply IH. left. discriminate.
Qed.

(** C1, as the code has it.  The first sentence has two words, so the
    second is merged into it by force; the merged buffer is over 40
    code units and is split again word by word, and post-processing ends
    the first slide with a period. *)
Theorem C1_example_output :
  splitTextIntoSlides
    (str "Short one. This is sentence two, which is also fairly short. Sentence three is here too.")
    {| maxCharacters_opt := Some (int 40);
       respectSentenceBoundaries_opt := None;
       minWordsPerSlide_opt := Some (int 3) |}
  = [str "Short one. This is sentence two, which.";
     str "is also fairly short.";
     str "Sentence three is here too."].
Proof. vm_compute. reflexivity. Qed.

(** C1 as the specification states it does not hold: the list it gives is
    not what the function returns. *)
Lemma C1_counterexample :
  exists first,
    nth_error
      (splitTextIntoSlides
         (str "Short one. This is sentence two, which is also fairly short. Sentence three is here too.")
         {| maxCharacters_opt := Some (int 40);
            respectSentenceBoundaries_opt := None;
            minWordsPerSlide_opt := Some (int 3) |})
      0 = Some first
    /\ nth_error
         [str "Short one.";
          str "This is sentence two, which is also fairly short.";
          str "Sentence three is here too."]
         0 <> Some first.
Proof.
  exists (str "Short one. This is sentence two, which.").
  split; [vm_compute; reflexivity | vm_compute; discriminate].
Qed.

(** C7: a text that is empty or only white space gives no slide, whatever
    the options; so do the empty string and three spaces. *)
Theorem C7_blank_input :
  (forall text options,
      forallb isSpace text = true -> splitTextIntoSlides text options = [])
  /\ (forall options, splitTextIntoSlides [] options = [])
  /\ (forall options, splitTextIntoSlides (str "   ") options = []).
Proof.
  assert (H : forall text options,
             forallb isSpace text = true ->
             splitTextIntoSlides text options = []).
  { intros text options Hsp. unfold splitTextIntoSlides.
    now rewrite (trim_all_space text Hsp). }
  split; [exact H|]. split; intros options; now apply H.
Qed.

(** C7 on a text of a tab, a space, a line feed, a no-break space and a
    line separator. *)
Lemma C7_blank_input_witness :
  forallb isSpace [9; 32; 10; 160; 8232]%N = true
  /\ splitTextIntoSlides [9; 32; 10; 160; 8232]%N no_options = [].
Proof.
  split; [reflexivity|].
  apply (proj1 C7_blank_input [9; 32; 10; 160; 8232]%N no_options).
  reflexivity.
Defined.

(** C8: every slide returned is a non-empty string, is not made of white
    space only, and has at least one word.  This holds of whatever
    [postProcessSlides] returns. *)
Theorem C8_slides_have_a_word (text : jsstring) (options : PartialOptions) :
  Forall (fun slide =>
            slide <> [] /\ forallb isSpace slide = false
            /\ (1 <= getWordCount slide)%Z)
    (splitTextIntoSlides text options).
Proof.
  assert (Hpost : forall slides opts,
             Forall (fun slide => existsb notSpace slide = true)
               (postProcessSlides slides opts)).
  { intros slides opts. unfold postProcessSlides.
    apply Forall_forall. intros x Hx.
    apply in_map_iff in Hx as (y & <- & Hy).
    apply filter_In in Hy as [Hy _].
    apply filter_In in Hy as [Hy Hlen].
    apply in_map_iff in Hy as (z & <- & _).
    assert (Hz : existsb notSpace (trim z) = true).
    { pose proof (trim_head z) as Hh.
      destruct (trim z) as [|c t]; [discriminate Hlen|].
      unfold notSpace. cbn [existsb]. now rewrite Hh. }
    destruct (ensureEnding_cases (trim z)) as [-> | ->]; [exact Hz|].
    rewrite existsb_app, Hz. reflexivity. }
  assert (Hall : Forall (fun slide => existsb notSpace slide = true)
                   (splitTextIntoSlides text options)).
  { unfold splitTextIntoSlides.
    destruct (negb (truthy (trim text))); [constructor|].
    destruct (length (sentencesOf text) =? 0); [constructor | apply Hpost]. }
  eapply Forall_impl; [|exact Hall].
  intros slide Hs. cbv beta in Hs. repeat split.
  - intros ->. discriminate.
  - rewrite all_space_or_not. fold notSpace. now rewrite Hs.
  - rewrite getWordCount_words.
    pose proof (words_acc_nonempty slide [] (or_intror Hs)) as Hne.
    unfold wordsOf, len. destruct (words_acc [] slide); [congruence|].
    cbn [length]. lia.
Qed.

(** C2, as the code has it: every slide returned is some [p], or [p] with
    the period that post-processing appends, where [p] does not exceed the
    character budget, or is a single word, or was made by a forced merge:
    it is a buffer that had too few words for [minWordsPerSlide], a space
    and the one word merged into it, so that [p] has at most
    [minWordsPerSlide] words.  With integer options these are the bounds
    of the second part. *)
Theorem C2_character_budget (text : jsstring) (options : PartialOptions) :
  let opts := spread DEFAULT_OPTIONS options in
  Forall (fun slide =>
            exists p,
              (slide = p \/ slide = p ++ str ".")
              /\ (num_gt (len p) (maxCharacters opts) = false
                  \/ (getWordCount p <= 1)%Z
                  \/ forcedMerge (minWordsPerSlide opts) p))
    (splitTextIntoSlides text options)
  /\ (forall maxC minW,
         maxCharacters opts = int maxC ->
         minWordsPerSlide opts = int minW ->
         Forall (fun slide =>
                   exists p,
                     (slide = p \/ slide = p ++ str ".")
                     /\ ((len p <= maxC)%Z
                         \/ (getWordCount p <= 1)%Z
                         \/ (getWordCount p <= minW)%Z))
           (splitTextIntoSlides text options)).
Proof.
  intros opts.
  assert (Hmain :
           Forall (fun slide =>
                     exists p,
                       (slide = p \/ slide = p ++ str ".")
                       /\ (num_gt (len p) (maxCharacters opts) = false
                           \/ (getWordCount p <= 1)%Z
                           \/ forcedMerge (minWordsPerSlide opts) p))
             (splitTextIntoSlides text options)).
  { destruct (isNaN (ToNumber (minWordsPerSlide opts))) eqn:Hn.
    { rewrite (splitTextIntoSlides_NaN text options Hn). constructor. }
    destruct (splitTextIntoSlides_spec text options Hn) as (gs & -> & Hgs & _).
    fold opts in Hgs. apply Forall_map.
    eapply Forall_impl; [|exact Hgs].
    intros g (Hne & Hg & Hfit). exists (unwords g).
    split; [apply ensureEnding_cases|].
    assert (Hone : length g <= 1 -> (getWordCount (unwords g) <= 1)%Z).
    { intros H. rewrite (getWordCount_unwords g Hg). unfold len. lia. }
    destruct Hfit as [H | [H | H]]; [now left | right; left; now apply Hone |].
    destruct (le_lt_dec (length g) 1) as [H1 | H1];
      [right; left; now apply Hone|].
    right. right.
    destruct (exists_last Hne) as (g' & w & ->).
    rewrite length_app in H1. cbn [length] in H1.
    assert (Hne' : g' <> [])
      by (destruct g'; [simpl in H1; lia | discriminate]).
    pose proof Hg as Hall.
    apply Forall_app in Hg as [Hg' Hw].
    inversion Hw as [|? ? Hw1 _]; subst.
    exists (unwords g'), w. split; [now apply unwords_snoc|].
    split; [exact Hw1|]. split; [|split].
    - pose proof (unwords_truthy g' Hg') as Ht.
      destruct g'; [congruence|]. intros E. rewrite E in Ht. discriminate.
    - rewrite (getWordCount_unwords g' Hg'). rewrite len_snoc in H.
      now replace (len g' + 1 - 1)%Z with (len g') in H by lia.
    - rewrite (getWordCount_unwords g' Hg'), (getWordCount_unwords _ Hall).
      apply len_snoc. }
  split; [exact Hmain|].
  intros maxC minW Emax Emin. eapply Forall_impl; [|exact Hmain].
  intros slide (p & Hp & Hcases). exists p. split; [exact Hp|].
  rewrite Emax, Emin in Hcases. destruct Hcases as [H | [H | H]].
  - left. rewrite num_gt_int, Z.gtb_ltb in H. now apply Z.ltb_ge.
  - now right; left.
  - right. right. destruct H as (b & w & _ & _ & _ & Hb & Hwc).
    rewrite num_ge_int, Z.geb_leb in Hb. apply Z.leb_gt in Hb. lia.
Qed.

(** C2 as the specification states it does not hold, on two inputs with
    a minimum of 1 word.  With a budget of 5 code units, a text of one long
    word comes back as one slide of 20 code units, and nothing was merged
    (the slide has no space at all).  With a budget of 14, the first slide
    is filled to 14 code units and then gets a period: 15 code units, and
    no part of it before a space has fewer than 1 word. *)
Lemma C2_counterexample :
  (let options := {| maxCharacters_opt := Some (int 5);
                     respectSentenceBoundaries_opt := None;
                     minWordsPerSlide_opt := Some (int 1) |} in
   let opts := spread DEFAULT_OPTIONS options in
   maxCharacters opts = int 5 /\ minWordsPerSlide opts = int 1
   /\ (5 > 0)%Z /\ (1 >= 1)%Z
   /\ exists slide,
       In slide (splitTextIntoSlides (str "Supercalifragilistic") options)
       /\ (len slide > 5)%Z
       /\ forall b c,
           slide = b ++ str " " ++ c -> b <> [] ->
           (getWordCount b >= 1)%Z)
  /\ (let options := {| maxCharacters_opt := Some (int 14);
                        respectSentenceBoundaries_opt := None;
                        minWordsPerSlide_opt := Some (int 1) |} in
      let opts := spread DEFAULT_OPTIONS options in
      maxCharacters opts = int 14 /\ minWordsPerSlide opts = int 1
      /\ (14 > 0)%Z /\ (1 >= 1)%Z
      /\ exists slide,
          In slide (splitTextIntoSlides (str "aaaa bbbb cccc dddd") options)
          /\ (len slide > 14)%Z
          /\ forall b c,
              slide = b ++ str " " ++ c -> b <> [] ->
              (getWordCount b >= 1)%Z).
Proof.
  cbv zeta. split.
  - split; [reflexivity|]. split; [reflexivity|].
    split; [reflexivity|]. split; [discriminate|].
    exists (str "Supercalifragilistic"). split; [|split].
    + vm_compute. now left.
    + reflexivity.
    + intros b c E _. exfalso.
      apply (f_equal (existsb (N.eqb 32))) in E.
      rewrite existsb_app in E. cbn [str list_ascii_of_string map app] in E.
      cbn [existsb] in E. rewrite N.eqb_refl in E.
      rewrite orb_true_r in E. vm_compute in E. discriminate.
  - split; [reflexivity|]. split; [reflexivity|].
    split; [reflexivity|]. split; [discriminate|].
    exists (str "aaaa bbbb cccc."). split; [|split].
    + vm_compute. now left.
    + reflexivity.
    + intros b c E Hb.
      destruct b as [|x b']; [congruence|].
      cbn [str list_ascii_of_string map app] in E.
      injection E as Ex _. subst x.
      rewrite getWordCount_words. unfold len.
      match goal with
      | |- context [wordsOf ?t] =>
          assert (Hne : wordsOf t <> [])
            by (apply words_acc_nonempty; now right);
          destruct (wordsOf t); [congruence|]
      end.
      cbn [length]. lia.
Qed.

Lemma concat_words_acc (s : jsstring) :
  forall cur, concat (words_acc cur s) = rev cur ++ filter notSpace s.
Proof.
  assert (Hflush : forall cur, concat (flush cur) = rev cur).
  { intros [|c cur]; [reflexivity|]. cbn [flush concat]. apply app_nil_r. }
  induction s as [|c s IH]; intros cur; cbn [words_acc filter].
  - now rewrite Hflush, app_nil_r.
  - unfold notSpace at 1. destruct (isSpace c); cbn [negb].
    + now rewrite concat_app, Hflush, IH.
    + rewrite IH. cbn [rev]. now rewrite <- app_assoc.
Qed.

Lemma filter_notSpace_spaces (sp : jsstring) :
  forallb isSpace sp = true -> filter notSpace sp = [].
Proof.
  induction sp as [|c sp IH]; [reflexivity|]. cbn [forallb filter].
  intros H. apply andb_true_iff in H as [Hc Hs].
  unfold notSpace at 1. rewrite Hc. now apply IH.
Qed.

(** Inserting the line breaks keeps every code unit that is not white
    space. *)
Lemma mark_chars (s : jsstring) :
  forall bef skip,
    skip <= length s ->
    filter notSpace
      (replace_loop re_sentence_start break_template bef s skip)
    = filter notSpace (skipn skip s).
Proof.
  induction s as [|c s IH]; intros bef skip Hle.
  - destruct skip; [|simpl in Hle; lia].
    cbn [replace_loop]. now rewrite match_sentence_start.
  - destruct skip as [|k]; [|cbn [length] in Hle; apply IH; lia].
    cbn [replace_loop skipn]. rewrite match_sentence_start.
    assert (Hnone :
             filter notSpace
               (c :: replace_loop re_sentence_start break_template
                       (c :: bef) s 0)
             = filter notSpace (c :: s)).
    { cbn [filter]. rewrite (IH (c :: bef) 0) by lia. reflexivity. }
    destruct (isPunct c) eqn:Hp; [|exact Hnone].
    destruct (dropWhile isSpace s) as [|u s2] eqn:Ed; [exact Hnone|].
    destruct (isUpper u) eqn:Hu; [|exact Hnone].
    cbn [rest caps]. rewrite expand_break.
    pose proof (takeWhile_dropWhile isSpace s) as E. rewrite Ed in E.
    assert (El : length s = length (takeWhile isSpace s) + S (length s2)).
    { rewrite <- E at 1. rewrite length_app. reflexivity. }
    replace (length (c :: s) - length s2)
      with (S (S (length (takeWhile isSpace s))))
      by (cbn [length]; lia).
    assert (Hskip : skipn (S (length (takeWhile isSpace s))) s = s2).
    { rewrite <- E at 2. rewrite skipn_app, skipn_all2 by lia.
      replace (S (length (takeWhile isSpace s))
               - length (takeWhile isSpace s)) with 1 by lia.
      reflexivity. }
    assert (Hc : notSpace c = true)
      by (unfold notSpace; now rewrite (punct_not_space c Hp)).
    assert (Hu' : notSpace u = true)
      by (unfold notSpace; now rewrite (upper_not_space' u Hu)).
    assert (Hfs : filter notSpace s = u :: filter notSpace s2).
    { rewrite <- E at 1.
      rewrite filter_app,
        (filter_notSpace_spaces _ (takeWhile_all isSpace s)).
      cbn [app filter]. now rewrite Hu'. }
    cbn [app filter]. rewrite Hc, Hu', Hfs.
    change (notSpace LF) with false. cbn iota.
    rewrite (IH (c :: bef) (S (length (takeWhile isSpace s)))) by lia.
    now rewrite Hskip.
Qed.

Lemma innerBreak_cons (c : char) (s : jsstring) :
  innerBreak (c :: s) = false -> innerBreak s = false.
Proof. cbn [innerBreak]. intros H. now apply orb_false_iff in H. Qed.

Lemma innerBreak_suffix (a b : jsstring) :
  innerBreak (a ++ b) = false -> innerBreak b = false.
Proof.
  induction a as [|c a IH]; [trivial|]. cbn [app].
  intros H. apply IH. now apply innerBreak_cons in H.
Qed.

Lemma innerBreak_prefix (a b : jsstring) :
  innerBreak (a ++ b) = false -> innerBreak a = false.
Proof.
  induction a as [|c a IH]; [reflexivity|]. cbn [app innerBreak].
  intros H. apply orb_false_iff in H as [H1 H2].
  rewrite (IH H2), orb_false_r. destruct a as [|u a]; [reflexivity|exact H1].
Qed.

Lemma innerBreak_neutral (a : jsstring) (c : char) (b : jsstring) :
  isPunct c = false -> isUpper c = false ->
  innerBreak (a ++ c :: b) = innerBreak a || innerBreak b.
Proof.
  intros Hp Hu. induction a as [|d a IH].
  - cbn [app innerBreak]. rewrite Hp. now destruct b.
  - cbn [app]. cbn [innerBreak]. rewrite IH.
    destruct a as [|e a]; cbn [app].
    + now rewrite Hu, andb_false_r.
    + now rewrite orb_assoc.
Qed.

(** Without an inner break, inserting the line breaks keeps the words. *)
Lemma mark_words (s : jsstring) :
  forall bef skip cur,
    skip <= length s ->
    innerBreak (skipn skip s) = false ->
    words_acc cur (replace_loop re_sentence_start break_template bef s skip)
    = words_acc cur (skipn skip s).
Proof.
  induction s as [|c s IH]; intros bef skip cur Hle Hib.
  - destruct skip; [|simpl in Hle; lia].
    cbn [replace_loop]. now rewrite match_sentence_start.
  - destruct skip as [|k]; [|cbn [length] in Hle; apply IH; [lia|exact Hib]].
    cbn [replace_loop skipn] in *. rewrite match_sentence_start.
    pose proof (innerBreak_cons c s Hib) as Hib'.
    assert (Hnone :
             words_acc cur
               (c :: replace_loop re_sentence_start break_template
                       (c :: bef) s 0)
             = words_acc cur (c :: s)).
    { cbn [words_acc].
      destruct (isSpace c);
        now rewrite (IH (c :: bef) 0) by (trivial; lia). }
    destruct (isPunct c) eqn:Hp; [|exact Hnone].
    destruct (dropWhile isSpace s) as [|u s2] eqn:Ed; [exact Hnone|].
    destruct (isUpper u) eqn:Hu; [|exact Hnone].
    cbn [rest caps]. rewrite expand_break.
    pose proof (takeWhile_dropWhile isSpace s) as E. rewrite Ed in E.
    assert (El : length s = length (takeWhile isSpace s) + S (length s2)).
    { rewrite <- E at 1. rewrite length_app. reflexivity. }
    replace (length (c :: s) - length s2)
      with (S (S (length (takeWhile isSpace s))))
      by (cbn [length]; lia).
    assert (Hs2 : innerBreak s2 = false).
    { rewrite <- E in Hib'. apply innerBreak_suffix in Hib'.
      now apply innerBreak_cons in Hib'. }
    assert (Hskip : skipn (S (length (takeWhile isSpace s))) s = s2).
    { rewrite <- E at 2. rewrite skipn_app, skipn_all2 by lia.
      replace (S (length (takeWhile isSpace s))
               - length (takeWhile isSpace s)) with 1 by lia.
      reflexivity. }
    cbn [app words_acc].
    rewrite (punct_not_space c Hp), (upper_not_space' u Hu).
    change (isSpace LF) with true. cbn iota.
    rewrite (IH (c :: bef) (S (length (takeWhile isSpace s))) [u])
      by (rewrite ?Hskip; trivial; lia).
    rewrite Hskip.
    destruct (takeWhile isSpace s) as [|a tw] eqn:Etw.
    + cbn [app] in E. subst s. cbn [innerBreak] in Hib.
      rewrite Hp, Hu in Hib. discriminate.
    + rewrite <- E.
      pose proof (takeWhile_all isSpace s) as Hall. rewrite Etw in Hall.
      rewrite (words_acc_spaces (a :: tw) Hall). cbn [words_acc].
      now rewrite (upper_not_space' u Hu).
Qed.

Lemma innerBreak_words (s : jsstring) :
  forall cur,
    innerBreak (rev cur ++ s) = false ->
    Forall (fun w => innerBreak w = false) (words_acc cur s).
Proof.
  assert (Hflush : forall cur,
             innerBreak (rev cur) = false ->
             Forall (fun w => innerBreak w = false) (flush cur)).
  { intros [|c cur] H; [constructor|]. constructor; [exact H|constructor]. }
  induction s as [|c s IH]; intros cur H; cbn [words_acc].
  - rewrite app_nil_r in H. now apply Hflush.
  - destruct (isSpace c).
    + apply Forall_app. split.
      * apply Hflush. now apply innerBreak_prefix in H.
      * apply (IH []). apply innerBreak_suffix in H.
        now apply innerBreak_cons in H.
    + apply IH. cbn [rev]. now rewrite <- app_assoc.
Qed.

Lemma innerBreak_unwords (l : list jsstring) :
  Forall (fun w => innerBreak w = false) l -> innerBreak (unwords l) = false.
Proof.
  induction 1 as [|w l Hw Hl IH]; [reflexivity|].
  destruct l as [|w' l]; [exact Hw|].
  rewrite unwords_cons by discriminate.
  change (str " " ++ ?x) with (32%N :: x).
  rewrite innerBreak_neutral by reflexivity.
  now rewrite Hw, IH.
Qed.

Lemma collapsed_nil (text : jsstring) : trim text = [] -> collapsed text = [].
Proof. unfold collapsed. now intros ->. Qed.

(** [cleanText] keeps every code unit that is not white space, and keeps
    the words of a text without inner break. *)
Lemma cleanText_eq (text : jsstring) :
  cleanText text
  = replace_loop re_sentence_start break_template [] (collapsed text) 0.
Proof. reflexivity. Qed.

Lemma cleanText_chars (text : jsstring) :
  concat (wordsOf (cleanText text)) = concat (wordsOf text).
Proof.
  rewrite <- (collapsed_words text).
  unfold wordsOf. rewrite !concat_words_acc. cbn [rev app].
  rewrite cleanText_eq, mark_chars by lia. reflexivity.
Qed.

Lemma cleanText_words (text : jsstring) :
  innerBreak text = false -> wordsOf (cleanText text) = wordsOf text.
Proof.
  intros Hib. rewrite <- (collapsed_words text), cleanText_eq.
  unfold wordsOf at 1.
  rewrite (mark_words (collapsed text) [] 0 []); [reflexivity | lia |].
  cbn [skipn].
  destruct (list_eq_dec N.eq_dec (trim text) []) as [Hnil|Hne].
  - now rewrite (collapsed_nil text Hnil).
  - destruct (tidy_unwords_words _ (collapsed_tidy text Hne)) as [E _].
    rewrite E, collapsed_words.
    apply innerBreak_unwords, (innerBreak_words text []). exact Hib.
Qed.

(** C3, as the code has it.  When [minWordsPerSlide] is a number, the
    slides are strings [pre], some with the period that post-processing
    appends, whose words are in order the words of [cleanText]; when it is
    NaN or [undefined], nothing is returned.  [cleanText] has the code units
    of the input that are not white space, in order; and its words are the
    words of the input when no [.], [!] or [?] of the input is directly
    followed by a letter A to Z. *)
Theorem C3_words_kept (text : jsstring) (options : PartialOptions) :
  let opts := spread DEFAULT_OPTIONS options in
  (isNaN (ToNumber (minWordsPerSlide opts)) = false ->
   exists pre,
     Forall2 (fun slide p => slide = p \/ slide = p ++ str ".")
       (splitTextIntoSlides text options) pre
     /\ flat_map wordsOf pre = wordsOf (cleanText text))
  /\ (isNaN (ToNumber (minWordsPerSlide opts)) = true ->
      splitTextIntoSlides text options = [])
  /\ concat (wordsOf (cleanText text)) = concat (wordsOf text)
  /\ (innerBreak text = false -> wordsOf (cleanText text) = wordsOf text).
Proof.
  intros opts.
  split; [|split; [apply splitTextIntoSlides_NaN
                  |split; [apply cleanText_chars | apply cleanText_words]]].
  intros Hn.
  destruct (splitTextIntoSlides_spec text options Hn) as (gs & -> & Hgs & <-).
  exists (map unwords gs). split.
  - clear Hgs. induction gs as [|g gs IH]; cbn [map]; constructor; trivial.
    apply ensureEnding_cases.
  - induction Hgs as [|g gs (_ & Hg & _) _ IH]; [reflexivity|].
    cbn [map flat_map concat]. now rewrite IH, (wordsOf_unwords g Hg).
Qed.

(** C3 on a text without inner break and the default options: the words of
    the slides are those of [cleanText], which are those of the text. *)
Lemma C3_words_kept_witness :
  isNaN (ToNumber (minWordsPerSlide (spread DEFAULT_OPTIONS no_options)))
  = false
  /\ innerBreak (str "One two three. four five six seven") = false
  /\ (exists pre,
         Forall2 (fun slide p => slide = p \/ slide = p ++ str ".")
           (splitTextIntoSlides (str "One two three. four five six seven")
              no_options) pre
         /\ flat_map wordsOf pre
            = wordsOf (cleanText (str "One two three. four five six seven")))
  /\ wordsOf (cleanText (str "One two three. four five six seven"))
     = wordsOf (str "One two three. four five six seven").
Proof.
  split; [reflexivity|]. split; [reflexivity|].
  split.
  - apply (proj1 (C3_words_kept
                    (str "One two three. four five six seven") no_options)).
    reflexivity.
  - apply (proj2 (proj2 (proj2 (C3_words_kept
                                  (str "One two three. four five six seven")
                                  no_options)))).
    reflexivity.
Defined.

(** C3 as the specification states it does not hold.  The input word
    [Example.Com] is a word of no slide, with or without a final period
    taken off, because [cleanText] breaks it after the period.  And with a
    [minWordsPerSlide] that is NaN, or a key set to [undefined], every word
    is lost: nothing is returned. *)
Lemma C3_counterexample :
  let text := str "Visit Example.Com today" in
  In (str "Example.Com") (wordsOf text)
  /\ In (str "Example.Com") (wordsOf (collapsed text))
  /\ (forall slide p,
         In slide (splitTextIntoSlides text no_options) ->
         slide = p \/ slide = p ++ str "." ->
         ~ In (str "Example.Com") (wordsOf p))
  /\ splitTextIntoSlides (str "alpha beta gamma")
       {| maxCharacters_opt := None;
          respectSentenceBoundaries_opt := None;
          minWordsPerSlide_opt := Some (Number NaN) |} = []
  /\ splitTextIntoSlides (str "alpha beta gamma")
       {| maxCharacters_opt := None;
          respectSentenceBoundaries_opt := None;
          minWordsPerSlide_opt := Some Undefined |} = []
  /\ splitTextIntoSlides (str "alpha beta gamma") no_options
     = [str "alpha beta gamma."].
Proof.
  cbv zeta. split; [vm_compute; tauto|]. split; [vm_compute; tauto|].
  split; [|split; [|split]]; try (vm_compute; reflexivity).
  intros slide p Hin Hp.
  assert (Hs : slide = str "Visit Example. Com today" ++ str ".").
  { vm_compute in Hin. destruct Hin as [<- | []]. reflexivity. }
  subst slide.
  destruct Hp as [<- | Hp].
  - vm_compute. intros [H | [H | [H | [H | []]]]]; discriminate.
  - apply app_inj_tail in Hp as [<- _].
    vm_compute. intros [H | [H | [H | [H | []]]]]; discriminate.
Qed.

End SplitterClaims.

(** ** The validators *)

Section Validators.

Lemma push_if_nonempty (c : bool) (m : jsstring) (a : list jsstring) :
  push_if c m a <> [] <-> c = true \/ a <> [].
Proof.
  unfold push_if. destruct c.
  - split; [now left|]. intros _ E. destruct a; discriminate.
  - split; [now right|]. now intros [H|H].
Qed.

Lemma truthy_false_iff (s : jsstring) : negb (truthy s) = true <-> s = [].
Proof. destruct s; cbn; split; congruence. Qed.

(** C6: [validateTextForSlides] reports an error exactly when the text is
    empty once trimmed, or has fewer than 10 code units, or fewer than 3
    words; a warning exactly when it has more than 10000 code units or more
    than 2000 words; and [isValid] says that there is no error. *)
Theorem C6_validateTextForSlides (text : jsstring) :
  let v := validateTextForSlides text in
  (errors v <> []
   <-> trim text = [] \/ (len text < 10)%Z \/ (len (wordsOf text) < 3)%Z)
  /\ (warnings v <> []
      <-> (len text > 10000)%Z \/ (len (wordsOf text) > 2000)%Z)
  /\ (isValid v = true <-> errors v = []).
Proof.
  cbv zeta. unfold validateTextForSlides. cbn [errors warnings isValid].
  rewrite getWordCount_words.
  split; [|split].
  - rewrite !push_if_nonempty, truthy_false_iff, !Z.ltb_lt.
    split.
    + intros [H | [H | [H | H]]]; auto. congruence.
    + intros [H | [H | H]]; auto.
  - rewrite !push_if_nonempty, !Z.gtb_gt.
    split.
    + intros [H | [H | H]]; auto. congruence.
    + intros [H | H]; auto.
  - rewrite Nat.eqb_eq. apply length_zero_iff_nil.
Qed.

Lemma Qltb_lt (a b : Q) : SlideGenerator.Qltb a b = true <-> (a < b)%Q.
Proof.
  unfold SlideGenerator.Qltb. rewrite negb_true_iff. split.
  - intros H. apply Qnot_le_lt. intros Hle.
    apply Qle_bool_iff in Hle. congruence.
  - intros H. destruct (Qle_bool b a) eqn:E; [|reflexivity].
    apply Qle_bool_iff in E. exfalso. exact (Qlt_not_le _ _ H E).
Qed.

Lemma checked_number (lo hi : Q) (o : option Q) :
  SlideGenerator.truthy_num o
  && (SlideGenerator.Qltb (SlideGenerator.num o) lo
      || SlideGenerator.Qltb hi (SlideGenerator.num o)) = true
  <-> checkedOutside lo hi o.
Proof.
  unfold checkedOutside, SlideGenerator.truthy_num, SlideGenerator.num.
  rewrite andb_true_iff, orb_true_iff, !Qltb_lt.
  destruct o as [v|].
  - rewrite negb_true_iff. split.
    + intros [Hz Hr]. exists v. split; [reflexivity|]. split; [|exact Hr].
      intros E. apply Qeq_bool_iff in E. congruence.
    + intros (w & E & Hz & Hr). injection E as <-. split; [|exact Hr].
      destruct (Qeq_bool v 0) eqn:E; [|reflexivity].
      apply Qeq_bool_iff in E. contradiction.
  - split; [intros [H _]; discriminate | intros (w & E & _); discriminate].
Qed.

Lemma checked_format (o : option jsstring) :
  truthy_opt o
  && negb (existsb (jsstring_eqb (match o with Some f => f | None => [] end))
             [str "png"; str "jpg"]) = true
  <-> checkedFormat o.
Proof.
  unfold checkedFormat. rewrite andb_true_iff, negb_true_iff.
  cbn [existsb]. rewrite orb_false_r, orb_false_iff.
  destruct o as [f|]; cbn [truthy_opt].
  - split.
    + intros [Ht [H1 H2]]. exists f. split; [reflexivity|].
      split; [now destruct f|]. split; intros E; subst f; discriminate.
    + intros (g & E & Hne & H1 & H2). injection E as <-.
      split; [now destruct f|].
      unfold jsstring_eqb.
      destruct (list_eq_dec N.eq_dec f (str "png")); [contradiction|].
      destruct (list_eq_dec N.eq_dec f (str "jpg")); [contradiction|].
      now split.
  - split; [intros [H _]; discriminate | intros (g & E & _); discriminate].
Qed.

(** X1: what [validateSlideOptions] does for every options value: it
    reports an error exactly when a width, height or quality that is given
    and is not 0 lies outside its range, or a format that is given and is
    not empty is neither png nor jpg; and [isValid] says there is no
    error. *)
Theorem validateSlideOptions_spec (options : SlideGenerator.PartialSlideOptions) :
  let v := SlideGenerator.validateSlideOptions options in
  (SlideGenerator.errors v <> []
   <-> checkedOutside 100 4000 (SlideGenerator.width options)
       \/ checkedOutside 100 4000 (SlideGenerator.height options)
       \/ checkedOutside (1 # 10) 1 (SlideGenerator.quality options)
       \/ checkedFormat (SlideGenerator.format options))
  /\ (SlideGenerator.isValid v = true <-> SlideGenerator.errors v = []).
Proof.
  cbv zeta. unfold SlideGenerator.validateSlideOptions.
  cbn [SlideGenerator.errors SlideGenerator.isValid].
  split.
  - rewrite !push_if_nonempty, !checked_number, checked_format.
    split.
    + intros [H | [H | [H | [H | H]]]]; auto. congruence.
    + intros [H | [H | [H | H]]]; auto.
  - rewrite Nat.eqb_eq. apply length_zero_iff_nil.
Qed.

(** C5 fails on the code for a field given as 0: every check is guarded by
    the truthiness of the field, and 0 is falsy, so a width of 0, which is
    below 100, is accepted without an error. *)
Theorem C5_zero_width_is_accepted :
  let options :=
    {| SlideGenerator.width := Some 0%Q;
       SlideGenerator.height := None;
       SlideGenerator.quality := None;
       SlideGenerator.format := None;
       SlideGenerator.backgroundColor := None |} in
  SlideGenerator.Qltb (SlideGenerator.num (SlideGenerator.width options)) 100
  = true
  /\ SlideGenerator.isValid (SlideGenerator.validateSlideOptions options)
     = true
  /\ SlideGenerator.errors (SlideGenerator.validateSlideOptions options) = [].
Proof. cbv zeta. repeat split. Qed.

End Validators.

(** ** The content analyzer *)

Section Analyzer.

Lemma matches_Alt (a b : regex) (st : mstate) :
  matches (Alt a b) st = matches a st ++ matches b st.
Proof. reflexivity. Qed.

Lemma ci_hash (c : char) : ci (isChr "#") c = isChr "#" c.
Proof. apply eq_iff_eq_true. code_units. lia. Qed.

Lemma ci_tagChar (c : char) : ci tagChar c = isTagChar c.
Proof. apply eq_iff_eq_true. code_units. lia. Qed.

Lemma space_not_tag (c : char) :
  isSpace c = true -> isTagChar c = false /\ isChr "#" c = false.
Proof.
  intros H. split; apply not_true_iff_false; intros Ht; code_units; lia.
Qed.

Lemma takeWhile_ext (p q : char -> bool) (s : jsstring) :
  (forall c, p c = q c) -> takeWhile p s = takeWhile q s.
Proof.
  intros H. induction s as [|c s IH]; [reflexivity|].
  cbn [takeWhile]. now rewrite H, IH.
Qed.

Lemma dropWhile_ext (p q : char -> bool) (s : jsstring) :
  (forall c, p c = q c) -> dropWhile p s = dropWhile q s.
Proof.
  intros H. induction s as [|c s IH]; [reflexivity|].
  cbn [dropWhile]. now rewrite H, IH.
Qed.

(** [/#[a-z0-9_]+/i] at a position. *)
Lemma match_hashtag (bef s : jsstring) :
  match_here re_hashtag bef s
  = match s with
    | c :: d :: s2 =>
        if isChr "#" c && isTagChar d
        then Some (MState (rev (takeWhile isTagChar s2) ++ d :: c :: bef)
                          (dropWhile isTagChar s2) [])
        else None
    | _ => None
    end.
Proof.
  unfold match_here, re_hashtag, Plus.
  rewrite matches_Seq, matches_Chr.
  destruct s as [|c s1]; [reflexivity|].
  rewrite ci_hash. destruct (isChr "#" c).
  2: { cbn [flat_map hd_error andb]. now destruct s1. }
  cbn [flat_map andb]. rewrite app_nil_r, matches_Seq, matches_Chr.
  destruct s1 as [|d s2]; [reflexivity|].
  rewrite ci_tagChar. destruct (isTagChar d); [|reflexivity].
  cbn [flat_map]. rewrite app_nil_r, matches_Star. cbn [rest].
  rewrite star_chr by lia. rewrite chr_star_hd.
  now rewrite (takeWhile_ext _ _ s2 ci_tagChar),
    (dropWhile_ext _ _ s2 ci_tagChar).
Qed.

Lemma match_loop_skip (r : regex) (s : jsstring) :
  forall bef skip,
    skip <= length s ->
    match_loop r bef s skip
    = match_loop r (rev (firstn skip s) ++ bef) (skipn skip s) 0.
Proof.
  induction s as [|c s IH]; intros bef skip Hle.
  - destruct skip; [reflexivity | simpl in Hle; lia].
  - destruct skip as [|k]; [reflexivity|].
    cbn [length] in Hle. cbn [match_loop firstn skipn rev].
    rewrite IH by lia. now rewrite <- app_assoc.
Qed.

Lemma scanTags_run (s : jsstring) :
  forall tok,
    tok <> [] ->
    scanTags tok s
    = flushTag (rev (takeWhile isTagChar s) ++ tok)
      ++ scanTags [] (dropWhile isTagChar s).
Proof.
  induction s as [|c s IH]; intros tok Hne.
  - cbn [scanTags takeWhile dropWhile rev app flushTag]. now rewrite app_nil_r.
  - cbn [scanTags takeWhile dropWhile].
    destruct tok as [|t tok']; [congruence|]. cbn [truthy andb].
    destruct (isTagChar c).
    + rewrite IH by discriminate. cbn [rev]. now rewrite <- app_assoc.
    + reflexivity.
Qed.

Lemma dropWhile_length (p : char -> bool) (s : jsstring) :
  length (dropWhile p s) <= length s.
Proof.
  induction s as [|c s IH]; [simpl; lia|].
  cbn [dropWhile]. destruct (p c); cbn [length]; lia.
Qed.

(** The matches of [/#[a-z0-9_]+/gi] are the hashtag tokens. *)
Lemma match_all_hashtag (s : jsstring) :
  match_all re_hashtag s = hashtagTokens_spec s.
Proof.
  unfold match_all, hashtagTokens_spec.
  assert (H : forall n s bef,
             length s <= n -> match_loop re_hashtag bef s 0 = scanTags [] s).
  { clear s. induction n as [|n IH]; intros s bef Hn.
    - destruct s; [|simpl in Hn; lia].
      cbn [match_loop]. now rewrite match_hashtag.
    - destruct s as [|c s1].
      + cbn [match_loop]. now rewrite match_hashtag.
      + cbn [length] in Hn. cbn [match_loop]. rewrite match_hashtag.
        cbn [scanTags truthy andb flushTag app].
        destruct s1 as [|d s2].
        * rewrite IH by (simpl; lia).
          cbn [scanTags]. now destruct (isChr "#" c).
        * destruct (isChr "#" c) eqn:Hc; cbn [andb].
          2: { now rewrite IH by (simpl in *; lia). }
          rewrite (scanTags_run (d :: s2) [c]) by discriminate.
          cbn [takeWhile dropWhile].
          destruct (isTagChar d) eqn:Hd.
          -- cbn [rest].
             replace (length (c :: d :: s2)
                      - length (dropWhile isTagChar s2))
               with (S (S (length (takeWhile isTagChar s2))))
               by (pose proof (takeWhile_dropWhile isTagChar s2) as E;
                   apply (f_equal (@length _)) in E;
                   rewrite length_app in E; cbn [length]; lia).
             cbn [firstn pred]. rewrite firstn_takeWhile.
             rewrite match_loop_skip
               by (cbn [length];
                   pose proof (takeWhile_dropWhile isTagChar s2) as E;
                   apply (f_equal (@length _)) in E;
                   rewrite length_app in E; lia).
             cbn [skipn]. rewrite skipn_takeWhile.
             rewrite IH
               by (pose proof (dropWhile_length isTagChar s2);
                   cbn [length] in Hn; lia).
             cbn [rev]. rewrite <- !app_assoc. cbn [app].
             destruct (rev (takeWhile isTagChar s2)) as [|a r] eqn:Er.
             ++ apply (f_equal (@rev _)) in Er.
                rewrite rev_involutive in Er. rewrite Er. reflexivity.
             ++ assert (E2 : flushTag ((a :: r) ++ [d; c])
                             = [rev ((a :: r) ++ [d; c])]).
                { cbn [app flushTag]. now destruct r. }
                rewrite E2, <- Er, rev_app_distr, rev_involutive.
                reflexivity.
          -- rewrite IH by (simpl in *; lia). reflexivity. }
  now apply (H (length s)).
Qed.

(** [/\r\n|\r/] at a position: a carriage return, with the line feed that
    follows it if there is one. *)
Lemma match_newline (bef s : jsstring) :
  match_here re_newline bef s
  = match s with
    | c :: s' =>
        if (CR =? c)%N then
          Some (match s' with
                | d :: s2 =>
                    if (LF =? d)%N then MState (d :: c :: bef) s2 []
                    else MState (c :: bef) s' []
                | [] => MState (c :: bef) [] []
                end)
        else None
    | [] => None
    end.
Proof.
  unfold match_here, re_newline.
  rewrite matches_Alt, matches_Seq, !matches_Chr.
  destruct s as [|c s']; [reflexivity|].
  destruct (CR =? c)%N; [|reflexivity].
  cbn [flat_map]. rewrite matches_Chr.
  destruct s' as [|d s2]; [reflexivity|].
  now destruct (LF =? d)%N.
Qed.

Lemma scanTags_neutral (c : char) (s tok : jsstring) :
  isSpace c = true -> scanTags tok (c :: s) = flushTag tok ++ scanTags [] s.
Proof.
  intros H. destruct (space_not_tag c H) as [H1 H2].
  cbn [scanTags]. now rewrite H1, H2, andb_false_r.
Qed.

(** Turning the carriage returns into line feeds moves no hashtag. *)
Lemma newlines_tags (s : jsstring) :
  forall bef tok,
    scanTags tok (replace_loop re_newline [TLit [LF]] bef s 0)
    = scanTags tok s.
Proof.
  assert (H : forall n s bef tok,
             length s <= n ->
             scanTags tok (replace_loop re_newline [TLit [LF]] bef s 0)
             = scanTags tok s).
  { clear s. induction n as [|n IH]; intros s bef tok Hn.
    - destruct s; [|simpl in Hn; lia].
      cbn [replace_loop]. now rewrite match_newline.
    - destruct s as [|c s'].
      + cbn [replace_loop]. now rewrite match_newline.
      + cbn [length] in Hn. cbn [replace_loop]. rewrite match_newline.
        destruct (N.eqb_spec CR c) as [<-|Hc].
        * change (expand [TLit [LF]] _) with [LF].
          rewrite (scanTags_neutral CR s' tok) by reflexivity.
          destruct s' as [|d s2].
          -- cbn [rest length Nat.sub app replace_loop].
             rewrite match_newline.
             now rewrite (scanTags_neutral LF [] tok) by reflexivity.
          -- destruct (N.eqb_spec LF d) as [<-|Hd]; cbn [rest].
             ++ replace (length (CR :: LF :: s2) - length s2) with 2
                  by (cbn [length]; lia).
                cbn [app replace_loop].
                rewrite (scanTags_neutral LF _ tok) by reflexivity.
                rewrite (scanTags_neutral LF s2 []) by reflexivity.
                rewrite IH by (cbn [length] in Hn; lia). reflexivity.
             ++ replace (length (CR :: d :: s2) - length (d :: s2)) with 1
                  by (cbn [length]; lia).
                cbn [app].
                rewrite (scanTags_neutral LF _ tok) by reflexivity.
                now rewrite IH by lia.
        * cbn [scanTags].
          destruct (truthy tok && isTagChar c); now rewrite IH by lia. }
  intros bef tok. now apply (H (length s)).
Qed.

Lemma scanTags_leading (sp s : jsstring) :
  forallb isSpace sp = true -> scanTags [] (sp ++ s) = scanTags [] s.
Proof.
  induction sp as [|c sp IH]; [reflexivity|]. cbn [forallb app].
  intros H. apply andb_true_iff in H as [Hc Hs].
  rewrite (scanTags_neutral c _ [] Hc). now apply IH.
Qed.

Lemma scanTags_trailing (s sp : jsstring) :
  forallb isSpace sp = true ->
  forall tok, scanTags tok (s ++ sp) = scanTags tok s.
Proof.
  intros Hsp.
  assert (Hbase : forall tok, scanTags tok sp = flushTag tok).
  { induction sp as [|c sp IH]; intros tok; [reflexivity|].
    cbn [forallb] in Hsp. apply andb_true_iff in Hsp as [Hc Hs].
    rewrite (scanTags_neutral c sp tok Hc), (IH Hs). cbn [flushTag].
    apply app_nil_r. }
  induction s as [|c s IH]; intros tok; [apply Hbase|].
  cbn [app scanTags]. now rewrite !IH.
Qed.

(** The hashtag tokens of the normalized text are those of the text. *)
Lemma normalize_keeps_tokens (text : jsstring) :
  hashtagTokens_spec (normalize text) = hashtagTokens_spec text.
Proof.
  unfold normalize, hashtagTokens_spec.
  set (t := replace_all re_newline [TLit [LF]] text).
  destruct (trim_split t) as (a & b & Ha & Hb & E).
  transitivity (scanTags [] t).
  - rewrite E at 2.
    now rewrite (scanTags_leading a _ Ha), (scanTags_trailing _ b Hb).
  - apply newlines_tags.
Qed.

Lemma jsstring_eqb_eq (a b : jsstring) : jsstring_eqb a b = true <-> a = b.
Proof.
  unfold jsstring_eqb. destruct (list_eq_dec N.eq_dec a b); split; congruence.
Qed.

Lemma seen_In (x : jsstring) (seen : list jsstring) :
  existsb (jsstring_eqb x) seen = true <-> In x seen.
Proof.
  rewrite existsb_exists. split.
  - intros (y & Hy & E). apply jsstring_eqb_eq in E. now subst.
  - intros H. exists x. split; [exact H | now apply jsstring_eqb_eq].
Qed.

Lemma uniq_from_In (l : list jsstring) :
  forall seen t, In t (uniq_from seen l) <-> In t l /\ ~ In t seen.
Proof.
  induction l as [|x l IH]; intros seen t; cbn [uniq_from In]; [tauto|].
  destruct (existsb (jsstring_eqb x) seen) eqn:E.
  - apply seen_In in E. rewrite IH. split.
    + tauto.
    + intros [[-> | H] Hn]; tauto.
  - assert (Hx : ~ In x seen).
    { intros H. apply seen_In in H. congruence. }
    cbn [In]. rewrite IH. cbn [In]. split.
    + intros [<- | [H1 H2]]; tauto.
    + intros [[-> | H] Hn]; [now left|].
      destruct (list_eq_dec N.eq_dec x t) as [->|Hne]; [now left|].
      right. split; [exact H|]. intros [H'|H']; congruence.
Qed.

Lemma uniq_from_NoDup (l : list jsstring) :
  forall seen, NoDup (uniq_from seen l).
Proof.
  induction l as [|x l IH]; intros seen; cbn [uniq_from]; [constructor|].
  destruct (existsb (jsstring_eqb x) seen); [apply IH|].
  constructor; [|apply IH].
  rewrite uniq_from_In. cbn [In]. tauto.
Qed.

(** [Array.from(new Set(l))] has the elements of [l], each once. *)
Lemma uniq_spec (l : list jsstring) :
  NoDup (uniq l) /\ forall t, In t (uniq l) <-> In t l.
Proof.
  split; [apply uniq_from_NoDup|].
  intros t. unfold uniq. rewrite uniq_from_In. cbn [In]. tauto.
Qed.

Lemma heuristics_tags (text : jsstring) :
  tags (heuristics text) = Some (hashtags (normalize text)).
Proof.
  unfold heuristics.
  destruct (match1 re_fenced (normalize text));
    destruct (match1 re_braced (normalize text)); reflexivity.
Qed.

Lemma extractLabeled_tags (text : jsstring) :
  tags (extractLabeled text) = None.
Proof. reflexivity. Qed.

Lemma analyzeContent_labeled (text : jsstring) :
  truthy_opt (title (extractLabeled text)) = true
  \/ truthy_opt (body (extractLabeled text)) = true
  \/ truthy_opt (visual (extractLabeled text)) = true ->
  analyzeContent text = extractLabeled text.
Proof.
  intros H. unfold analyzeContent, hasAnyLabel.
  destruct H as [-> | [-> | ->]]; now rewrite ?orb_true_r.
Qed.

(** C4: when the labeled extraction finds a non-empty title, body or
    visual, [analyzeContent] returns the labeled extraction, whatever the
    heuristics would say.  On the example of the specification it returns
    the three quoted values and no snippet, where the heuristics would have
    taken the whole first line for the title. *)
Theorem C4_labeled_extraction_wins :
  (forall text,
      truthy_opt (title (extractLabeled text)) = true
      \/ truthy_opt (body (extractLabeled text)) = true
      \/ truthy_opt (visual (extractLabeled text)) = true ->
      analyzeContent text = extractLabeled text)
  /\ analyzeContent labeled_example
     = {| title := Some (str "Hello");
          body := Some (str "World");
          visual := Some (str "none");
          visualSnippet := None;
          tags := None |}
  /\ title (heuristics labeled_example)
     = Some (str "Title: " ++ [DQ] ++ str "Hello" ++ [DQ]).
Proof.
  split; [exact analyzeContent_labeled | split; vm_compute; reflexivity].
Qed.

(** C4 on the example: its labeled title is not empty. *)
Lemma C4_labeled_extraction_wins_witness :
  truthy_opt (title (extractLabeled labeled_example)) = true
  /\ analyzeContent labeled_example = extractLabeled labeled_example.
Proof.
  split; [vm_compute; reflexivity|].
  apply (proj1 C4_labeled_extraction_wins labeled_example).
  left. vm_compute. reflexivity.
Defined.

(** C9: on the heuristic path the tags are the hashtag tokens of the text,
    each in lower case, each once, in the order of their first occurrence;
    the example of the specification gives [#ai] and [#productivity]. *)
Theorem C9_tags_on_heuristic_path :
  (forall text,
      hasAnyLabel (extractLabeled text) = false ->
      tags (analyzeContent text)
      = Some (uniq (map toLowerCase (hashtagTokens_spec text))))
  /\ (forall l, NoDup (uniq l) /\ forall t, In t (uniq l) <-> In t l)
  /\ tags (analyzeContent (str "Great tips #AI #ai #productivity"))
     = Some [str "#ai"; str "#productivity"].
Proof.
  split; [|split; [exact uniq_spec | vm_compute; reflexivity]].
  intros text H. unfold analyzeContent. rewrite H, heuristics_tags.
  unfold hashtags.
  now rewrite match_all_hashtag, normalize_keeps_tokens.
Qed.

(** C9 on the example: the text has no label. *)
Lemma C9_tags_on_heuristic_path_witness :
  hasAnyLabel (extractLabeled (str "Great tips #AI #ai #productivity")) = false
  /\ tags (analyzeContent (str "Great tips #AI #ai #productivity"))
     = Some (uniq (map toLowerCase
                     (hashtagTokens_spec (str "Great tips #AI #ai #productivity")))).
Proof.
  split; [vm_compute; reflexivity|].
  apply (proj1 C9_tags_on_heuristic_path).
  vm_compute. reflexivity.
Defined.

(** C10, as the code has it: when the labeled extraction finds a title,
    body or visual value that is not empty after trimming, the result has
    no tags, hashtags in the text or not; a result without tags only comes
    from the labeled path. *)
Theorem C10_no_tags_when_labeled :
  (forall text,
      truthy_opt (title (extractLabeled text)) = true
      \/ truthy_opt (body (extractLabeled text)) = true
      \/ truthy_opt (visual (extractLabeled text)) = true ->
      tags (analyzeContent text) = None)
  /\ (forall text,
        tags (analyzeContent text) = None ->
        hasAnyLabel (extractLabeled text) = true)
  /\ (hashtagTokens_spec (str "Title: Launch day #AI #news")
      = [str "#AI"; str "#news"]
      /\ tags (analyzeContent (str "Title: Launch day #AI #news")) = None).
Proof.
  split; [|split; [|split; vm_compute; reflexivity]].
  - intros text H. now rewrite (analyzeContent_labeled text H).
  - intros text. unfold analyzeContent.
    destruct (hasAnyLabel (extractLabeled text)); [reflexivity|].
    rewrite heuristics_tags. discriminate.
Qed.

(** C10 on a labeled text with two hashtags. *)
Lemma C10_no_tags_when_labeled_witness :
  truthy_opt (title (extractLabeled (str "Title: Launch day #AI #news"))) = true
  /\ tags (analyzeContent (str "Title: Launch day #AI #news")) = None.
Proof.
  split; [vm_compute; reflexivity|].
  apply (proj1 C10_no_tags_when_labeled).
  left. vm_compute. reflexivity.
Defined.

(** C10 as the claim words it does not hold: here the labeled extraction
    matches a body value, one space between quotes, which is empty after
    trimming; no label counts, the heuristic path is taken and the result
    has the tag of the text. *)
Lemma C10_counterexample :
  let text := str "Body: " ++ [DQ] ++ str " " ++ [DQ] ++ str " see #News" in
  group 1 (match1 (re_quoted "Body:") text) = Some (str " ")
  /\ body (extractLabeled text) = Some []
  /\ hasAnyLabel (extractLabeled text) = false
  /\ hashtagTokens_spec text = [str "#News"]
  /\ tags (analyzeContent text) = Some [str "#news"].
Proof. cbv zeta. repeat split; vm_compute; reflexivity. Qed.

End Analyzer.

(** ** The text splitter: post-processing *)

Section PostProcess.

Lemma search_sentence_end (pre : jsstring) (c : char) :
  forall bef,
    match search re_sentence_end bef (pre ++ [c]) with
    | Some _ => true
    | None => false
    end = isPunct c.
Proof.
  induction pre as [|a pre IH]; intros bef.
  - cbn [app search]. unfold match_here, re_sentence_end.
    rewrite matches_Seq, !matches_Chr. fold isPunct.
    destruct (isPunct c); reflexivity.
  - cbn [app search]. unfold match_here, re_sentence_end.
    rewrite matches_Seq, matches_Chr.
    assert (E : flat_map (matches Eos)
                  (if oneOf ".!?" a
                   then [MState (a :: bef) (pre ++ [c]) []] else []) = []).
    { destruct (oneOf ".!?" a); [|reflexivity].
      cbn [flat_map matches rest]. now destruct pre. }
    rewrite E. cbn [hd_error]. apply IH.
Qed.

Lemma test_sentence_end_snoc (pre : jsstring) (c : char) :
  test re_sentence_end (pre ++ [c]) = isPunct c.
Proof. apply search_sentence_end. Qed.

Lemma test_sentence_end_last (s : jsstring) :
  test re_sentence_end s = true ->
  exists pre c, s = pre ++ [c] /\ isPunct c = true.
Proof.
  destruct s as [|a s'] using rev_ind; [discriminate|].
  rewrite test_sentence_end_snoc. intros H. now exists s', a.
Qed.

Lemma ensureEnding_idem (slide : jsstring) :
  ensureEnding (ensureEnding slide) = ensureEnding slide.
Proof.
  unfold ensureEnding at 2 3.
  destruct (negb (test re_sentence_end slide) && (10 <? length slide)) eqn:E1.
  - destruct (3 <=? length (split_chr (chr " ") slide)) eqn:E2.
    + unfold ensureEnding. change (str ".") with [46%N].
      now rewrite test_sentence_end_snoc.
    + unfold ensureEnding. now rewrite E1, E2.
  - unfold ensureEnding. now rewrite E1.
Qed.

Lemma trim_fixed (s : jsstring) :
  match s with c :: _ => isSpace c = false | [] => True end ->
  noTrailingSpace s = true -> trim s = s.
Proof.
  intros Hh Ht. unfold trim, trimEnd.
  assert (E : trimStart s = s).
  { destruct s as [|c s']; [reflexivity|]. cbn [trimStart]. now rewrite Hh. }
  rewrite E. clear E Hh.
  destruct s as [|d s'] using rev_ind; [reflexivity|].
  rewrite noTrailingSpace_snoc in Ht. apply negb_true_iff in Ht.
  rewrite rev_app_distr. cbn [rev app trimStart]. rewrite Ht.
  change (d :: rev s') with (rev [d] ++ rev s').
  now rewrite <- rev_app_distr, rev_involutive.
Qed.

Lemma trim_idem (s : jsstring) : trim (trim s) = trim s.
Proof. apply trim_fixed; [apply trim_head | apply trim_noTrailingSpace]. Qed.

Lemma trim_nonblank (z : jsstring) :
  trim z <> [] -> existsb notSpace (trim z) = true.
Proof.
  intros Hne. pose proof (trim_head z) as Hh.
  destruct (trim z) as [|c t]; [congruence|].
  unfold notSpace. cbn [existsb]. now rewrite Hh.
Qed.

Lemma nonempty_length {A : Type} (l : list A) :
  (0 <? length l) = true <-> l <> [].
Proof.
  destruct l; cbn; split; intros H; try discriminate; congruence.
Qed.

Lemma trim_ensureEnding (z : jsstring) :
  trim z <> [] -> trim (ensureEnding (trim z)) = ensureEnding (trim z).
Proof.
  intros Hne.
  destruct (ensureEnding_cases (trim z)) as [-> | ->]; [apply trim_idem|].
  apply trim_fixed.
  - pose proof (trim_head z) as Hh.
    destruct (trim z) as [|c t]; [congruence | exact Hh].
  - change (str ".") with [46%N]. now rewrite noTrailingSpace_snoc.
Qed.

(** When [minWordsPerSlide] is a number, the filter on the word count
    keeps every slide: its threshold is at most 1, and a trimmed non-empty
    string has a word. *)
Lemma postProcessSlides_unfiltered
      (slides : list jsstring) (options : TextSplitterOptions) :
  isNaN (ToNumber (minWordsPerSlide options)) = false ->
  postProcessSlides slides options
  = map ensureEnding
      (filter (fun slide => 0 <? length slide) (map trim slides)).
Proof.
  intros Hn. unfold postProcessSlides. f_equal. apply filter_all.
  apply Forall_forall. intros x Hx.
  apply filter_In in Hx as [Hx Hlen].
  apply in_map_iff in Hx as (z & <- & _).
  apply nonempty_length in Hlen.
  rewrite getWordCount_words.
  pose proof (words_acc_nonempty (trim z) []
                (or_intror (trim_nonblank z Hlen))) as Hw.
  fold (wordsOf (trim z)) in Hw.
  apply num_ge_min_number; [exact Hn|].
  unfold len. destruct (wordsOf (trim z)); [congruence|].
  cbn [length]. lia.
Qed.

(** X2: [postProcessSlides] trims the slides, drops the empty ones and
    maps [ensureEnding]; its filter on the word count keeps every slide
    when [minWordsPerSlide] is a number, whatever the number, and drops
    every slide when it is NaN or [undefined]. *)
Theorem postProcessSlides_all_or_nothing
        (slides : list jsstring) (options : TextSplitterOptions) :
  postProcessSlides slides options
  = if isNaN (ToNumber (minWordsPerSlide options)) then []
    else map ensureEnding
           (filter (fun slide => 0 <? length slide) (map trim slides)).
Proof.
  destruct (isNaN (ToNumber (minWordsPerSlide options))) eqn:Hn.
  - now apply postProcessSlides_NaN.
  - now apply postProcessSlides_unfiltered.
Qed.

Lemma postProcessSlides_again
      (slides : list jsstring) (options options' : TextSplitterOptions) :
  isNaN (ToNumber (minWordsPerSlide options')) = false ->
  postProcessSlides (postProcessSlides slides options) options'
  = postProcessSlides slides options.
Proof.
  intros Hn'.
  destruct (isNaN (ToNumber (minWordsPerSlide options))) eqn:Hn.
  { rewrite (postProcessSlides_NaN slides options Hn).
    now rewrite postProcessSlides_unfiltered. }
  rewrite (postProcessSlides_unfiltered _ options' Hn').
  rewrite (postProcessSlides_unfiltered slides options Hn).
  induction slides as [|z slides IH]; [reflexivity|].
  cbn [map filter].
  destruct (0 <? length (trim z)) eqn:Hz; [|exact IH].
  apply nonempty_length in Hz.
  cbn [map filter]. rewrite (trim_ensureEnding z Hz).
  assert (Hne : (0 <? length (ensureEnding (trim z))) = true).
  { apply nonempty_length.
    destruct (ensureEnding_cases (trim z)) as [-> | ->]; [exact Hz|].
    now destruct (trim z). }
  rewrite Hne. cbn [map]. now rewrite ensureEnding_idem, IH.
Qed.

(** X3: post-processing is idempotent: run on its own result with the same
    options, or with other options whose [minWordsPerSlide] is a number, it
    changes nothing. *)
Theorem postProcessSlides_idempotent
        (slides : list jsstring) (options : TextSplitterOptions) :
  postProcessSlides (postProcessSlides slides options) options
  = postProcessSlides slides options
  /\ (forall options',
         isNaN (ToNumber (minWordsPerSlide options')) = false ->
         postProcessSlides (postProcessSlides slides options) options'
         = postProcessSlides slides options).
Proof.
  split; [|intros options'; apply postProcessSlides_again].
  destruct (isNaN (ToNumber (minWordsPerSlide options))) eqn:Hn.
  - now rewrite !(postProcessSlides_NaN _ options Hn).
  - now apply postProcessSlides_again.
Qed.

End PostProcess.

(** ** The loops of the splitter: closed groups have enough words *)

Section ClosedGroups.

Variables maxC minW : value.

Lemma wordStep_closed (st : list jsstring * jsstring) (ws : list jsstring)
      (w : jsstring) :
  closedInv minW st ws -> isWord w = true ->
  closedInv minW (wordStep maxC minW st w) (ws ++ [w]).
Proof.
  intros (gs & bw & -> & Hgs & Hbw & _ & <-) Hw.
  assert (Hw1 : allWords [w]) by (constructor; [exact Hw | constructor]).
  unfold wordStep. rewrite (unwords_truthy bw Hbw).
  destruct bw as [|b bw'].
  - cbn [andb]. exists gs, [w]. cbn [unwords app].
    split; [reflexivity|]. split; [exact Hgs|]. split; [exact Hw1|].
    split; [discriminate|]. now rewrite app_nil_r.
  - set (bw := b :: bw') in *.
    assert (Hne : bw <> []) by discriminate.
    assert (Hne' : bw ++ [w] <> []) by (intros E; now apply app_eq_nil in E).
    rewrite <- (unwords_snoc bw w Hne). cbn [andb].
    assert (Hmerge : closedInv minW (map unwords gs, unwords (bw ++ [w]))
                       ((concat gs ++ bw) ++ [w])).
    { exists gs, (bw ++ [w]).
      split; [reflexivity|]. split; [exact Hgs|].
      split; [now apply allWords_app|]. split; [trivial|].
      now rewrite app_assoc. }
    destruct (num_gt (len (unwords (bw ++ [w]))) maxC); [|exact Hmerge].
    rewrite (getWordCount_unwords bw Hbw).
    destruct (num_ge (len bw) minW) eqn:Hwc.
    + exists (gs ++ [bw]), [w].
      rewrite (unwords_trim bw Hbw), map_app. cbn [map unwords].
      split; [reflexivity|]. split; [|split; [exact Hw1|split]].
      * apply Forall_app. split; [exact Hgs|].
        constructor; [|constructor]. now repeat split.
      * discriminate.
      * rewrite concat_app. cbn [concat]. now rewrite app_nil_r.
    + rewrite (unwords_trim (bw ++ [w])) by now apply allWords_app.
      exact Hmerge.
Qed.

Lemma wordStep_fold_closed (l : list jsstring) :
  allWords l ->
  forall st ws,
    closedInv minW st ws ->
    closedInv minW (fold_left (wordStep maxC minW) l st) (ws ++ l).
Proof.
  induction 1 as [|w l Hw Hl IH]; intros st ws Hinv; cbn [fold_left].
  - now rewrite app_nil_r.
  - replace (ws ++ w :: l) with ((ws ++ [w]) ++ l)
      by now rewrite <- app_assoc.
    apply IH. now apply wordStep_closed.
Qed.

Lemma closedInv_init : closedInv minW ([], []) [].
Proof.
  exists [], [].
  split; [reflexivity|]. split; [constructor|]. split; [constructor|].
  split; [congruence | reflexivity].
Qed.

Lemma splitLongSentence_closed (l : list jsstring) :
  allWords l -> l <> [] ->
  closedInv minW (splitLongSentence (unwords l) maxC minW) l.
Proof.
  intros Hl Hne. unfold splitLongSentence.
  rewrite (split_chr_unwords l Hl Hne).
  apply (wordStep_fold_closed l Hl ([], []) []), closedInv_init.
Qed.

End ClosedGroups.

Section ClosedSentences.

Variable opts : TextSplitterOptions.

Lemma sentenceStep_closed (st : list jsstring * jsstring) (ws : list jsstring)
      (sentence : jsstring) :
  closedInv (minWordsPerSlide opts) st ws -> tidy sentence = true ->
  closedInv (minWordsPerSlide opts) (sentenceStep opts st sentence)
    (ws ++ wordsOf sentence).
Proof.
  intros (gs & bw & -> & Hgs & Hbw & _ & <-) Hs.
  destruct (tidy_unwords_words sentence Hs) as [Esent Hlne].
  pose proof (wordsOf_isWord sentence) as Hl.
  set (l := wordsOf sentence) in *. fold (allWords l) in Hl.
  unfold sentenceStep. rewrite (tidy_trim sentence Hs).
  match goal with
  | |- closedInv _ (let '(a, b) := ?X in _) _ => remember X as ph eqn:Eph
  end.
  assert (Hph : exists gs1 bw1,
             ph = (map unwords gs1, unwords bw1)
             /\ Forall (fullGroup (minWordsPerSlide opts)) gs1
             /\ allWords bw1 /\ bw1 <> []
             /\ concat gs1 ++ bw1 = (concat gs ++ bw) ++ l).
  { subst ph. rewrite (unwords_truthy bw Hbw).
    destruct bw as [|b bw'].
    - cbn [andb]. exists gs, l. rewrite <- Esent.
      split; [reflexivity|]. split; [exact Hgs|]. split; [exact Hl|].
      split; [exact Hlne|]. now rewrite app_nil_r.
    - set (bw := b :: bw') in *.
      assert (Hne : bw <> []) by discriminate.
      assert (Ejoin : unwords bw ++ str " " ++ sentence = unwords (bw ++ l)).
      { rewrite Esent at 1. symmetry. now apply unwords_app. }
      rewrite Ejoin. cbn [andb].
      assert (Hmerge :
               exists gs1 bw1,
                 (map unwords gs, unwords (bw ++ l))
                 = (map unwords gs1, unwords bw1)
                 /\ Forall (fullGroup (minWordsPerSlide opts)) gs1
                 /\ allWords bw1 /\ bw1 <> []
                 /\ concat gs1 ++ bw1 = (concat gs ++ bw) ++ l).
      { exists gs, (bw ++ l).
        split; [reflexivity|]. split; [exact Hgs|].
        split; [now apply allWords_app|].
        split; [now destruct bw | now rewrite app_assoc]. }
      destruct (num_gt (len (unwords (bw ++ l))) (maxCharacters opts));
        [|exact Hmerge].
      rewrite (getWordCount_unwords bw Hbw).
      destruct (num_ge (len bw) (minWordsPerSlide opts)) eqn:Hwc.
      + exists (gs ++ [bw]), l.
        rewrite (unwords_trim bw Hbw), map_app, <- Esent. cbn [map].
        split; [reflexivity|]. split; [|split; [exact Hl|split]].
        * apply Forall_app. split; [exact Hgs|].
          constructor; [|constructor]. now repeat split.
        * exact Hlne.
        * rewrite concat_app. cbn [concat]. now rewrite app_nil_r.
      + rewrite (unwords_trim (bw ++ l)) by now apply allWords_app.
        exact Hmerge. }
  clear Eph. destruct Hph as (gs1 & bw1 & -> & Hgs1 & Hbw1 & Hne1 & Econc).
  rewrite <- Econc.
  destruct (num_gt (len (unwords bw1)) (maxCharacters opts)) eqn:Hlen.
  - pose proof (splitLongSentence_closed (maxCharacters opts)
                  (minWordsPerSlide opts) bw1 Hbw1 Hne1)
      as (gs2 & bw2 & E2 & Hgs2 & Hbw2 & Hne2 & Ec2).
    rewrite E2. exists (gs1 ++ gs2), bw2.
    split; [now rewrite map_app|].
    split; [apply Forall_app; now split|].
    split; [exact Hbw2|]. split; [intros _; now apply Hne2|].
    now rewrite concat_app, <- app_assoc, Ec2.
  - exists gs1, bw1.
    split; [reflexivity|]. split; [exact Hgs1|]. split; [exact Hbw1|].
    split; [trivial | reflexivity].
Qed.

Lemma sentenceStep_fold_closed (sentences : list jsstring) :
  Forall (fun p => tidy p = true) sentences ->
  forall st ws,
    closedInv (minWordsPerSlide opts) st ws ->
    closedInv (minWordsPerSlide opts)
      (fold_left (sentenceStep opts) sentences st)
      (ws ++ flat_map wordsOf sentences).
Proof.
  induction 1 as [|p l Hp Hl IH]; intros st ws Hinv; cbn [fold_left flat_map].
  - now rewrite app_nil_r.
  - rewrite app_assoc. apply IH. now apply sentenceStep_closed.
Qed.

(** The slides before post-processing: closed groups, then the buffer. *)
Lemma rawSlides_closed (text : jsstring) :
  exists gs,
    rawSlides text opts = map unwords gs
    /\ Forall (fun g => g <> [] /\ allWords g) gs
    /\ Forall (fullGroup (minWordsPerSlide opts)) (removelast gs)
    /\ concat gs = wordsOf (cleanText text).
Proof.
  destruct (sentencesOf_spec text) as [Htidy Hwords].
  pose proof (sentenceStep_fold_closed (sentencesOf text) Htidy ([], []) []
                (closedInv_init (minWordsPerSlide opts)))
    as (gs & bw & E & Hgs & Hbw & _ & Ec).
  unfold rawSlides. rewrite E.
  rewrite (unwords_trim bw Hbw), (unwords_truthy bw Hbw).
  cbn [app] in Ec. rewrite Hwords in Ec.
  assert (Hgs' : Forall (fun g => g <> [] /\ allWords g) gs).
  { eapply Forall_impl; [|exact Hgs]. intros g (H1 & H2 & _). now split. }
  destruct bw as [|b bw'].
  - exists gs. rewrite app_nil_r in Ec.
    split; [reflexivity|]. split; [exact Hgs'|]. split; [|exact Ec].
    clear - Hgs. induction Hgs as [|g gs Hg Hgs IH]; [constructor|].
    cbn [removelast]. destruct gs; [constructor|].
    constructor; [exact Hg | exact IH].
  - exists (gs ++ [b :: bw']). rewrite map_app. cbn [map].
    split; [reflexivity|]. split; [|split].
    + apply Forall_app. split; [exact Hgs'|].
      constructor; [|constructor]. split; [discriminate | exact Hbw].
    + now rewrite removelast_last.
    + rewrite concat_app. cbn [concat]. now rewrite app_nil_r.
Qed.

Lemma wordGroups_kept (gs : list (list jsstring)) :
  isNaN (ToNumber (minWordsPerSlide opts)) = false ->
  Forall (fun g => g <> [] /\ allWords g) gs ->
  postProcessSlides (map unwords gs) opts
  = map (fun g => ensureEnding (unwords g)) gs.
Proof.
  intros Hn Hgs. rewrite (postProcessSlides_unfiltered _ _ Hn).
  rewrite <- (map_map unwords ensureEnding). f_equal.
  assert (Htrim : map trim (map unwords gs) = map unwords gs).
  { rewrite map_map. apply map_ext_Forall.
    eapply Forall_impl; [|exact Hgs].
    intros g (_ & Hg). now apply unwords_trim. }
  rewrite Htrim. apply filter_all.
  apply Forall_map. eapply Forall_impl; [|exact Hgs].
  intros g (Hne & Hg). cbv beta. apply nonempty_length.
  pose proof (unwords_truthy g Hg) as Ht.
  destruct g; [congruence|]. intros E. rewrite E in Ht. discriminate.
Qed.

End ClosedSentences.

(** What [splitTextIntoSlides] returns when [minWordsPerSlide] is a
    number, with the closed groups told from the last one. *)
Lemma splitTextIntoSlides_closed (text : jsstring) (options : PartialOptions) :
  let opts := spread DEFAULT_OPTIONS options in
  isNaN (ToNumber (minWordsPerSlide opts)) = false ->
  exists gs,
    splitTextIntoSlides text options
    = map (fun g => ensureEnding (unwords g)) gs
    /\ Forall (fun g => g <> [] /\ allWords g) gs
    /\ Forall (fullGroup (minWordsPerSlide opts)) (removelast gs)
    /\ concat gs = wordsOf (cleanText text).
Proof.
  intros opts Hn.
  destruct (rawSlides_closed opts text) as (gs & E & Hgs & Hfull & Ec).
  exists gs. split; [|split; [exact Hgs | split; [exact Hfull | exact Ec]]].
  assert (Hpost : postProcessSlides (rawSlides text opts) opts
                  = map (fun g => ensureEnding (unwords g)) gs).
  { rewrite E. now apply wordGroups_kept. }
  unfold splitTextIntoSlides. fold opts.
  destruct (truthy (trim text)) eqn:Ht; cbn [negb].
  - destruct (length (sentencesOf text) =? 0) eqn:Hs; [|exact Hpost].
    apply Nat.eqb_eq in Hs.
    destruct (sentencesOf text) as [|p l] eqn:Es; [|discriminate].
    rewrite <- Hpost. unfold rawSlides. rewrite Es. reflexivity.
  - rewrite <- Hpost. unfold rawSlides, sentencesOf, cleanText.
    destruct (trim text); [reflexivity | discriminate].
Qed.

(** ** The text splitter: the shape of the slides *)

Section SplitterShape.

Lemma removelast_map {A B : Type} (f : A -> B) (l : list A) :
  removelast (map f l) = map f (removelast l).
Proof.
  induction l as [|x l IH]; [reflexivity|].
  cbn [map removelast]. destruct l; [reflexivity|].
  cbn [map] in *. now rewrite IH.
Qed.

(** A code unit other than white space, put after the last word. *)
Lemma unwords_snoc_char (g : list jsstring) (c : char) :
  g <> [] -> allWords g -> isSpace c = false ->
  exists g',
    unwords g ++ [c] = unwords g' /\ allWords g' /\ g' <> []
    /\ length g' = length g.
Proof.
  intros Hne Hg Hc.
  destruct (exists_last Hne) as (g0 & w & ->).
  apply Forall_app in Hg as [Hg0 Hw].
  inversion Hw as [|? ? Hw1 _]; subst.
  exists (g0 ++ [w ++ [c]]). split; [|split; [|split]].
  - destruct g0 as [|a g0']; [reflexivity|].
    rewrite !unwords_snoc by discriminate.
    now rewrite <- !app_assoc.
  - apply allWords_app; [exact Hg0|].
    constructor; [|constructor].
    destruct (isWord_inv w Hw1) as [Hwne Hwall].
    unfold isWord. rewrite forallb_app, Hwall. cbn [forallb].
    rewrite Hc. now destruct w.
  - intros E. now apply app_eq_nil in E.
  - now rewrite !length_app.
Qed.

Lemma ensureEnding_unwords (g : list jsstring) :
  g <> [] -> allWords g ->
  exists g',
    ensureEnding (unwords g) = unwords g' /\ allWords g' /\ g' <> []
    /\ length g' = length g.
Proof.
  intros Hne Hg.
  destruct (ensureEnding_cases (unwords g)) as [-> | ->].
  - now exists g.
  - change (str ".") with [46%N]. now apply unwords_snoc_char.
Qed.

Lemma getWordCount_ensureEnding (g : list jsstring) :
  g <> [] -> allWords g ->
  getWordCount (ensureEnding (unwords g)) = len g.
Proof.
  intros Hne Hg.
  destruct (ensureEnding_unwords g Hne Hg) as (g' & -> & Hg' & _ & El).
  rewrite (getWordCount_unwords g' Hg'). unfold len. now rewrite El.
Qed.

Lemma nonblank_words (text : jsstring) :
  trim text <> [] -> wordsOf (cleanText text) <> [].
Proof.
  intros Hne Hw.
  pose proof (cleanText_chars text) as Hc. rewrite Hw in Hc.
  cbn [concat] in Hc. unfold wordsOf in Hc.
  rewrite concat_words_acc in Hc. cbn [rev app] in Hc.
  assert (He : existsb notSpace text = true).
  { destruct (existsb notSpace text) eqn:E; [reflexivity|].
    exfalso. apply Hne, trim_nil_iff.
    rewrite all_space_or_not. fold notSpace. now rewrite E. }
  apply existsb_exists in He as (c & Hin & Hc').
  assert (Hin' : In c (filter notSpace text)) by (apply filter_In; now split).
  rewrite <- Hc in Hin'. exact Hin'.
Qed.

Lemma splitTextIntoSlides_nonblank (text : jsstring) (options : PartialOptions) :
  isNaN (ToNumber (minWordsPerSlide (spread DEFAULT_OPTIONS options))) = false ->
  trim text <> [] -> splitTextIntoSlides text options <> [].
Proof.
  intros Hn Ht E. apply (nonblank_words text Ht).
  destruct (splitTextIntoSlides_spec text options Hn) as (gs & Eg & _ & Ec).
  rewrite E in Eg. destruct gs; [|discriminate Eg].
  now rewrite <- Ec.
Qed.

(** X4: [splitTextIntoSlides] returns no slide if and only if the text is
    made of white space only (or is empty) or [minWordsPerSlide] is NaN or
    [undefined]: with a [minWordsPerSlide] that is a number, a text with
    one code unit that is not white space gives at least one slide. *)
Theorem splitTextIntoSlides_empty_iff
        (text : jsstring) (options : PartialOptions) :
  let opts := spread DEFAULT_OPTIONS options in
  splitTextIntoSlides text options = []
  <-> forallb isSpace text = true
      \/ isNaN (ToNumber (minWordsPerSlide opts)) = true.
Proof.
  intros opts. split.
  - intros E.
    destruct (isNaN (ToNumber (minWordsPerSlide opts))) eqn:Hn;
      [now right | left].
    apply trim_nil_iff.
    destruct (list_eq_dec N.eq_dec (trim text) []) as [Ht | Ht]; [exact Ht|].
    exfalso. now apply (splitTextIntoSlides_nonblank text options Hn Ht).
  - intros [H | H].
    + unfold splitTextIntoSlides. now rewrite (trim_all_space text H).
    + now apply splitTextIntoSlides_NaN.
Qed.

(** X5: every slide returned is tidy: its words are joined by single
    spaces (U+0020), with no other white space and none at either end; so
    trimming it, or splitting it into words and joining them again, gives
    the slide back. *)
Theorem slides_are_tidy (text : jsstring) (options : PartialOptions) :
  Forall (fun slide =>
            tidy slide = true /\ trim slide = slide
            /\ unwords (wordsOf slide) = slide)
    (splitTextIntoSlides text options).
Proof.
  destruct (isNaN (ToNumber (minWordsPerSlide
                               (spread DEFAULT_OPTIONS options)))) eqn:Hn.
  { rewrite (splitTextIntoSlides_NaN text options Hn). constructor. }
  destruct (splitTextIntoSlides_closed text options Hn)
    as (gs & -> & Hgs & _).
  apply Forall_map. eapply Forall_impl; [|exact Hgs].
  intros g (Hne & Hg). cbv beta.
  destruct (ensureEnding_unwords g Hne Hg) as (g' & -> & Hg' & Hne' & _).
  split; [now apply tidy_unwords|].
  split; [now apply unwords_trim|].
  now rewrite (wordsOf_unwords g' Hg').
Qed.

(** X6: a slide returned with more than 10 code units and at least 3 words
    ends in a period, an exclamation mark or a question mark. *)
Theorem long_slides_end_a_sentence (text : jsstring) (options : PartialOptions) :
  Forall (fun slide =>
            (10 < len slide)%Z -> (3 <= getWordCount slide)%Z ->
            exists pre c, slide = pre ++ [c] /\ isPunct c = true)
    (splitTextIntoSlides text options).
Proof.
  destruct (isNaN (ToNumber (minWordsPerSlide
                               (spread DEFAULT_OPTIONS options)))) eqn:Hn.
  { rewrite (splitTextIntoSlides_NaN text options Hn). constructor. }
  destruct (splitTextIntoSlides_closed text options Hn)
    as (gs & -> & Hgs & _).
  apply Forall_map. eapply Forall_impl; [|exact Hgs].
  intros g (Hne & Hg). cbv beta.
  rewrite (getWordCount_ensureEnding g Hne Hg).
  unfold ensureEnding. rewrite (split_chr_unwords g Hg Hne).
  destruct (test re_sentence_end (unwords g)) eqn:Et; cbn [negb andb].
  - intros _ _. now apply test_sentence_end_last.
  - destruct (10 <? length (unwords g)) eqn:El.
    + destruct (3 <=? length g) eqn:Ew.
      * intros _ _. exists (unwords g), 46%N. split; reflexivity.
      * intros _ H. apply Nat.leb_gt in Ew. unfold len in H. lia.
    + intros H _. apply Nat.ltb_ge in El. unfold len in H. lia.
Qed.

(** X7: only the last slide can have fewer than [minWordsPerSlide] words:
    the word count of every slide before the last reaches it (for an
    integer [minWordsPerSlide], is at least that integer). *)
Theorem only_last_slide_is_short (text : jsstring) (options : PartialOptions) :
  let opts := spread DEFAULT_OPTIONS options in
  Forall (fun slide =>
            num_ge (getWordCount slide) (minWordsPerSlide opts) = true)
    (removelast (splitTextIntoSlides text options))
  /\ (forall minW,
         minWordsPerSlide opts = int minW ->
         Forall (fun slide => (minW <= getWordCount slide)%Z)
           (removelast (splitTextIntoSlides text options))).
Proof.
  intros opts.
  assert (Hmain :
           Forall (fun slide =>
                     num_ge (getWordCount slide) (minWordsPerSlide opts)
                     = true)
             (removelast (splitTextIntoSlides text options))).
  { destruct (isNaN (ToNumber (minWordsPerSlide opts))) eqn:Hn.
    { rewrite (splitTextIntoSlides_NaN text options Hn). constructor. }
    destruct (splitTextIntoSlides_closed text options Hn)
      as (gs & -> & _ & Hfull & _).
    fold opts in Hfull. rewrite removelast_map.
    apply Forall_map. eapply Forall_impl; [|exact Hfull].
    intros g (Hne & Hg & Hmin). cbv beta.
    now rewrite (getWordCount_ensureEnding g Hne Hg). }
  split; [exact Hmain|].
  intros minW E. eapply Forall_impl; [|exact Hmain].
  intros slide H. cbv beta in H.
  rewrite E, num_ge_int in H. now apply Z.geb_le in H.
Qed.

End SplitterShape.

Section OneSlide.

Variable opts : TextSplitterOptions.

Lemma unwords_prefix_len (a b : list jsstring) :
  (len (unwords a) <= len (unwords (a ++ b)))%Z.
Proof.
  destruct b as [|y b']; [rewrite app_nil_r; lia|].
  destruct a as [|x a']; [unfold len; cbn [unwords length]; lia|].
  rewrite unwords_app by discriminate.
  unfold len. rewrite !length_app. lia.
Qed.

Lemma sentenceStep_fits (sentences : list jsstring) :
  Forall (fun p => tidy p = true) sentences ->
  forall bw,
    allWords bw ->
    num_gt (len (unwords (bw ++ flat_map wordsOf sentences)))
      (maxCharacters opts) = false ->
    fold_left (sentenceStep opts) sentences ([], unwords bw)
    = ([], unwords (bw ++ flat_map wordsOf sentences)).
Proof.
  induction 1 as [|s sentences Hs Hrest IH]; intros bw Hbw Hfit;
    cbn [fold_left flat_map].
  - now rewrite app_nil_r.
  - cbn [flat_map] in Hfit.
    destruct (tidy_unwords_words s Hs) as [Esent Hlne].
    pose proof (wordsOf_isWord s) as Hl.
    set (l := wordsOf s) in *. fold (allWords l) in Hl.
    rewrite app_assoc in Hfit |- *.
    pose proof (unwords_prefix_len (bw ++ l) (flat_map wordsOf sentences))
      as Hpre.
    assert (Hno : num_gt (len (unwords (bw ++ l))) (maxCharacters opts)
                  = false).
    { exact (num_gt_mono _ _ _ Hpre Hfit). }
    assert (Estep : sentenceStep opts ([], unwords bw) s
                    = ([], unwords (bw ++ l))).
    { unfold sentenceStep. rewrite (tidy_trim s Hs).
      rewrite (unwords_truthy bw Hbw).
      destruct bw as [|b bw'].
      - cbn [andb app] in *. rewrite <- Esent in Hno |- *. now rewrite Hno.
      - assert (Ejoin : unwords (b :: bw') ++ str " " ++ s
                        = unwords ((b :: bw') ++ l)).
        { rewrite Esent at 1. symmetry. apply unwords_app; [discriminate|].
          exact Hlne. }
        rewrite Ejoin, Hno. cbn [andb]. now rewrite Hno. }
    rewrite Estep. apply IH; [now apply allWords_app | exact Hfit].
Qed.

End OneSlide.

(** X8: when [minWordsPerSlide] is a number, a text that is not blank and
    whose words (those of [cleanText]), joined by single spaces, do not
    exceed [maxCharacters] makes exactly one slide: these words, through
    [ensureEnding]. *)
Theorem text_within_budget_is_one_slide
        (text : jsstring) (options : PartialOptions) :
  let opts := spread DEFAULT_OPTIONS options in
  isNaN (ToNumber (minWordsPerSlide opts)) = false ->
  trim text <> [] ->
  num_gt (len (unwords (wordsOf (cleanText text)))) (maxCharacters opts)
  = false ->
  splitTextIntoSlides text options
  = [ensureEnding (unwords (wordsOf (cleanText text)))].
Proof.
  intros opts Hn Hne Hfit.
  pose proof (nonblank_words text Hne) as Hw.
  destruct (sentencesOf_spec text) as [Htidy Hwords].
  pose proof (sentenceStep_fits opts (sentencesOf text) Htidy []
                (Forall_nil _)) as Hfold.
  cbn [app unwords] in Hfold. rewrite Hwords in Hfold.
  specialize (Hfold Hfit).
  pose proof (wordsOf_isWord (cleanText text)) as Hall.
  fold (allWords (wordsOf (cleanText text))) in Hall.
  assert (Hraw : rawSlides text opts = map unwords [wordsOf (cleanText text)]).
  { unfold rawSlides.
    match goal with
    | |- context [fold_left ?f ?l ?a] =>
        replace (fold_left f l a)
          with (@nil jsstring, unwords (wordsOf (cleanText text)))
          by (symmetry; exact Hfold)
    end.
    rewrite (unwords_trim _ Hall), (unwords_truthy _ Hall).
    destruct (wordsOf (cleanText text)); [congruence | reflexivity]. }
  unfold splitTextIntoSlides. fold opts.
  destruct (trim text) eqn:Et; [congruence|]. cbn [truthy negb].
  destruct (sentencesOf text) as [|s ss] eqn:Es.
  { cbn [flat_map] in Hwords. congruence. }
  cbn [length Nat.eqb]. rewrite Hraw.
  rewrite (wordGroups_kept opts [wordsOf (cleanText text)] Hn);
    [reflexivity|].
  constructor; [now split | constructor].
Qed.

(** X8 on a text of four words and the default options. *)
Lemma text_within_budget_is_one_slide_witness :
  splitTextIntoSlides (str "  Hello   brave new world ") no_options
  = [str "Hello brave new world."].
Proof.
  apply (text_within_budget_is_one_slide
           (str "  Hello   brave new world ") no_options);
    vm_compute; congruence.
Defined.

(** ** The ZIP exporter: validateZipOptions *)

Section ZipValidator.

Lemma dropWhile_nil_iff (p : char -> bool) (s : jsstring) :
  dropWhile p s = [] <-> forallb p s = true.
Proof.
  induction s as [|c s IH]; cbn [dropWhile forallb]; [tauto|].
  destruct (p c); cbn [andb]; [exact IH|]. split; discriminate.
Qed.

(** The pattern of the file name, from the start of the string. *)
Lemma test_filename (s : jsstring) :
  test_from_start ZipExporter.re_filename s
  = truthy s && forallb ZipExporter.nameChar s.
Proof.
  unfold test_from_start, match_here, ZipExporter.re_filename, Plus.
  rewrite !matches_Seq, matches_Chr.
  destruct s as [|c s']; [reflexivity|].
  cbn [truthy forallb andb].
  destruct (ZipExporter.nameChar c); [|reflexivity].
  cbn [flat_map andb]. rewrite app_nil_r, matches_Star. cbn [rest].
  rewrite star_chr by lia.
  rewrite chr_star_then by reflexivity.
  cbn [matches rest].
  destruct (dropWhile ZipExporter.nameChar s') eqn:E.
  - apply dropWhile_nil_iff in E. now rewrite E.
  - destruct (forallb ZipExporter.nameChar s') eqn:F; [|reflexivity].
    apply dropWhile_nil_iff in F. congruence.
Qed.

Lemma refused_filename (o : option jsstring) :
  truthy_opt o
  && negb (test_from_start ZipExporter.re_filename
             (match o with Some f => f | None => [] end)) = true
  <-> refusedFilename o.
Proof.
  unfold refusedFilename. rewrite test_filename.
  destruct o as [f|]; cbn [truthy_opt].
  - assert (E : forallb ZipExporter.nameChar f
                = negb (existsb (fun c => negb (ZipExporter.nameChar c)) f)).
    { induction f as [|c f IH]; [reflexivity|].
      cbn [forallb existsb]. rewrite IH.
      now destruct (ZipExporter.nameChar c). }
    rewrite E. split.
    + intros H. exists f. split; [reflexivity|].
      destruct f; [discriminate H|]. split; [discriminate|].
      cbn [truthy andb] in H. rewrite negb_involutive in H. exact H.
    + intros (g & Eg & Hne & Hex). injection Eg as <-.
      rewrite Hex. now destruct f.
  - split; [discriminate | intros (g & E & _); discriminate].
Qed.

Lemma refused_level (o : option Q) :
  SlideGenerator.truthy_num o
  && (SlideGenerator.Qltb (SlideGenerator.num o) 0
      || SlideGenerator.Qltb 9 (SlideGenerator.num o)) = true
  <-> refusedLevel o.
Proof.
  rewrite checked_number. unfold checkedOutside, refusedLevel.
  split.
  - intros (v & E & _ & H). now exists v.
  - intros (v & E & H). exists v. split; [exact E|]. split; [|exact H].
    intros Hz. rewrite Hz in H. destruct H as [H | H]; discriminate H.
Qed.

(** X9: what [validateZipOptions] does for every options value: it reports
    an error exactly when a file name that is given and not empty has a
    code unit other than a letter, a digit, an underscore or a hyphen, or a
    compression level that is given lies outside 0 to 9 (a level of 0,
    which the guard skips, is in range); and [isValid] says there is no
    error. *)
Theorem validateZipOptions_spec (options : ZipExporter.PartialZipOptions) :
  let v := ZipExporter.validateZipOptions options in
  (ZipExporter.errors v <> []
   <-> refusedFilename (ZipExporter.filename options)
       \/ refusedLevel (ZipExporter.compressionLevel options))
  /\ (ZipExporter.isValid v = true <-> ZipExporter.errors v = []).
Proof.
  cbv zeta. unfold ZipExporter.validateZipOptions.
  cbn [ZipExporter.errors ZipExporter.isValid].
  split.
  - rewrite !push_if_nonempty, refused_filename, refused_level.
    split.
    + intros [H | [H | H]]; auto. congruence.
    + intros [H | H]; auto.
  - rewrite Nat.eqb_eq. apply length_zero_iff_nil.
Qed.

End ZipValidator.

(** ** The slide generator and the names of the exported files *)

Section Deck.

Context {Template : Type}.

Lemma map_index_combine {A B : Type} (f : A -> nat -> B) (l : list A) :
  forall index,
    SlideGenerator.map_index f l index
    = map (fun p => f (fst p) (snd p)) (combine l (seq index (length l))).
Proof.
  induction l as [|x l IH]; intros index; [reflexivity|].
  cbn [SlideGenerator.map_index length seq combine map fst snd].
  now rewrite IH.
Qed.

Lemma map_fst_combine_seq {A : Type} (l : list A) :
  forall k, map fst (combine l (seq k (length l))) = l.
Proof.
  induction l as [|x l IH]; intros k; [reflexivity|].
  cbn [length seq combine map fst]. now rewrite IH.
Qed.

Lemma map_snd_combine_seq {A : Type} (l : list A) :
  forall k, map snd (combine l (seq k (length l))) = seq k (length l).
Proof.
  induction l as [|x l IH]; intros k; [reflexivity|].
  cbn [length seq combine map snd]. now rewrite IH.
Qed.

Lemma generateSlides_fields (textSlides : list jsstring) (template : Template) :
  let slides := SlideGenerator.generateSlides textSlides template in
  map SlideGenerator.content slides = textSlides
  /\ map SlideGenerator.slideNumber slides = seq 1 (length textSlides)
  /\ Forall (fun slide =>
               SlideGenerator.id slide
               = str "slide-"
                 ++ String_of_nat (SlideGenerator.slideNumber slide)
               /\ SlideGenerator.template slide = template
               /\ SlideGenerator.totalSlides slide = length textSlides)
       slides.
Proof.
  cbv zeta. unfold SlideGenerator.generateSlides.
  rewrite map_index_combine. split; [|split].
  - rewrite map_map. cbn [SlideGenerator.content].
    rewrite <- (map_map fst (fun x => x)), map_fst_combine_seq.
    apply map_id.
  - rewrite map_map. cbn [SlideGenerator.slideNumber].
    rewrite <- (map_map snd (fun i => i + 1)), map_snd_combine_seq.
    rewrite <- seq_shift. apply map_ext. intros i. lia.
  - apply Forall_map, Forall_forall. intros p _. now cbn.
Qed.

Lemma str_inj (a b : string) : str a = str b -> a = b.
Proof.
  unfold str. intros E.
  rewrite <- (string_of_list_ascii_of_string a).
  rewrite <- (string_of_list_ascii_of_string b). f_equal.
  revert E. generalize (list_ascii_of_string a) (list_ascii_of_string b).
  induction l as [|x l IH]; intros [|y l'] E; try discriminate; trivial.
  cbn [map] in E. injection E as E1 E2.
  f_equal; [|now apply IH].
  rewrite <- (ascii_N_embedding x), <- (ascii_N_embedding y). now rewrite E1.
Qed.

Lemma parseNat_str (s : string) :
  parseNat (str s)
  = option_map Nat.of_uint (DecimalString.NilEmpty.uint_of_string s).
Proof.
  unfold parseNat, str. rewrite map_map.
  rewrite (map_ext _ (fun a => a)) by apply ascii_N_embedding.
  now rewrite map_id, string_of_list_ascii_of_string.
Qed.

(** The decimal digits of a number read back give the number. *)
Lemma parseNat_String_of_nat (n : nat) : parseNat (String_of_nat n) = Some n.
Proof.
  unfold String_of_nat. rewrite parseNat_str, DecimalString.NilEmpty.usu.
  cbn [option_map]. now rewrite DecimalNat.Unsigned.of_to.
Qed.

Lemma parseNat_zero (s : jsstring) :
  parseNat (chr "0" :: s) = parseNat s.
Proof.
  unfold parseNat. cbn [map string_of_list_ascii].
  change (ascii_of_N (chr "0")) with "0"%char.
  cbn [DecimalString.NilEmpty.uint_of_string DecimalString.uint_of_char].
  destruct (DecimalString.NilEmpty.uint_of_string
              (string_of_list_ascii (map ascii_of_N s))); reflexivity.
Qed.

Lemma parseNat_padStart (target n : nat) :
  parseNat (padStart target (chr "0") (String_of_nat n)) = Some n.
Proof.
  unfold padStart.
  induction (target - length (String_of_nat n)) as [|k IH];
    cbn [repeat app]; [apply parseNat_String_of_nat|].
  now rewrite parseNat_zero.
Qed.

Lemma String_of_nat_inj (n m : nat) :
  String_of_nat n = String_of_nat m -> n = m.
Proof.
  intros E. apply (f_equal parseNat) in E.
  rewrite !parseNat_String_of_nat in E. now injection E.
Qed.

Lemma slideFileName_inj (n m : nat) (format : option jsstring) :
  ZipExporter.slideFileName n format = ZipExporter.slideFileName m format ->
  n = m.
Proof.
  unfold ZipExporter.slideFileName. intros E.
  apply app_inv_head in E. rewrite !app_assoc in E.
  apply app_inv_tail in E. apply app_inv_tail in E.
  apply (f_equal parseNat) in E.
  rewrite !parseNat_padStart in E. now injection E.
Qed.

Lemma NoDup_map_inj {A B : Type} (f : A -> B) (l : list A) :
  (forall x y, f x = f y -> x = y) -> NoDup l -> NoDup (map f l).
Proof.
  intros Hf. induction 1 as [|x l Hx Hl IH]; cbn [map]; constructor; trivial.
  intros Hin. apply in_map_iff in Hin as (y & E & Hy).
  apply Hf in E. now subst y.
Qed.

(** X10: what [generateSlides] returns: one slide for each text, in order
    and with the text as its content, numbered from 1, each with the
    template, the number of texts as [totalSlides] and the identifier
    slide-n for its number n; the identifiers are pairwise distinct. *)
Theorem generateSlides_spec (textSlides : list jsstring) (template : Template) :
  let slides := SlideGenerator.generateSlides textSlides template in
  map SlideGenerator.content slides = textSlides
  /\ map SlideGenerator.slideNumber slides = seq 1 (length textSlides)
  /\ Forall (fun slide =>
               SlideGenerator.id slide
               = str "slide-"
                 ++ String_of_nat (SlideGenerator.slideNumber slide)
               /\ SlideGenerator.template slide = template
               /\ SlideGenerator.totalSlides slide = length textSlides)
       slides
  /\ NoDup (map SlideGenerator.id slides).
Proof.
  destruct (generateSlides_fields textSlides template) as (Hc & Hn & Hf).
  cbv zeta. split; [exact Hc|]. split; [exact Hn|]. split; [exact Hf|].
  assert (E : map SlideGenerator.id
                (SlideGenerator.generateSlides textSlides template)
              = map (fun n => str "slide-" ++ String_of_nat n)
                  (seq 1 (length textSlides))).
  { rewrite <- Hn, map_map. apply map_ext_Forall.
    eapply Forall_impl; [|exact Hf]. now intros slide (H & _). }
  rewrite E. apply NoDup_map_inj; [|apply seq_NoDup].
  intros x y H. apply app_inv_head in H. now apply String_of_nat_inj.
Qed.

(** X11: the files of the export of a deck made by [generateSlides] have
    pairwise distinct names, whatever the options: no slide takes the name
    of another or that of the metadata. *)
Theorem exported_file_names_are_distinct
        (textSlides : list jsstring) (template : Template)
        (zipOptions : ZipExporter.PartialZipOptions)
        (slideOptions : SlideGenerator.PartialSlideOptions) :
  NoDup (ZipExporter.previewFileNames
           (SlideGenerator.generateSlides textSlides template)
           zipOptions slideOptions).
Proof.
  destruct (generateSlides_fields textSlides template) as (_ & Hn & _).
  cbv zeta in Hn. unfold ZipExporter.previewFileNames.
  set (name := fun n => ZipExporter.slideFileName n
                          (SlideGenerator.format slideOptions)).
  assert (E : map (fun slide : SlideGenerator.Slide Template =>
                     ZipExporter.slideFileName
                       (SlideGenerator.slideNumber slide)
                       (SlideGenerator.format slideOptions))
                (SlideGenerator.generateSlides textSlides template)
              = map name (seq 1 (length textSlides))).
  { rewrite <- Hn. now rewrite map_map. }
  rewrite E.
  assert (Hnd : NoDup (map name (seq 1 (length textSlides)))).
  { apply NoDup_map_inj; [|apply seq_NoDup].
    intros x y. apply slideFileName_inj. }
  destruct (match ZipExporter.includeMetadata zipOptions with
            | Some v => v
            | None => Some true
            end) as [[|]|]; [|exact Hnd..].
  apply NoDup_app; [exact Hnd | repeat constructor; intros [] |].
  intros x Hx [<- | []].
  apply in_map_iff in Hx as (n & Hx & _).
  unfold name, ZipExporter.slideFileName in Hx.
  apply (f_equal (@hd_error _)) in Hx. discriminate Hx.
Qed.

(** The word count of the export metadata is [getWordCount]. *)
Lemma contentWordCount_words (content : jsstring) :
  ZipExporter.contentWordCount content = len (wordsOf content).
Proof. unfold ZipExporter.contentWordCount. now rewrite split_spaces. Qed.

Lemma fold_sum {A : Type} (f : A -> Z) (l : list A) :
  forall acc,
    fold_left (fun sum x => (sum + f x)%Z) l acc
    = (acc + fold_right Z.add 0 (map f l))%Z.
Proof.
  induction l as [|x l IH]; intros acc; cbn [fold_left map fold_right]; [lia|].
  rewrite IH. lia.
Qed.

Lemma sum_lengths {A : Type} (gs : list (list A)) :
  fold_right Z.add 0%Z (map (fun g => len g) gs) = len (concat gs).
Proof.
  induction gs as [|g gs IH]; [reflexivity|].
  cbn [map fold_right concat]. rewrite IH.
  unfold len. rewrite length_app. lia.
Qed.

End Deck.

(** ** From a text to the exported deck *)

Section Pipeline.

Context {Template : Type}.

Lemma sum_removelast_le (gs : list (list jsstring)) :
  (fold_right Z.add 0 (map (fun g => len g) (removelast gs))
   <= fold_right Z.add 0 (map (fun g => len g) gs))%Z.
Proof.
  induction gs as [|g gs IH]; [cbn; lia|].
  cbn [removelast]. destruct gs as [|g' gs'].
  - cbn [map fold_right]. unfold len. lia.
  - cbn [map fold_right] in *. lia.
Qed.

Lemma sum_at_least (m : Z) (gs : list (list jsstring)) :
  Forall (fun g => (m <= len g)%Z) gs ->
  (len gs * m <= fold_right Z.add 0 (map (fun g => len g) gs))%Z.
Proof.
  induction 1 as [|g gs Hg Hgs IH]; [cbn; lia|].
  cbn [map fold_right]. unfold len in *. cbn [length]. lia.
Qed.

Lemma sum_reaches (v : value) (q : Q) (gs : list (list jsstring)) :
  ToNumber v = Num q ->
  Forall (fun g => num_ge (len g) v = true) gs ->
  (inject_Z (len gs) * q
   <= inject_Z (fold_right Z.add 0%Z (map (fun g => len g) gs)))%Q.
Proof.
  intros Ev. induction 1 as [|g gs Hg Hgs IH].
  - cbn [map fold_right]. unfold len. cbn [length Z.of_nat].
    rewrite Qmult_0_l. apply Qle_refl.
  - cbn [map fold_right].
    replace (len (g :: gs)) with (1 + len gs)%Z
      by (unfold len; cbn [length]; lia).
    rewrite !inject_Z_plus, Qmult_plus_distr_l, Qmult_1_l.
    apply Qplus_le_compat; [|exact IH].
    unfold num_ge in Hg. rewrite Ev in Hg. now apply Qle_bool_iff.
Qed.

(** X12: how many slides a text can make: at most as many as [cleanText]
    has words, and the slides before the last, at [minWordsPerSlide] words
    each, account for no more words than it has. *)
Theorem slide_count_bounds (text : jsstring) (options : PartialOptions) :
  let opts := spread DEFAULT_OPTIONS options in
  let slides := splitTextIntoSlides text options in
  (len slides <= getWordCount (cleanText text))%Z
  /\ (forall q,
         ToNumber (minWordsPerSlide opts) = Num q ->
         (inject_Z (len (removelast slides)) * q
          <= inject_Z (getWordCount (cleanText text)))%Q)
  /\ (forall minW,
         minWordsPerSlide opts = int minW ->
         (len (removelast slides) * minW
          <= getWordCount (cleanText text))%Z).
Proof.
  intros opts slides. subst slides.
  assert (Hwc : (0 <= getWordCount (cleanText text))%Z).
  { rewrite getWordCount_words. unfold len. lia. }
  assert (Hq : forall q,
             ToNumber (minWordsPerSlide opts) = Num q ->
             (inject_Z (len (removelast (splitTextIntoSlides text options)))
              * q
              <= inject_Z (getWordCount (cleanText text)))%Q).
  { intros q Eq.
    assert (Hn : isNaN (ToNumber (minWordsPerSlide opts)) = false)
      by now rewrite Eq.
    destruct (splitTextIntoSlides_closed text options Hn)
      as (gs & -> & Hgs & Hfull & Ec).
    fold opts in Hfull.
    rewrite getWordCount_words, <- Ec, <- sum_lengths.
    rewrite removelast_map. unfold len at 1. rewrite length_map.
    fold (len (removelast gs)).
    apply Qle_trans
      with (inject_Z (fold_right Z.add 0%Z
                        (map (fun g => len g) (removelast gs)))).
    - apply (sum_reaches (minWordsPerSlide opts) q _ Eq).
      eapply Forall_impl; [|exact Hfull]. now intros g (_ & _ & H).
    - rewrite <- Zle_Qle. apply sum_removelast_le. }
  split; [|split; [exact Hq|]].
  - destruct (isNaN (ToNumber (minWordsPerSlide opts))) eqn:Hn.
    { rewrite (splitTextIntoSlides_NaN text options Hn). exact Hwc. }
    destruct (splitTextIntoSlides_closed text options Hn)
      as (gs & -> & Hgs & _ & Ec).
    rewrite getWordCount_words, <- Ec, <- sum_lengths.
    unfold len at 1. rewrite length_map. fold (len gs).
    replace (len gs) with (len gs * 1)%Z by lia.
    apply sum_at_least. eapply Forall_impl; [|exact Hgs].
    intros g (Hne & _). unfold len. destruct g; [congruence|].
    cbn [length]. lia.
  - intros minW E. specialize (Hq (inject_Z minW)).
    rewrite E in Hq. specialize (Hq eq_refl).
    rewrite <- inject_Z_mult in Hq. now rewrite Zle_Qle.
Qed.

(** X13: the word count of the export metadata is [getWordCount], and for
    a deck made from a text, with a [minWordsPerSlide] that is a number,
    the total is the word count of [cleanText]: splitting neither loses nor
    adds a word (and the total is the word count of the text itself when no
    period, exclamation or question mark is directly followed by a capital
    letter). *)
Theorem exported_word_counts
        (text : jsstring) (options : PartialOptions) (template : Template) :
  let opts := spread DEFAULT_OPTIONS options in
  let slides :=
    SlideGenerator.generateSlides (splitTextIntoSlides text options) template in
  (forall content, ZipExporter.contentWordCount content = getWordCount content)
  /\ (isNaN (ToNumber (minWordsPerSlide opts)) = false ->
      ZipExporter.totalWords slides = getWordCount (cleanText text))
  /\ (isNaN (ToNumber (minWordsPerSlide opts)) = false ->
      innerBreak text = false ->
      ZipExporter.totalWords slides = getWordCount text).
Proof.
  intros opts slides.
  assert (Hcount : forall content,
             ZipExporter.contentWordCount content = getWordCount content).
  { intros content.
    now rewrite contentWordCount_words, getWordCount_words. }
  assert (Htotal : isNaN (ToNumber (minWordsPerSlide opts)) = false ->
                   ZipExporter.totalWords slides
                   = getWordCount (cleanText text)).
  { intros Hn. unfold ZipExporter.totalWords.
    rewrite (fold_sum (fun slide : SlideGenerator.Slide Template =>
                         ZipExporter.contentWordCount
                           (SlideGenerator.content slide))).
    rewrite <- (map_map SlideGenerator.content ZipExporter.contentWordCount).
    subst slides.
    destruct (generateSlides_fields (splitTextIntoSlides text options)
                template) as (-> & _).
    destruct (splitTextIntoSlides_closed text options Hn)
      as (gs & -> & Hgs & _ & Ec).
    rewrite getWordCount_words, <- Ec, <- sum_lengths, map_map.
    cbn [Z.add]. f_equal. apply map_ext_Forall.
    eapply Forall_impl; [|exact Hgs].
    intros g (Hne & Hg). cbv beta.
    now rewrite Hcount, getWordCount_ensureEnding. }
  split; [exact Hcount|]. split; [exact Htotal|].
  intros Hn Hib. rewrite (Htotal Hn), !getWordCount_words.
  now rewrite cleanText_words.
Qed.

Lemma push_if_nil (c : bool) (m : jsstring) (a : list jsstring) :
  push_if c m a = [] -> c = false /\ a = [].
Proof.
  unfold push_if. destruct c; [|now split].
  intros E. now apply app_eq_nil in E as [_ E].
Qed.

(** X14: a text that [validateTextForSlides] accepts makes a deck with at
    least one slide, whatever the options with a [minWordsPerSlide] that is
    a number (the application passes 3): the first slide has number 1 and
    counts the whole deck in [totalSlides]. *)
Theorem valid_text_makes_a_deck
        (text : jsstring) (options : PartialOptions) (template : Template) :
  isNaN (ToNumber (minWordsPerSlide (spread DEFAULT_OPTIONS options)))
  = false ->
  TextSplitter.isValid (validateTextForSlides text) = true ->
  exists first rest,
    SlideGenerator.generateSlides (splitTextIntoSlides text options) template
    = first :: rest
    /\ SlideGenerator.slideNumber first = 1
    /\ SlideGenerator.totalSlides first = S (length rest).
Proof.
  intros Hnum.
  unfold validateTextForSlides. cbn [TextSplitter.isValid].
  rewrite Nat.eqb_eq, length_zero_iff_nil. intros E.
  apply push_if_nil in E as [_ E]. apply push_if_nil in E as [_ E].
  apply push_if_nil in E as [E _].
  assert (Ht : trim text <> []).
  { intros Hn. rewrite Hn in E. discriminate E. }
  pose proof (splitTextIntoSlides_nonblank text options Hnum Ht) as Hne.
  destruct (generateSlides_fields (splitTextIntoSlides text options) template)
    as (Hc & Hn & Hf).
  cbv zeta in Hc, Hn, Hf.
  destruct (SlideGenerator.generateSlides (splitTextIntoSlides text options)
              template) as [|first rest].
  - cbn [map] in Hc. congruence.
  - exists first, rest. split; [reflexivity|].
    rewrite <- Hc in Hn. rewrite <- Hc in Hf.
    cbn [map length seq] in Hn. injection Hn as Hn _.
    inversion Hf as [|? ? (_ & _ & Ht') _]; subst.
    split; [exact Hn|]. rewrite Ht'. cbn [map length].
    now rewrite length_map.
Qed.

End Pipeline.

(** X14 on a text of three words, with the options of the application. *)
Lemma valid_text_makes_a_deck_witness :
  exists first rest,
    SlideGenerator.generateSlides
      (splitTextIntoSlides (str "Three short words")
         {| maxCharacters_opt := Some (int 130);
            respectSentenceBoundaries_opt := Some (Some true);
            minWordsPerSlide_opt := Some (int 3) |}) tt
    = first :: rest
    /\ SlideGenerator.slideNumber first = 1
    /\ SlideGenerator.totalSlides first = S (length rest).
Proof.
  apply (valid_text_makes_a_deck (str "Three short words")
           {| maxCharacters_opt := Some (int 130);
              respectSentenceBoundaries_opt := Some (Some true);
              minWordsPerSlide_opt := Some (int 3) |} tt).
  - reflexivity.
  - vm_compute. reflexivity.
Defined.

(** ** The content analyzer: what both paths keep *)

Section AnalyzerShape.

(** A snippet comes with a description of the visual. *)
Lemma extractLabeled_snippet (text : jsstring) :
  visualSnippet (extractLabeled text) <> None ->
  truthy_opt (visual (extractLabeled text)) = true.
Proof.
  unfold extractLabeled. cbn [visualSnippet visual].
  destruct (truthy_opt _); [reflexivity | congruence].
Qed.

Lemma heuristics_snippet (text : jsstring) :
  visualSnippet (heuristics text) <> None ->
  truthy_opt (visual (heuristics text)) = true.
Proof.
  unfold heuristics.
  destruct (match1 re_fenced (normalize text));
    destruct (match1 re_braced (normalize text));
    cbn [visualSnippet visual]; try reflexivity.
  congruence.
Qed.

(** X15: on both paths of [analyzeContent], a result that has a
    [visualSnippet] has a [visual] that is not empty. *)
Theorem snippet_comes_with_visual (text : jsstring) :
  visualSnippet (analyzeContent text) <> None ->
  truthy_opt (visual (analyzeContent text)) = true.
Proof.
  unfold analyzeContent.
  destruct (hasAnyLabel (extractLabeled text));
    [apply extractLabeled_snippet | apply heuristics_snippet].
Qed.

Lemma scanTags_shape (s : jsstring) :
  forall tok,
    tok = [] \/ (exists r, rev tok = chr "#" :: r
                           /\ forallb isTagChar r = true) ->
    Forall (fun t => exists r, t = chr "#" :: r /\ r <> []
                               /\ forallb isTagChar r = true)
      (scanTags tok s).
Proof.
  assert (Hflush : forall tok,
             tok = [] \/ (exists r, rev tok = chr "#" :: r
                                    /\ forallb isTagChar r = true) ->
             Forall (fun t => exists r, t = chr "#" :: r /\ r <> []
                                        /\ forallb isTagChar r = true)
               (flushTag tok)).
  { intros tok [-> | (r & E & Hr)]; [constructor|].
    destruct tok as [|a [|b tok']]; cbn [flushTag]; [constructor..|].
    constructor; [|constructor]. exists r. split; [exact E|].
    split; [|exact Hr]. intros ->.
    apply (f_equal (@length _)) in E. rewrite length_rev in E.
    discriminate E. }
  induction s as [|c s IH]; intros tok Htok; cbn [scanTags].
  - now apply Hflush.
  - destruct (truthy tok && isTagChar c) eqn:E.
    + apply andb_true_iff in E as [Et Ec]. apply IH. right.
      destruct Htok as [-> | (r & Er & Hr)]; [discriminate Et|].
      exists (r ++ [c]). cbn [rev]. rewrite Er. split; [reflexivity|].
      rewrite forallb_app, Hr. cbn [forallb]. now rewrite Ec.
    + apply Forall_app. split; [now apply Hflush|].
      apply IH. destruct (isChr "#" c) eqn:Eh; [|now left].
      right. exists []. split; [|reflexivity].
      cbn [rev app]. unfold isChr in Eh. apply N.eqb_eq in Eh. now subst c.
Qed.

Lemma lowerChar_tag (c : char) :
  isTagChar c = true -> exists d, lowerChar c = [d] /\ tagChar d = true.
Proof.
  intros H. unfold lowerChar.
  destruct ((65 <=? c) && (c <=? 90))%N eqn:Eu.
  - exists (c + 32)%N. split; [reflexivity|].
    code_units. lia.
  - assert (E1 : (c =? 304)%N = false).
    { apply N.eqb_neq. intros ->. discriminate H. }
    assert (E2 : (c =? 8490)%N = false).
    { apply N.eqb_neq. intros ->. discriminate H. }
    rewrite E1, E2. exists c. split; [reflexivity|].
    apply andb_false_iff in Eu.
    rewrite !N.leb_gt in Eu.
    code_units. lia.
Qed.

Lemma toLowerCase_tag (r : jsstring) :
  forallb isTagChar r = true ->
  exists r', toLowerCase r = r' /\ length r' = length r
             /\ forallb tagChar r' = true.
Proof.
  induction r as [|c r IH]; intros H; [now exists []|].
  cbn [forallb] in H. apply andb_true_iff in H as [Hc Hr].
  destruct (IH Hr) as (r' & E & El & Hr').
  destruct (lowerChar_tag c Hc) as (d & Ed & Hd).
  exists (d :: r'). unfold toLowerCase in *. cbn [flat_map].
  rewrite Ed, E. cbn [app length forallb]. rewrite Hd, Hr', El.
  now repeat split.
Qed.

Lemma hashtags_shaped (s : jsstring) : Forall tagShaped (hashtags s).
Proof.
  apply Forall_forall. intros t Ht. unfold hashtags in Ht.
  apply (proj1 (proj2 (uniq_spec _) t)) in Ht.
  apply in_map_iff in Ht as (u & <- & Hu).
  rewrite match_all_hashtag in Hu.
  pose proof (scanTags_shape s [] (or_introl eq_refl)) as Hall.
  rewrite Forall_forall in Hall.
  destruct (Hall u Hu) as (r & -> & Hne & Hr).
  destruct (toLowerCase_tag r Hr) as (r' & E & El & Hr').
  exists r'. split; [|split; [|exact Hr']].
  - unfold toLowerCase in *. cbn [flat_map]. rewrite E. reflexivity.
  - intros ->. destruct r; [congruence | discriminate El].
Qed.

(** X16: when [analyzeContent] returns tags, every tag is a [#] followed
    by one or more of the letters a to z, the digits and the underscore,
    and no tag comes twice. *)
Theorem tags_are_lowercase_hashtags (text : jsstring) (ts : list jsstring) :
  tags (analyzeContent text) = Some ts ->
  NoDup ts /\ Forall tagShaped ts.
Proof.
  unfold analyzeContent.
  destruct (hasAnyLabel (extractLabeled text)).
  - rewrite extractLabeled_tags. discriminate.
  - rewrite heuristics_tags. intros E. injection E as <-. split.
    + apply uniq_spec.
    + apply hashtags_shaped.
Qed.

Lemma replace_first_shrinks (r : regex) (s : jsstring) :
  length (replace_first r [] s) <= length s.
Proof.
  unfold replace_first. destruct (search r [] s) as [f|]; [|lia].
  cbn [expand flat_map app].
  rewrite length_app, length_firstn, length_skipn. lia.
Qed.

Lemma emphasizedLine_short (lines : list jsstring) (t : jsstring) :
  emphasizedLine lines = Some t -> length t <= 80.
Proof.
  induction lines as [|line lines IH]; cbn [emphasizedLine]; [discriminate|].
  destruct (length line <=? 80) eqn:El; cbn [andb]; [|exact IH].
  destruct (test re_emphasis line || test re_colon_end line); [|exact IH].
  intros E. injection E as <-. apply Nat.leb_le in El.
  pose proof (replace_first_shrinks re_colon_end line). lia.
Qed.

Lemma heuristics_title_short (text t : jsstring) :
  title (heuristics text) = Some t -> length t <= 120.
Proof.
  unfold heuristics.
  destruct (match1 re_fenced (normalize text));
    destruct (match1 re_braced (normalize text));
    cbn [title];
    (destruct (emphasizedLine _) as [t0|] eqn:Et;
     [ apply emphasizedLine_short in Et | ];
     cbn [truthy_opt];
     [ destruct (truthy t0); cbn [negb] | cbn [negb] ];
     try (intros E; injection E as <-; lia);
     (destruct (hd_error _) as [p|]; cbn [option_map];
      [ destruct (truthy (trim p) && (length (trim p) <=? 120)) eqn:Es;
        [ apply andb_true_iff in Es as [_ Es]; apply Nat.leb_le in Es;
          intros E; injection E as <-; exact Es
        | try discriminate; intros E; injection E as <-; lia ]
      | try discriminate; intros E; injection E as <-; lia ])).
Qed.

(** X17: on a text without labels, the title that [analyzeContent] picks
    has at most 120 code units. *)
Theorem heuristic_title_is_short (text t : jsstring) :
  hasAnyLabel (extractLabeled text) = false ->
  title (analyzeContent text) = Some t -> length t <= 120.
Proof.
  intros Hl. unfold analyzeContent. rewrite Hl.
  apply heuristics_title_short.
Qed.

End AnalyzerShape.

(** X15 on a text with a block in braces. *)
Lemma snippet_comes_with_visual_witness :
  truthy_opt (visual (analyzeContent (str "Payload {a: 1} here"))) = true.
Proof.
  apply (snippet_comes_with_visual (str "Payload {a: 1} here")).
  vm_compute. discriminate.
Defined.

(** X16 on a text with a tag written twice. *)
Lemma tags_are_lowercase_hashtags_witness :
  NoDup [str "#ai"; str "#productivity"]
  /\ Forall tagShaped [str "#ai"; str "#productivity"].
Proof.
  apply (tags_are_lowercase_hashtags
           (str "Great tips #AI #ai #productivity")).
  vm_compute. reflexivity.
Defined.

(** X17 on a text whose first sentence becomes the title. *)
Lemma heuristic_title_is_short_witness :
  exists t,
    title (analyzeContent (str "Launch day! More to come.")) = Some t
    /\ length t <= 120.
Proof.
  exists (str "Launch day!"). split; [vm_compute; reflexivity|].
  apply (heuristic_title_is_short (str "Launch day! More to come."));
    vm_compute; reflexivity.
Defined.

(** ** getWordCount *)

Section WordCount.

(** X18: [getWordCount] is 0 exactly on the texts made of white space
    only, it is 1 on a run of code units without white space, the counts of
    two texts add up across a white-space code unit, and trimming changes
    nothing. *)
Theorem getWordCount_laws :
  (forall text, getWordCount text = 0%Z <-> forallb isSpace text = true)
  /\ (forall w, isWord w = true -> getWordCount w = 1%Z)
  /\ (forall a c b,
         isSpace c = true ->
         getWordCount (a ++ c :: b) = (getWordCount a + getWordCount b)%Z)
  /\ (forall text, getWordCount (trim text) = getWordCount text).
Proof.
  split; [|split; [|split]].
  - intros text. rewrite getWordCount_words. split.
    + intros H.
      destruct (forallb isSpace text) eqn:E; [reflexivity|]. exfalso.
      rewrite all_space_or_not in E. apply negb_false_iff in E.
      fold notSpace in E.
      pose proof (words_acc_nonempty text [] (or_intror E)) as Hne.
      unfold wordsOf, len in H.
      destruct (words_acc [] text); [congruence | discriminate H].
    + intros H. unfold wordsOf.
      now rewrite (words_acc_only_spaces text H).
  - intros w Hw.
    assert (Hall : Forall (fun x => isWord x = true) [w])
      by (constructor; [exact Hw | constructor]).
    exact (getWordCount_unwords [w] Hall).
  - intros a c b Hc. rewrite !getWordCount_words. unfold wordsOf.
    rewrite (words_acc_space_mid a c b Hc).
    unfold len. rewrite length_app. lia.
  - intros text. now rewrite !getWordCount_words, wordsOf_trim.
Qed.

End WordCount.

(** ** splitLongSentence on a tidy sentence *)

Section LongSentence.

Variables maxC minW : value.

Lemma unwords_groups (gs : list (list jsstring)) :
  Forall (fun g => g <> [] /\ allWords g) gs ->
  unwords (map unwords gs) = unwords (concat gs).
Proof.
  induction 1 as [|g gs (Hne & Hg) Hgs IH]; [reflexivity|].
  cbn [map concat].
  destruct gs as [|g' gs']; [cbn [map concat unwords]; now rewrite app_nil_r|].
  rewrite unwords_cons by discriminate.
  rewrite IH. inversion Hgs as [|? ? (Hne' & _) _]; subst.
  rewrite unwords_app; [reflexivity | exact Hne |].
  cbn [concat]. intros E. apply app_eq_nil in E as [E _]. contradiction.
Qed.

(** X19: [splitLongSentence] on words joined by single spaces: the chunks
    and the remainder, joined by single spaces again, are the sentence;
    the word count of every chunk reaches [minWords] (for an integer
    [minWords], is at least that integer); the remainder is not empty. *)
Theorem splitLongSentence_round_trip (sentence : jsstring) :
  tidy sentence = true ->
  let '(chunks, remainder) := splitLongSentence sentence maxC minW in
  unwords (chunks ++ [remainder]) = sentence
  /\ remainder <> []
  /\ Forall (fun chunk => num_ge (getWordCount chunk) minW = true) chunks
  /\ (forall z,
         minW = int z ->
         Forall (fun chunk => (z <= getWordCount chunk)%Z) chunks).
Proof.
  intros Hs.
  destruct (tidy_unwords_words sentence Hs) as [E Hne].
  pose proof (wordsOf_isWord sentence) as Hl.
  fold (allWords (wordsOf sentence)) in Hl.
  destruct (splitLongSentence_closed maxC minW
              (wordsOf sentence) Hl Hne)
    as (gs & bw & Est & Hgs & Hbw & Hbne & Ec).
  rewrite <- E in Est. rewrite Est.
  specialize (Hbne Hne).
  assert (Hch : Forall (fun chunk => num_ge (getWordCount chunk) minW = true)
                  (map unwords gs)).
  { apply Forall_map. eapply Forall_impl; [|exact Hgs].
    intros g (_ & Hg & Hmin). cbv beta.
    now rewrite (getWordCount_unwords g Hg). }
  split; [|split; [|split; [exact Hch|]]].
  - change [unwords bw] with (map unwords [bw]).
    rewrite <- map_app, unwords_groups.
    + rewrite concat_app. cbn [concat]. rewrite app_nil_r, Ec. now symmetry.
    + apply Forall_app. split.
      * eapply Forall_impl; [|exact Hgs]. now intros g (H1 & H2 & _).
      * constructor; [now split | constructor].
  - pose proof (unwords_truthy bw Hbw) as Ht.
    destruct bw; [congruence|]. intros E0. rewrite E0 in Ht. discriminate.
  - intros z Ez. eapply Forall_impl; [|exact Hch].
    intros chunk H. cbv beta in H.
    rewrite Ez, num_ge_int in H. now apply Z.geb_le in H.
Qed.

End LongSentence.

(** X19 on seven words, a budget of 12 code units and a minimum of 2. *)
Lemma splitLongSentence_round_trip_witness :
  exists chunks remainder,
    splitLongSentence (str "one two three four five six seven")
      (int 12) (int 2) = (chunks, remainder)
    /\ unwords (chunks ++ [remainder])
       = str "one two three four five six seven"
    /\ remainder <> []
    /\ Forall (fun chunk => (2 <= getWordCount chunk)%Z) chunks.
Proof.
  pose proof (splitLongSentence_round_trip (int 12) (int 2)
                (str "one two three four five six seven") eq_refl) as H.
  destruct (splitLongSentence (str "one two three four five six seven")
              (int 12) (int 2)) as [chunks remainder].
  exists chunks, remainder. destruct H as (H1 & H2 & _ & H4).
  split; [reflexivity|]. split; [exact H1|]. split; [exact H2|].
  exact (H4 2%Z eq_refl).
Defined.

(** ** The content analyzer: the trimmed fields and normalize *)

Section AnalyzerFields.

Lemma option_trim_fixed (o : option jsstring) (v : jsstring) :
  option_map trim o = Some v -> trim v = v.
Proof.
  destruct o as [x|]; cbn [option_map]; [|discriminate].
  intros E. injection E as <-. apply trim_idem.
Qed.

(** X20: on both paths of [analyzeContent], the body and the snippet, when
    there are any, carry no white space at either end. *)
Theorem body_and_snippet_are_trimmed (text : jsstring) :
  (forall b, body (analyzeContent text) = Some b -> trim b = b)
  /\ (forall v, visualSnippet (analyzeContent text) = Some v -> trim v = v).
Proof.
  unfold analyzeContent.
  destruct (hasAnyLabel (extractLabeled text)).
  - unfold extractLabeled. cbn [body visualSnippet]. split.
    + intros b. apply option_trim_fixed.
    + intros v. destruct (truthy_opt _); [|discriminate].
      destruct (match1 re_fenced _); apply option_trim_fixed.
  - unfold heuristics.
    destruct (match1 re_fenced (normalize text));
      destruct (match1 re_braced (normalize text));
      cbn [body visualSnippet]; split;
      try (intros b E; injection E as <-; apply trim_idem);
      try (intros v; apply option_trim_fixed);
      discriminate.
Qed.

Lemma newlines_unix (s : jsstring) :
  forall bef, replace_loop re_newline [TLit [LF]] bef s 0 = unixLines s.
Proof.
  assert (H : forall n s bef,
             length s <= n ->
             replace_loop re_newline [TLit [LF]] bef s 0 = unixLines s).
  { clear s. induction n as [|n IH]; intros s bef Hn.
    - destruct s; [|simpl in Hn; lia].
      cbn [replace_loop]. now rewrite match_newline.
    - destruct s as [|c s'].
      + cbn [replace_loop]. now rewrite match_newline.
      + cbn [length] in Hn. cbn [replace_loop unixLines].
        rewrite match_newline.
        destruct (N.eqb_spec CR c) as [<-|Hc].
        * change (expand [TLit [LF]] _) with [LF].
          destruct s' as [|d s2].
          -- cbn [rest length Nat.sub app replace_loop].
             now rewrite match_newline.
          -- destruct (N.eqb_spec LF d) as [<-|Hd]; cbn [rest].
             ++ replace (length (CR :: LF :: s2) - length s2) with 2
                  by (cbn [length]; lia).
                cbn [app replace_loop].
                rewrite IH by (cbn [length] in Hn; lia). reflexivity.
             ++ replace (length (CR :: d :: s2) - length (d :: s2)) with 1
                  by (cbn [length]; lia).
                cbn [app].
                now rewrite IH by lia.
        * now rewrite IH by lia. }
  intros bef. now apply (H (length s)).
Qed.

Lemma unixLines_no_CR (s : jsstring) : Forall (fun c => c <> CR) (unixLines s).
Proof.
  assert (H : forall n s, length s <= n ->
                          Forall (fun c => c <> CR) (unixLines s)).
  { clear s. induction n as [|n IH]; intros s Hn.
    - destruct s; [constructor | simpl in Hn; lia].
    - destruct s as [|c s']; [constructor|].
      cbn [length] in Hn. cbn [unixLines].
      destruct (N.eqb_spec CR c) as [<-|Hc].
      + constructor; [discriminate|].
        destruct s' as [|d s2]; [constructor|].
        destruct (LF =? d)%N; apply IH; cbn [length] in *; lia.
      + constructor; [congruence | apply IH; lia]. }
  now apply (H (length s)).
Qed.

Lemma unixLines_fixed (s : jsstring) :
  Forall (fun c => c <> CR) s -> unixLines s = s.
Proof.
  induction 1 as [|c s Hc Hs IH]; [reflexivity|].
  cbn [unixLines]. destruct (N.eqb_spec CR c); [congruence|].
  now rewrite IH.
Qed.

Lemma Forall_trim (P : char -> Prop) (s : jsstring) :
  Forall P s -> Forall P (trim s).
Proof.
  intros H. destruct (trim_split s) as (a & b & _ & _ & E).
  rewrite E in H. apply Forall_app in H as [_ H].
  now apply Forall_app in H as [H _].
Qed.

(** X21: [normalize] turns every carriage return, with the line feed after
    it if there is one, into a line feed and trims the result; no carriage
    return is left, and a second run changes nothing. *)
Theorem normalize_spec (text : jsstring) :
  normalize text = trim (unixLines text)
  /\ Forall (fun c => c <> CR) (normalize text)
  /\ normalize (normalize text) = normalize text.
Proof.
  assert (E : forall t, normalize t = trim (unixLines t)).
  { intros t. unfold normalize, replace_all. now rewrite newlines_unix. }
  assert (Hno : Forall (fun c => c <> CR) (normalize text)).
  { rewrite E. apply Forall_trim, unixLines_no_CR. }
  split; [apply E|]. split; [exact Hno|].
  rewrite (E (normalize text)), (unixLines_fixed _ Hno).
  rewrite E. apply trim_idem.
Qed.

End AnalyzerFields.

(** ** The content analyzer: the body *)

Section Body.

Lemma match_blank_lines (bef s : jsstring) :
  match_here re_blank_lines bef s
  = match s with
    | c :: d :: s2 =>
        if (LF =? c)%N && (LF =? d)%N
        then Some (MState (rev (takeWhile (N.eqb LF) s2) ++ d :: c :: bef)
                          (dropWhile (N.eqb LF) s2) [])
        else None
    | _ => None
    end.
Proof.
  unfold match_here, re_blank_lines, Plus.
  rewrite matches_Seq, matches_Chr.
  destruct s as [|c s1]; [reflexivity|].
  destruct (LF =? c)%N.
  2: { cbn [flat_map hd_error andb]. now destruct s1. }
  cbn [flat_map andb]. rewrite app_nil_r, matches_Seq, matches_Chr.
  destruct s1 as [|d s2]; [reflexivity|].
  destruct (LF =? d)%N; [|reflexivity].
  cbn [flat_map]. rewrite app_nil_r, matches_Star. cbn [rest].
  rewrite star_chr by lia. now rewrite chr_star_hd.
Qed.

Lemma replace_loop_skip (r : regex) (t : list titem) (s : jsstring) :
  forall bef skip,
    skip <= length s ->
    replace_loop r t bef s skip
    = replace_loop r t (rev (firstn skip s) ++ bef) (skipn skip s) 0.
Proof.
  induction s as [|c s IH]; intros bef skip Hle.
  - destruct skip; [reflexivity | simpl in Hle; lia].
  - destruct skip as [|k]; [reflexivity|].
    cbn [length] in Hle. cbn [replace_loop firstn skipn rev].
    rewrite IH by lia. now rewrite <- app_assoc.
Qed.

Lemma noBlankLine_cons (c : char) (s : jsstring) :
  noBlankLine (c :: s)
  = negb ((LF =? c)%N && startsLF s) && noBlankLine s.
Proof.
  destruct s; cbn [noBlankLine startsLF]; [|reflexivity].
  now rewrite andb_false_r.
Qed.

Lemma compact_lines (n : nat) :
  forall s bef,
    length s <= n ->
    let out := replace_loop re_blank_lines [TLit [LF]] bef s 0 in
    noBlankLine out = true /\ (startsLF s = false -> startsLF out = false).
Proof.
  induction n as [|n IH]; intros s bef Hn; cbv zeta.
  - destruct s; [|simpl in Hn; lia].
    cbn [replace_loop]. rewrite match_blank_lines. now split.
  - destruct s as [|c s']; [cbn [replace_loop]; rewrite match_blank_lines;
                            now split|].
    cbn [length] in Hn. cbn [replace_loop]. rewrite match_blank_lines.
    assert (Hkeep :
             (LF =? c)%N && startsLF s' = false ->
             let out := c :: replace_loop re_blank_lines [TLit [LF]]
                               (c :: bef) s' 0 in
             noBlankLine out = true
             /\ (startsLF (c :: s') = false -> startsLF out = false)).
    { intros Hc. cbv zeta.
      destruct (IH s' (c :: bef) ltac:(lia)) as [H1 H2].
      split; [|trivial].
      rewrite noBlankLine_cons, H1, andb_true_r.
      destruct (LF =? c)%N; [|reflexivity].
      cbn [andb] in Hc. now rewrite (H2 Hc). }
    destruct s' as [|d s2]; [apply Hkeep, andb_false_r|].
    destruct ((LF =? c)%N && (LF =? d)%N) eqn:E; [|apply Hkeep; exact E].
    apply andb_true_iff in E as [Ec Ed].
    cbn [rest]. change (expand [TLit [LF]] _) with [LF].
    replace (length (c :: d :: s2) - length (dropWhile (N.eqb LF) s2))
      with (S (S (length (takeWhile (N.eqb LF) s2)))).
    2: { pose proof (length_dropWhile (N.eqb LF) s2).
         pose proof (dropWhile_length (N.eqb LF) s2).
         cbn [length]. lia. }
    cbn [app].
    rewrite replace_loop_skip.
    2: { cbn [length]. rewrite <- (takeWhile_dropWhile (N.eqb LF) s2) at 2.
         rewrite length_app. lia. }
    cbn [skipn]. rewrite skipn_takeWhile.
    pose proof (dropWhile_length (N.eqb LF) s2) as Hlen.
    match goal with
    | |- context [replace_loop _ _ ?b (dropWhile _ s2) 0] =>
        destruct (IH (dropWhile (N.eqb LF) s2) b ltac:(cbn [length] in Hn; lia))
          as [H1 H2]
    end.
    assert (Hd : startsLF (dropWhile (N.eqb LF) s2) = false).
    { pose proof (dropWhile_head (N.eqb LF) s2) as Hh.
      destruct (dropWhile (N.eqb LF) s2); [reflexivity | exact Hh]. }
    split.
    + rewrite noBlankLine_cons, H1, (H2 Hd). reflexivity.
    + cbn [startsLF]. rewrite Ec. discriminate.
Qed.

Lemma noBlankLine_app (a b : jsstring) :
  noBlankLine (a ++ b) = true -> noBlankLine a = true /\ noBlankLine b = true.
Proof.
  induction a as [|c a IH]; intros H; [now split|].
  cbn [app] in H. rewrite noBlankLine_cons in H |- *.
  apply andb_true_iff in H as [Hc H]. destruct (IH H) as [Ha Hb].
  split; [|exact Hb]. rewrite Ha, andb_true_r.
  destruct a as [|d a']; [now rewrite andb_false_r|exact Hc].
Qed.

Lemma noBlankLine_trim (s : jsstring) :
  noBlankLine s = true -> noBlankLine (trim s) = true.
Proof.
  intros H. destruct (trim_split s) as (a & b & _ & _ & E).
  rewrite E in H. apply noBlankLine_app in H as [_ H].
  now apply noBlankLine_app in H as [H _].
Qed.

(** X22: on a text without labels, [analyzeContent] returns a body, and in
    it no line feed is directly followed by another: the body has no empty
    line. *)
Theorem heuristic_body_is_compact (text : jsstring) :
  hasAnyLabel (extractLabeled text) = false ->
  exists b,
    body (analyzeContent text) = Some b /\ noBlankLine b = true.
Proof.
  intros Hl. unfold analyzeContent. rewrite Hl.
  assert (H : forall s, noBlankLine
                          (trim (replace_all re_blank_lines [TLit [LF]] s))
                        = true).
  { intros s. apply noBlankLine_trim. unfold replace_all.
    apply (compact_lines (length s) s [] (le_n _)). }
  unfold heuristics.
  destruct (match1 re_fenced (normalize text));
    destruct (match1 re_braced (normalize text));
    cbn [body]; eexists; (split; [reflexivity | apply H]).
Qed.

End Body.

(** X22 on a text with a title line and two runs of line feeds: the body
    keeps three lines and none is empty. *)
Lemma heuristic_body_is_compact_witness :
  let text :=
    str "Agenda:" ++ [LF; LF; LF] ++ str "first" ++ [LF; LF] ++ str "second" in
  noBlankLine text = false
  /\ body (analyzeContent text)
     = Some (str ":" ++ [LF] ++ str "first" ++ [LF] ++ str "second")
  /\ noBlankLine (str ":" ++ [LF] ++ str "first" ++ [LF] ++ str "second")
     = true.
Proof.
  cbv zeta.
  destruct (heuristic_body_is_compact
              (str "Agenda:" ++ [LF; LF; LF] ++ str "first" ++ [LF; LF]
               ++ str "second") eq_refl)
    as (b & Eb & Hb).
  assert (E : body (analyzeContent
                      (str "Agenda:" ++ [LF; LF; LF] ++ str "first"
                       ++ [LF; LF] ++ str "second"))
              = Some (str ":" ++ [LF] ++ str "first" ++ [LF] ++ str "second"))
    by (vm_compute; reflexivity).
  rewrite E in Eb. injection Eb as <-.
  split; [reflexivity|]. split; [exact E | exact Hb].
Defined.

(** ** The content analyzer: a text that is not blank has something to show *)

Section Rendered.

Lemma unixLines_chars (s : jsstring) :
  filter notSpace (unixLines s) = filter notSpace s.
Proof.
  assert (H : forall n s, length s <= n ->
                          filter notSpace (unixLines s) = filter notSpace s).
  { clear s. induction n as [|n IH]; intros s Hn.
    - destruct s; [reflexivity | simpl in Hn; lia].
    - destruct s as [|c s']; [reflexivity|].
      cbn [length] in Hn. cbn [unixLines].
      destruct (N.eqb_spec CR c) as [<-|Hc].
      + change (filter notSpace (CR :: s')) with (filter notSpace s').
        match goal with
        | |- filter notSpace (LF :: ?x) = _ =>
            change (filter notSpace (LF :: x)) with (filter notSpace x)
        end.
        destruct s' as [|d s2]; [reflexivity|].
        destruct (N.eqb_spec LF d) as [<-|Hd].
        * change (filter notSpace (LF :: s2)) with (filter notSpace s2).
          apply IH. cbn [length] in Hn. lia.
        * apply IH. lia.
      + cbn [filter]. rewrite IH by lia. reflexivity. }
  now apply (H (length s)).
Qed.

Lemma filter_notSpace_LFs (s : jsstring) :
  filter notSpace (takeWhile (N.eqb LF) s) = [].
Proof.
  induction s as [|c s IH]; [reflexivity|]. cbn [takeWhile].
  destruct (N.eqb_spec LF c) as [<-|]; [exact IH | reflexivity].
Qed.

Lemma compact_chars (n : nat) :
  forall s bef,
    length s <= n ->
    filter notSpace (replace_loop re_blank_lines [TLit [LF]] bef s 0)
    = filter notSpace s.
Proof.
  induction n as [|n IH]; intros s bef Hn.
  - destruct s; [|simpl in Hn; lia].
    cbn [replace_loop]. now rewrite match_blank_lines.
  - destruct s as [|c s']; [cbn [replace_loop]; now rewrite match_blank_lines|].
    cbn [length] in Hn. cbn [replace_loop]. rewrite match_blank_lines.
    assert (Hkeep :
             filter notSpace
               (c :: replace_loop re_blank_lines [TLit [LF]] (c :: bef) s' 0)
             = filter notSpace (c :: s')).
    { cbn [filter]. now rewrite IH by lia. }
    destruct s' as [|d s2]; [exact Hkeep|].
    destruct (N.eqb_spec LF c) as [<-|Hc]; [|exact Hkeep].
    destruct (N.eqb_spec LF d) as [<-|Hd]; [|exact Hkeep].
    cbn [andb rest]. change (expand [TLit [LF]] _) with [LF].
    replace (length (LF :: LF :: s2) - length (dropWhile (N.eqb LF) s2))
      with (S (S (length (takeWhile (N.eqb LF) s2)))).
    2: { pose proof (length_dropWhile (N.eqb LF) s2).
         pose proof (dropWhile_length (N.eqb LF) s2).
         cbn [length]. lia. }
    cbn [app].
    rewrite replace_loop_skip.
    2: { cbn [length]. rewrite <- (takeWhile_dropWhile (N.eqb LF) s2) at 2.
         rewrite length_app. lia. }
    cbn [skipn]. rewrite skipn_takeWhile.
    pose proof (dropWhile_length (N.eqb LF) s2) as Hlen.
    match goal with
    | |- filter notSpace (LF :: ?x) = _ =>
        change (filter notSpace (LF :: x)) with (filter notSpace x)
    end.
    rewrite IH by (cbn [length] in Hn; lia).
    change (filter notSpace (LF :: LF :: s2)) with (filter notSpace s2).
    rewrite <- (takeWhile_dropWhile (N.eqb LF) s2) at 2.
    now rewrite filter_app, filter_notSpace_LFs.
Qed.

Lemma trim_chars (s : jsstring) :
  filter notSpace (trim s) = filter notSpace s.
Proof.
  destruct (trim_split s) as (a & b & Ha & Hb & E).
  rewrite E at 2.
  rewrite !filter_app, (filter_notSpace_spaces a Ha),
    (filter_notSpace_spaces b Hb).
  now rewrite app_nil_r.
Qed.

Lemma chars_truthy (s : jsstring) :
  filter notSpace s <> [] -> truthy s = true.
Proof. destruct s; [intros H; now elim H | reflexivity]. Qed.

Lemma nonblank_chars (s : jsstring) :
  forallb isSpace s = false -> filter notSpace s <> [].
Proof.
  intros H E. rewrite all_space_or_not in H. apply negb_false_iff in H.
  fold notSpace in H. apply existsb_exists in H as (c & Hin & Hc).
  assert (Hin' : In c (filter notSpace s)) by (apply filter_In; now split).
  now rewrite E in Hin'.
Qed.

Lemma heuristics_body (text : jsstring) :
  match1 re_fenced (normalize text) = None ->
  match1 re_braced (normalize text) = None ->
  body (heuristics text)
  = Some (trim (replace_all re_blank_lines [TLit [LF]]
                  (match title (heuristics text) with
                   | Some t =>
                       if truthy t
                       then trim (remove_first t (normalize text))
                       else normalize text
                   | None => normalize text
                   end))).
Proof. intros H1 H2. unfold heuristics. now rewrite H1, H2. Qed.

Lemma heuristics_visual (text : jsstring) :
  match1 re_fenced (normalize text) <> None
  \/ match1 re_braced (normalize text) <> None ->
  truthy_opt (visual (heuristics text)) = true.
Proof.
  unfold heuristics.
  destruct (match1 re_fenced (normalize text));
    destruct (match1 re_braced (normalize text));
    try reflexivity.
  intros [H | H]; congruence.
Qed.

Lemma heuristics_nonblank (text : jsstring) :
  forallb isSpace text = false -> hasAnyLabel (heuristics text) = true.
Proof.
  intros Hnb. unfold hasAnyLabel.
  destruct (match1 re_fenced (normalize text)) as [f|] eqn:Ef.
  { rewrite heuristics_visual; [apply orb_true_r|].
    left. rewrite Ef. discriminate. }
  destruct (match1 re_braced (normalize text)) as [b|] eqn:Eb.
  { rewrite heuristics_visual; [apply orb_true_r|].
    right. rewrite Eb. discriminate. }
  rewrite (heuristics_body text Ef Eb).
  assert (Hbody : truthy (trim (replace_all re_blank_lines [TLit [LF]]
                                  (normalize text))) = true).
  { apply chars_truthy. rewrite trim_chars. unfold replace_all.
    rewrite (compact_chars _ _ [] (le_n _)).
    unfold normalize, replace_all.
    rewrite trim_chars, newlines_unix, unixLines_chars.
    now apply nonblank_chars. }
  destruct (title (heuristics text)) as [t|]; cbn [truthy_opt].
  - destruct (truthy t); [reflexivity|]. cbn [orb]. now rewrite Hbody.
  - cbn [orb]. now rewrite Hbody.
Qed.

(** X23: [analyzeContent] finds something to show in every text that is
    not blank: a title, a body or a visual that is not empty; so it does in
    every slide that [splitTextIntoSlides] returns. *)
Theorem nonblank_content_has_structure :
  (forall text,
      forallb isSpace text = false ->
      hasAnyLabel (analyzeContent text) = true)
  /\ (forall text options,
         Forall (fun slide => hasAnyLabel (analyzeContent slide) = true)
           (splitTextIntoSlides text options)).
Proof.
  assert (H : forall text,
             forallb isSpace text = false ->
             hasAnyLabel (analyzeContent text) = true).
  { intros text Hnb. unfold analyzeContent.
    destruct (hasAnyLabel (extractLabeled text)) eqn:E; [exact E|].
    now apply heuristics_nonblank. }
  split; [exact H|].
  intros text options.
  destruct (isNaN (ToNumber (minWordsPerSlide
                               (spread DEFAULT_OPTIONS options)))) eqn:Hn.
  { rewrite (splitTextIntoSlides_NaN text options Hn). constructor. }
  destruct (splitTextIntoSlides_closed text options Hn)
    as (gs & -> & Hgs & _).
  apply Forall_map. eapply Forall_impl; [|exact Hgs].
  intros g (Hne & Hg). cbv beta. apply H.
  destruct (ensureEnding_unwords g Hne Hg) as (g' & -> & Hg' & Hne' & _).
  pose proof (tidy_unwords g' Hg' Hne') as Ht.
  destruct (forallb isSpace (unwords g')) eqn:E; [|reflexivity].
  apply trim_all_space in E. rewrite (tidy_trim _ Ht) in E.
  apply tidy_truthy in Ht. rewrite E in Ht. discriminate.
Qed.

End Rendered.

(** ** The text splitter: the options *)

Section SplitterOptions.

(** X24: [splitTextIntoSlides] never reads [respectSentenceBoundaries]:
    two calls whose options differ in this field only return the same
    slides. *)
Theorem respectSentenceBoundaries_is_ignored
        (text : jsstring) (maxC minW : option value)
        (b b' : option (option bool)) :
  splitTextIntoSlides text
    {| maxCharacters_opt := maxC;
       respectSentenceBoundaries_opt := b;
       minWordsPerSlide_opt := minW |}
  = splitTextIntoSlides text
      {| maxCharacters_opt := maxC;
         respectSentenceBoundaries_opt := b';
         minWordsPerSlide_opt := minW |}.
Proof.
  unfold splitTextIntoSlides, rawSlides, postProcessSlides.
  cbn [spread maxCharacters_opt minWordsPerSlide_opt minWordsPerSlide].
  assert (E : forall o o' : TextSplitterOptions,
             maxCharacters o = maxCharacters o' ->
             minWordsPerSlide o = minWordsPerSlide o' ->
             forall acc sentence,
               sentenceStep o acc sentence = sentenceStep o' acc sentence).
  { intros o o' Hm Hw [slides cur] sentence.
    unfold sentenceStep. now rewrite Hm, Hw. }
  assert (F : forall o o' : TextSplitterOptions,
             maxCharacters o = maxCharacters o' ->
             minWordsPerSlide o = minWordsPerSlide o' ->
             forall l acc,
               fold_left (sentenceStep o) l acc
               = fold_left (sentenceStep o') l acc).
  { intros o o' Hm Hw l. induction l as [|s l IH]; intros acc; [reflexivity|].
    cbn [fold_left]. now rewrite (E o o' Hm Hw), IH. }
  destruct (negb (truthy (trim text))); [reflexivity|].
  destruct (length (sentencesOf text) =? 0); [reflexivity|].
  erewrite F; reflexivity.
Qed.

(** X25: when one word reaches [minWordsPerSlide] (it is at most 1), so
    that no merge is forced, and no word of the cleaned text exceeds
    [maxCharacters], every slide is within the budget, but for the period
    that post-processing may append.  With integer options these are the
    bounds of the second part. *)
Theorem slides_within_budget (text : jsstring) (options : PartialOptions) :
  let opts := spread DEFAULT_OPTIONS options in
  (num_ge 1 (minWordsPerSlide opts) = true ->
   Forall (fun w => num_gt (len w) (maxCharacters opts) = false)
     (wordsOf (cleanText text)) ->
   Forall (fun slide =>
             num_gt (len slide - 1) (maxCharacters opts) = false
             /\ exists p,
                 (slide = p \/ slide = p ++ str ".")
                 /\ num_gt (len p) (maxCharacters opts) = false)
     (splitTextIntoSlides text options))
  /\ (forall maxC minW,
         maxCharacters opts = int maxC ->
         minWordsPerSlide opts = int minW ->
         (minW <= 1)%Z ->
         Forall (fun w => (len w <= maxC)%Z) (wordsOf (cleanText text)) ->
         Forall (fun slide =>
                   (len slide <= maxC + 1)%Z
                   /\ exists p,
                       (slide = p \/ slide = p ++ str ".")
                       /\ (len p <= maxC)%Z)
           (splitTextIntoSlides text options)).
Proof.
  intros opts.
  assert (Hmain :
           num_ge 1 (minWordsPerSlide opts) = true ->
           Forall (fun w => num_gt (len w) (maxCharacters opts) = false)
             (wordsOf (cleanText text)) ->
           Forall (fun slide =>
                     num_gt (len slide - 1) (maxCharacters opts) = false
                     /\ exists p,
                         (slide = p \/ slide = p ++ str ".")
                         /\ num_gt (len p) (maxCharacters opts) = false)
             (splitTextIntoSlides text options)).
  { intros Hmin Hwords.
    assert (Hn : isNaN (ToNumber (minWordsPerSlide opts)) = false).
    { unfold num_ge in Hmin. now destruct (ToNumber (minWordsPerSlide opts)). }
    destruct (splitTextIntoSlides_spec text options Hn) as (gs & -> & Hgs & Ec).
    fold opts in Hgs. apply Forall_map.
    rewrite Forall_forall in Hgs, Hwords |- *.
    intros g Hin. destruct (Hgs g Hin) as (Hne & Hall & Hfit).
    assert (Hp : num_gt (len (unwords g)) (maxCharacters opts) = false).
    { assert (Hone : length g <= 1 ->
                     num_gt (len (unwords g)) (maxCharacters opts) = false).
      { intros Hl. destruct g as [|w [|w' g']];
          [congruence | | cbn [length] in Hl; lia].
        cbn [unwords]. apply Hwords. rewrite <- Ec.
        apply in_concat. exists [w]. split; [exact Hin | now left]. }
      destruct Hfit as [H | [H | H]]; [exact H | now apply Hone |].
      apply Hone.
      destruct (le_lt_dec (length g) 1) as [Hl | Hl]; [exact Hl|].
      exfalso.
      assert (Hge : num_ge (len g - 1) (minWordsPerSlide opts) = true).
      { apply (num_ge_mono 1); [unfold len; lia | exact Hmin]. }
      congruence. }
    split.
    - destruct (ensureEnding_cases (unwords g)) as [-> | ->].
      + apply (num_gt_mono (len (unwords g))); [lia | exact Hp].
      + apply (num_gt_mono (len (unwords g))); [|exact Hp].
        unfold len. rewrite length_app.
        change (length (str ".")) with 1. lia.
    - exists (unwords g). split; [apply ensureEnding_cases | exact Hp]. }
  split; [exact Hmain|].
  intros maxC minW Emax Emin Hmin Hwords.
  assert (Hle : forall n, num_gt n (maxCharacters opts) = false
                          <-> (n <= maxC)%Z).
  { intros n. rewrite Emax, num_gt_int, Z.gtb_ltb. apply Z.ltb_ge. }
  eapply Forall_impl; [|apply Hmain].
  - intros slide (H1 & p & Hp & H2). apply Hle in H1. split; [lia|].
    exists p. split; [exact Hp | now apply Hle].
  - rewrite Emin, num_ge_int. apply Z.geb_le. lia.
  - eapply Forall_impl; [|exact Hwords]. intros w Hw. now apply Hle.
Qed.

End SplitterOptions.

(** X25 on the example of the budget of 14 code units. *)
Lemma slides_within_budget_witness :
  Forall (fun slide =>
            (len slide <= 14 + 1)%Z
            /\ exists p,
                (slide = p \/ slide = p ++ str ".") /\ (len p <= 14)%Z)
    (splitTextIntoSlides (str "aaaa bbbb cccc dddd")
       {| maxCharacters_opt := Some (int 14);
          respectSentenceBoundaries_opt := None;
          minWordsPerSlide_opt := Some (int 1) |}).
Proof.
  apply (proj2 (slides_within_budget (str "aaaa bbbb cccc dddd")
                  {| maxCharacters_opt := Some (int 14);
                     respectSentenceBoundaries_opt := None;
                     minWordsPerSlide_opt := Some (int 1) |})
           14%Z 1%Z eq_refl eq_refl).
  - lia.
  - vm_compute. repeat constructor; discriminate.
Defined.
